(** * dstest / aptos / filter_consensus_logs.py

    A shallow embedding of the consensus-log filter and the properties of
    its specification.

    Modelling conventions.
    - A Python [str] is a list of characters.  Characters are the code
      points 0..255 ([ascii]); the character classes below are the ones
      Python's [re] uses for [str] patterns, restricted to that range.
    - A compiled pattern is a value of [re]; the matcher [run] enumerates
      the matches of a pattern at a position in the priority order of
      Python's backtracking matcher, so that the match Python reports is the
      first element of the list.
    - [json.loads] and [json.dumps] belong to the Python library, not to the
      program: the program is parameterised by them. *)

From Stdlib Require Import Ascii String List NArith ZArith Bool Arith Lia.
From Stdlib Require Import DecimalString DecimalN Sorting.Sorted Permutation.
Import ListNotations.

Set Implicit Arguments.
Local Open Scope list_scope.

(* ------------------------------------------------------------------ *)
(** * Python strings *)

Definition str := list ascii.

(** String literals of the source. *)
Definition py (s : string) : str := list_ascii_of_string s.

Definition str_eqb (a b : str) : bool :=
  if list_eq_dec ascii_dec a b then true else false.

Definition code (c : ascii) : N := N_of_ascii c.

Definition in_range (lo hi : N) (c : ascii) : bool :=
  (lo <=? code c)%N && (code c <=? hi)%N.

(** [\d] *)
Definition is_digit (c : ascii) : bool := in_range 48 57 c.
(** [[A-Z]] *)
Definition is_upper (c : ascii) : bool := in_range 65 90 c.
Definition is_lower (c : ascii) : bool := in_range 97 122 c.
(** [\s]: the characters for which [str.isspace] holds. *)
Definition is_space (c : ascii) : bool :=
  in_range 9 13 c || in_range 28 32 c
  || (code c =? 133)%N || (code c =? 160)%N.
(** [\S] *)
Definition not_space (c : ascii) : bool := negb (is_space c).
(** [.] without DOTALL: anything but a newline. *)
Definition newline : ascii := ascii_of_N 10.
Definition dot (c : ascii) : bool := negb (Ascii.eqb c newline).
(** [[0-9:.]] *)
Definition ts_tail (c : ascii) : bool :=
  is_digit c || Ascii.eqb c ":"%char || Ascii.eqb c "."%char.
(** [[^\]]] *)
Definition not_rbracket (c : ascii) : bool := negb (Ascii.eqb c "]"%char).

(** Case folding of the ASCII letters, for [re.IGNORECASE]. *)
Definition lower (c : ascii) : ascii :=
  if is_upper c then ascii_of_N (code c + 32) else c.

(* ------------------------------------------------------------------ *)
(** * Regular expressions

    The fragment of Python's pattern language that the program uses.
    Every quantifier of the source is applied to a one-character atom, so
    quantifiers carry a character class. *)

Inductive re : Type :=
| Lit (c : ascii)                      (* a literal character *)
| LitI (c : ascii)                     (* the same under IGNORECASE *)
| Cls (p : ascii -> bool)              (* a class: \d \s [..] . *)
| Cat (r1 r2 : re)                     (* r1 r2 *)
| Alt (r1 r2 : re)                     (* r1 | r2 *)
| Rep (n : nat) (p : ascii -> bool)    (* p{n} *)
| Plus (p : ascii -> bool)             (* p+  greedy *)
| Star (p : ascii -> bool)             (* p*  greedy *)
| PlusLazy (p : ascii -> bool)         (* p+? *)
| Grp (name : string) (r : re)         (* (?P<name> r) or a numbered group *)
| Eos                                  (* $ *)
| Eps                                  (* the empty pattern *)
| Nul.                                 (* the pattern that never matches *)

Definition captures := list (string * str).

(** The tails of [s] reachable by consuming 0, 1, 2, ... characters of
    class [p], shortest consumption first. *)
Fixpoint tails (p : ascii -> bool) (s : str) : list str :=
  s :: match s with
       | x :: s' => if p x then tails p s' else []
       | [] => []
       end.

(** One or more characters of class [p], shortest consumption first. *)
Definition tails1 (p : ascii -> bool) (s : str) : list str :=
  match s with
  | x :: s' => if p x then tails p s' else []
  | [] => []
  end.

(** Exactly [n] characters of class [p]. *)
Fixpoint take_rep (p : ascii -> bool) (n : nat) (s : str) : option str :=
  match n with
  | O => Some s
  | S n' => match s with
            | x :: s' => if p x then take_rep p n' s' else None
            | [] => None
            end
  end.

(** What a group has consumed: the text between two positions. *)
Definition consumed (s rest : str) : str :=
  firstn (length s - length rest) s.

(** [$]: the end of the string, or just before a newline that ends it. *)
Definition at_end (s : str) : bool :=
  match s with
  | [] => true
  | [c] => Ascii.eqb c newline
  | _ => false
  end.

(** All the ways [r] matches at the start of [s], in the order in which the
    backtracking matcher tries them; each with the captures and the text
    that remains. *)
Fixpoint run (r : re) (c : captures) (s : str) : list (captures * str) :=
  match r with
  | Lit a =>
      match s with
      | x :: s' => if Ascii.eqb x a then [(c, s')] else []
      | [] => []
      end
  | LitI a =>
      match s with
      | x :: s' => if Ascii.eqb (lower x) (lower a) then [(c, s')] else []
      | [] => []
      end
  | Cls p =>
      match s with
      | x :: s' => if p x then [(c, s')] else []
      | [] => []
      end
  | Cat r1 r2 => flat_map (fun m => run r2 (fst m) (snd m)) (run r1 c s)
  | Alt r1 r2 => run r1 c s ++ run r2 c s
  | Rep n p =>
      match take_rep p n s with
      | Some s' => [(c, s')]
      | None => []
      end
  | Plus p => map (pair c) (rev (tails1 p s))
  | Star p => map (pair c) (rev (tails p s))
  | PlusLazy p => map (pair c) (tails1 p s)
  | Grp name r =>
      map (fun m => ((name, consumed s (snd m)) :: fst m, snd m)) (run r c s)
  | Eos => if at_end s then [(c, s)] else []
  | Eps => [(c, s)]
  | Nul => []
  end.

(** [pattern.match(s)]: the first match at position 0. *)
Definition re_match (r : re) (s : str) : option captures :=
  match run r [] s with
  | m :: _ => Some (fst m)
  | [] => None
  end.

(** [pattern.search(s)]: the first match at the leftmost position that has
    one. *)
Fixpoint re_search (r : re) (s : str) : option captures :=
  match run r [] s with
  | m :: _ => Some (fst m)
  | [] => match s with
          | _ :: s' => re_search r s'
          | [] => None
          end
  end.

(** [m.group(name)] *)
Fixpoint group (name : string) (c : captures) : str :=
  match c with
  | (n, v) :: c' => if String.eqb n name then v else group name c'
  | [] => []
  end.

(** A literal string as a pattern ([re.escape]). *)
Fixpoint lit (s : str) : re :=
  match s with
  | [] => Eps
  | a :: s' => Cat (Lit a) (lit s')
  end.

(** The same under IGNORECASE. *)
Fixpoint liti (s : str) : re :=
  match s with
  | [] => Eps
  | a :: s' => Cat (LitI a) (liti s')
  end.

(** ["|".join(...)]: the alternatives are tried from left to right. *)
Fixpoint alternation (rs : list re) : re :=
  match rs with
  | [] => Nul
  | r :: rs' => Alt r (alternation rs')
  end.

(** Juxtaposition of the pieces of a pattern. *)
Fixpoint cat (rs : list re) : re :=
  match rs with
  | [] => Eps
  | r :: rs' => Cat r (cat rs')
  end.

(* ------------------------------------------------------------------ *)
(** * The patterns of the program *)

Definition LINE_RE : re :=
  cat [ Grp "ts" (cat [ Rep 4 is_digit; Lit "-"; Rep 2 is_digit; Lit "-";
                        Rep 2 is_digit; Lit "T"; Plus ts_tail; Lit "Z" ]);
        Plus is_space;
        Lit "["; Grp "thr" (Plus not_rbracket); Lit "]"; Plus is_space;
        Grp "level" (Plus is_upper); Plus is_space;
        Grp "target" (PlusLazy not_space); Lit ":"; Grp "line" (Plus is_digit);
        Plus is_space;
        Grp "msg" (Star dot); Eos ].

Definition JSON_RE : re :=
  Grp "1" (cat [ Lit "{"; Star dot; Lit "}" ]).

Definition EVENT_KEYWORDS : list str :=
  map py
  [ "NewEpoch"; "NewRound"; "CommitViaBlock";
    "Timeout"; "RoundTimeout"; "ReceiveRoundTimeout";
    "Vote"; "VoteNIL";
    "Propose"; "OptPropose";
    "ReceiveProposal"; "ReceiveOptProposal"; "ProcessOptProposal";
    "ReceiveSyncInfo"; "SyncInfo"; "ReceiveNewCertificate";
    "NetworkReceiveProposal"; "NetworkReceiveOptProposal";
    "NetworkReceiveSyncInfo";
    "Broadcast"; "BroadcastOrderVote"; "BroadcastRandShareFastPath";
    "ReceiveOrderVote"; "OrderVote"; "ReceiveVote";
    "Signed ledger info"; "Receive commit vote"; "Receive ordered block";
    "leader"; "Leader"; "proposer"; "Proposer"; "proposer_election";
    "rotating_proposer";
    "pacemaker"; "Pacemaker" ]%string.

Definition KW_RE : re := alternation (map lit EVENT_KEYWORDS).

(** [^(stdout|stderr)_(\d+)\.log$] with IGNORECASE. *)
Definition NODE_FROM_FILENAME_RE : re :=
  cat [ Grp "1" (Alt (liti (py "stdout")) (liti (py "stderr")));
        LitI "_"; Grp "2" (Plus is_digit); LitI "."; liti (py "log"); Eos ].

(* ------------------------------------------------------------------ *)
(** * Python values and dictionaries *)

(** The values [json.loads] produces and [json.dumps] accepts.  [VNone] is
    Python's [None] (JSON [null]); a float is kept as its [repr]. *)
#[local] Unset Elimination Schemes.
Inductive value : Type :=
| VNone
| VBool (b : bool)
| VInt (z : Z)
| VFloat (repr : str)
| VStr (s : str)
| VList (l : list value)
| VDict (d : list (str * value)).
#[local] Set Elimination Schemes.

(** A [dict] with string keys, in insertion order. *)
Definition dict := list (str * value).

(** [d[k]], where [None] stands for a missing key. *)
Fixpoint dict_get (k : str) (d : dict) : option value :=
  match d with
  | [] => None
  | (k', v) :: d' => if str_eqb k' k then Some v else dict_get k d'
  end.

(** [k in d] *)
Definition dict_in (k : str) (d : dict) : bool :=
  match dict_get k d with Some _ => true | None => false end.

(** [d.get(k)] *)
Definition get (k : str) (d : dict) : value :=
  match dict_get k d with Some v => v | None => VNone end.

(** [d[k] = v]: an existing key keeps its place, a new one goes last. *)
Fixpoint dict_set (k : str) (v : value) (d : dict) : dict :=
  match d with
  | [] => [(k, v)]
  | (k', v') :: d' =>
      if str_eqb k' k then (k, v) :: d' else (k', v') :: dict_set k v d'
  end.

(* ------------------------------------------------------------------ *)
(** * Step 1: parse one line, keep it or drop it *)

Definition is_newline (c : ascii) : bool := Ascii.eqb c newline.

Fixpoint drop_while (p : ascii -> bool) (s : str) : str :=
  match s with
  | x :: s' => if p x then drop_while p s' else s
  | [] => []
  end.

(** [s.rstrip("\n")] *)
Definition rstrip_nl (s : str) : str := rev (drop_while is_newline (rev s)).

(** [int(s)] on a string of decimal digits. *)
Definition int_of (s : str) : N :=
  fold_left (fun acc c => (acc * 10 + (code c - 48))%N) s 0%N.

(** [KW_RE.search(s)] as a truth value. *)
Definition kw_search (s : str) : bool :=
  match re_search KW_RE s with Some _ => true | None => false end.

Definition is_dict (v : value) : bool :=
  match v with VDict _ => true | _ => false end.

Definition is_none (v : value) : bool :=
  match v with VNone => true | _ => false end.

(** The keys copied from the payload into the record. *)
Definition COMMON_FIELDS : list str :=
  map py [ "epoch"; "round"; "reason"; "remote_peer"; "block_round";
           "block_epoch"; "block_author" ]%string.

Section ParseLine.

(** [json.loads]; [None] stands for [json.JSONDecodeError]. *)
Variable json_loads : str -> option value.

(** The embedded payload of a message: [None] unless a brace block is found
    and decodes. *)
Definition payload_of (msg : str) : value :=
  match re_search JSON_RE msg with
  | Some jm =>
      match json_loads (group "1" jm) with
      | Some v => v
      | None => VNone
      end
  | None => VNone
  end.

(** The event name read before the decision, and whether it decides to keep
    the line. *)
Definition event_of (payload : value) : value :=
  match payload with
  | VDict o => if dict_in (py "event") o then get (py "event") o else VNone
  | _ => VNone
  end.

Definition event_keeps (event : value) : bool :=
  match event with
  | VStr e => kw_search e
  | _ => false
  end.

Definition keep_line (payload : value) (msg : str) : bool :=
  let keep := event_keeps (event_of payload) in
  if negb keep && kw_search msg then true else keep.

(** The record built for a kept line: the fields of the log prefix, *)
Definition base_record (d : captures) : dict :=
  [ (py "ts", VStr (group "ts" d));
    (py "thread", VStr (group "thr" d));
    (py "level", VStr (group "level" d));
    (py "target", VStr (group "target" d));
    (py "line", VInt (Z.of_N (int_of (group "line" d))));
    (py "msg", VStr (group "msg" d)) ].

(** then the payload, if there is one, *)
Definition attach_json (payload : value) (out : dict) : dict :=
  if is_none payload then out else dict_set (py "json") payload out.

(** the event name, read again from the payload when it is still [None], *)
Definition late_event (payload event : value) : value :=
  match payload with
  | VDict o => if is_none event then get (py "event") o else event
  | _ => event
  end.

Definition attach_event (event : value) (out : dict) : dict :=
  match event with
  | VStr _ => dict_set (py "event") event out
  | _ => out
  end.

(** and the common fields that the payload has. *)
Definition copy_field (o : dict) (out : dict) (k : str) : dict :=
  match dict_get k o with
  | Some v => dict_set k v out
  | None => out
  end.

Definition attach_common (payload : value) (out : dict) : dict :=
  match payload with
  | VDict o => fold_left (copy_field o) COMMON_FIELDS out
  | _ => out
  end.

Definition build_record (d : captures) (payload : value) : dict :=
  let event := event_of payload in
  let out := base_record d in
  let out := attach_json payload out in
  let event := late_event payload event in
  let out := attach_event event out in
  attach_common payload out.

Definition parse_line (line : str) : option dict :=
  match re_match LINE_RE (rstrip_nl line) with
  | None => None
  | Some d =>
      let msg := group "msg" d in
      let payload := payload_of msg in
      if keep_line payload msg then Some (build_record d payload) else None
  end.

End ParseLine.

(* ------------------------------------------------------------------ *)
(** * The line grammar, written out

    What [LINE_RE] accepts, as a decomposition of the line. *)

(** One or more white-space characters: [\s+]. *)
Definition spaces1 (w : str) : Prop := w <> [] /\ forallb is_space w = true.

(** The timestamp of [LINE_RE]: [\d{4}-\d{2}-\d{2}T[0-9:.]+Z]. *)
Definition ts_shape (ts : str) : Prop :=
  exists y m d t,
    ts = y ++ "-"%char :: m ++ "-"%char :: d ++ "T"%char :: t ++ ["Z"%char] /\
    length y = 4 /\ forallb is_digit y = true /\
    length m = 2 /\ forallb is_digit m = true /\
    length d = 2 /\ forallb is_digit d = true /\
    t <> [] /\ forallb ts_tail t = true.

(** [<timestamp> [<thread>] <LEVEL> <target>:<line> <message>], with the
    timestamps that [tsP] admits. *)
Definition line_grammar_with (tsP : str -> Prop)
    (l ts thr level target ln msg : str) : Prop :=
  exists ws1 ws2 ws3 ws4,
    l = ts ++ ws1 ++ "["%char :: thr ++ "]"%char :: ws2 ++ level ++ ws3
           ++ target ++ ":"%char :: ln ++ ws4 ++ msg /\
    tsP ts /\ spaces1 ws1 /\
    thr <> [] /\ forallb not_rbracket thr = true /\ spaces1 ws2 /\
    level <> [] /\ forallb is_upper level = true /\ spaces1 ws3 /\
    target <> [] /\ forallb not_space target = true /\
    ln <> [] /\ forallb is_digit ln = true /\ spaces1 ws4 /\
    forallb dot msg = true.

Definition line_grammar := line_grammar_with ts_shape.

(** The timestamp shape the specification names:
    [YYYY-MM-DDTHH:MM:SS.ffffffZ]. *)
Definition strict_iso_ts (ts : str) : Prop :=
  exists y m d hh mm ss f,
    ts = y ++ "-"%char :: m ++ "-"%char :: d ++ "T"%char :: hh ++ ":"%char
         :: mm ++ ":"%char :: ss ++ "."%char :: f ++ ["Z"%char] /\
    length y = 4 /\ forallb is_digit y = true /\
    length m = 2 /\ forallb is_digit m = true /\
    length d = 2 /\ forallb is_digit d = true /\
    length hh = 2 /\ forallb is_digit hh = true /\
    length mm = 2 /\ forallb is_digit mm = true /\
    length ss = 2 /\ forallb is_digit ss = true /\
    length f = 6 /\ forallb is_digit f = true.

(** The captures of a [LINE_RE] match. *)
Definition line_captures (ts thr level target ln msg : str) : captures :=
  [ ("msg", msg); ("line", ln); ("target", target); ("level", level);
    ("thr", thr); ("ts", ts) ]%string.

(** [k in s]: the string [s] contains [k]. *)
Definition contains (k s : str) : Prop := exists pre post, s = pre ++ k ++ post.

Definition dquote : ascii := ascii_of_N 34.
Definition lbrace : ascii := "{"%char.
Definition rbrace : ascii := "}"%char.

(* ------------------------------------------------------------------ *)
(** * A decoder to run examples with

    The program is parameterised by [json.loads].  To evaluate it on
    concrete lines, [json_loads_basic] decodes the JSON texts made of
    objects, arrays, strings without escapes, integers, [true], [false] and
    [null]; on those it returns what [json.loads] returns, and it reports a
    decode error on everything else.  No property below depends on it. *)

Definition json_ws (c : ascii) : bool :=
  Ascii.eqb c " "%char || (code c =? 9)%N || (code c =? 10)%N || (code c =? 13)%N.

Definition skip_ws (s : str) : str := drop_while json_ws s.

(** The characters of a string up to the closing quote. *)
Fixpoint scan_string (s : str) : option (str * str) :=
  match s with
  | [] => None
  | c :: t =>
      if Ascii.eqb c dquote then Some ([], t)
      else if Ascii.eqb c "\"%char || (code c <? 32)%N then None
      else match scan_string t with
           | Some (w, rest) => Some (c :: w, rest)
           | None => None
           end
  end.

Fixpoint span (p : ascii -> bool) (s : str) : str * str :=
  match s with
  | c :: t => if p c then let (w, rest) := span p t in (c :: w, rest) else ([], s)
  | [] => ([], [])
  end.

Definition is_float_mark (c : ascii) : bool :=
  Ascii.eqb c "."%char || Ascii.eqb c "e"%char || Ascii.eqb c "E"%char.

(** An integer literal: no leading zero, no fraction, no exponent. *)
Definition scan_int (s : str) : option (Z * str) :=
  let (neg, s1) := match s with
                   | c :: t => if Ascii.eqb c "-"%char then (true, t) else (false, s)
                   | [] => (false, s)
                   end in
  let (ds, rest) := span is_digit s1 in
  match ds with
  | [] => None
  | d :: ds' =>
      if Ascii.eqb d "0"%char && negb (match ds' with [] => true | _ => false end)
      then None
      else match rest with
           | c :: _ => if is_float_mark c then None
                       else Some (if neg then (- Z.of_N (fold_left (fun acc c => (acc * 10 + (code c - 48))%N) ds 0%N))%Z
                                  else Z.of_N (fold_left (fun acc c => (acc * 10 + (code c - 48))%N) ds 0%N), rest)
           | [] => Some (if neg then (- Z.of_N (fold_left (fun acc c => (acc * 10 + (code c - 48))%N) ds 0%N))%Z
                         else Z.of_N (fold_left (fun acc c => (acc * 10 + (code c - 48))%N) ds 0%N), rest)
           end
  end.

Fixpoint strip_prefix (k s : str) : option str :=
  match k, s with
  | [], _ => Some s
  | a :: k', c :: s' => if Ascii.eqb a c then strip_prefix k' s' else None
  | _ :: _, [] => None
  end.

(** [d[k] = v] on an association list of any value type. *)
Fixpoint assoc_set {V} (k : str) (v : V) (d : list (str * V)) : list (str * V) :=
  match d with
  | [] => [(k, v)]
  | (k', v') :: d' =>
      if str_eqb k' k then (k, v) :: d' else (k', v') :: assoc_set k v d'
  end.

Fixpoint decode_value (fuel : nat) (s : str) {struct fuel} : option (value * str) :=
  match fuel with
  | O => None
  | S fuel =>
      match skip_ws s with
      | [] => None
      | c :: t =>
          if Ascii.eqb c lbrace then
            match skip_ws t with
            | c' :: t' =>
                if Ascii.eqb c' rbrace then Some (VDict [], t')
                else decode_members fuel (skip_ws t) []
            | [] => None
            end
          else if Ascii.eqb c "["%char then
            match skip_ws t with
            | c' :: t' =>
                if Ascii.eqb c' "]"%char then Some (VList [], t')
                else decode_elems fuel (skip_ws t) []
            | [] => None
            end
          else if Ascii.eqb c dquote then
            match scan_string t with
            | Some (w, rest) => Some (VStr w, rest)
            | None => None
            end
          else
            match strip_prefix (py "true") (c :: t),
                  strip_prefix (py "false") (c :: t),
                  strip_prefix (py "null") (c :: t) with
            | Some rest, _, _ => Some (VBool true, rest)
            | _, Some rest, _ => Some (VBool false, rest)
            | _, _, Some rest => Some (VNone, rest)
            | _, _, _ =>
                match scan_int (c :: t) with
                | Some (z, rest) => Some (VInt z, rest)
                | None => None
                end
            end
      end
  end
with decode_members (fuel : nat) (s : str) (acc : list (str * value)) {struct fuel}
  : option (value * str) :=
  match fuel with
  | O => None
  | S fuel =>
      match s with
      | q :: t =>
          if Ascii.eqb q dquote then
            match scan_string t with
            | Some (k, rest) =>
                match skip_ws rest with
                | c :: rest1 =>
                    if Ascii.eqb c ":"%char then
                      match decode_value fuel rest1 with
                      | Some (v, rest2) =>
                          match skip_ws rest2 with
                          | c2 :: rest3 =>
                              if Ascii.eqb c2 rbrace then Some (VDict (assoc_set k v acc), rest3)
                              else if Ascii.eqb c2 ","%char
                                   then decode_members fuel (skip_ws rest3) (assoc_set k v acc)
                                   else None
                          | [] => None
                          end
                      | None => None
                      end
                    else None
                | [] => None
                end
            | None => None
            end
          else None
      | [] => None
      end
  end
with decode_elems (fuel : nat) (s : str) (acc : list value) {struct fuel}
  : option (value * str) :=
  match fuel with
  | O => None
  | S fuel =>
      match decode_value fuel s with
      | Some (v, rest) =>
          match skip_ws rest with
          | c :: rest1 =>
              if Ascii.eqb c "]"%char then Some (VList (acc ++ [v]), rest1)
              else if Ascii.eqb c ","%char then decode_elems fuel rest1 (acc ++ [v])
              else None
          | [] => None
          end
      | None => None
      end
  end.

Definition json_loads_basic (s : str) : option value :=
  match decode_value (S (length s)) s with
  | Some (v, rest) => match skip_ws rest with [] => Some v | _ => None end
  | None => None
  end.

(* ------------------------------------------------------------------ *)
(** * Example lines *)

(** A quoted string inside a JSON text. *)
Definition quoted (s : string) : str := dquote :: py s ++ [dquote].

(** The payload of the specification: event Vote, epoch 2, round 51. *)
Definition ex_payload_vote : str :=
  lbrace :: quoted "event" ++ py ":" ++ quoted "Vote" ++ py ","
         ++ quoted "epoch" ++ py ":2," ++ quoted "round" ++ py ":51}".

Definition ex_line_vote : str :=
  py "2026-02-17T11:09:41.177185Z [consensus-4] INFO consensus/src/round_manager.rs:1023 casting "
  ++ ex_payload_vote ++ [newline].

(** A line without payload whose message has a keyword. *)
Definition ex_line_newround : str :=
  py "2026-02-17T11:09:41.177185Z [consensus-4] INFO consensus/src/round_state.rs:77 NewRound event triggered".

(** A line that [LINE_RE] accepts although its timestamp is not an ISO-8601
    time of day. *)
Definition ex_line_loose_ts : str :=
  py "2026-02-17T1Z [t] INFO a:1 Vote".

(* ------------------------------------------------------------------ *)
(** * Directories and paths

    A directory lists its entries in the order in which the operating
    system enumerates them; names are attached to the entries by the
    directory that holds them.  A file is the list of its lines, and may be
    unreadable. *)

#[local] Unset Elimination Schemes.
Inductive entry : Type :=
| File (readable : bool) (lines : list str)
| Dir (children : list (str * entry)).
#[local] Set Elimination Schemes.

(** A [Path], by its parts. *)
Definition path := list str.

(** [p / name] *)
Definition child_path (p : path) (name : str) : path := p ++ [name].

(** [p.name] *)
Definition path_name (p : path) : str := last p [].

(** [str(p)] *)
Fixpoint path_str (p : path) : str :=
  match p with
  | [] => []
  | [a] => a
  | a :: p' => a ++ "/"%char :: path_str p'
  end.

Definition is_file (e : entry) : bool :=
  match e with File _ _ => true | Dir _ => false end.

Definition is_dir (e : entry) : bool :=
  match e with Dir _ => true | File _ _ => false end.

(** [p.iterdir()] *)
Definition iterdir (p : path) (e : entry) : list (path * entry) :=
  match e with
  | Dir cs => map (fun c => (child_path p (fst c), snd c)) cs
  | File _ _ => []
  end.

(** [p.rglob("*")]: every entry below [p]; a directory's own entries, then
    the entries below each of its subdirectories. *)
Fixpoint rglob (p : path) (e : entry) : list (path * entry) :=
  match e with
  | File _ _ => []
  | Dir cs =>
      map (fun c => (child_path p (fst c), snd c)) cs
      ++ flat_map (fun c : str * entry =>
                    let (n, e') := c in rglob (child_path p n) e') cs
  end.

(** [NODE_FROM_FILENAME_RE.match(name)], and the node id it gives. *)
Definition node_of_filename (name : str) : option N :=
  match re_match NODE_FROM_FILENAME_RE name with
  | Some m => Some (int_of (group "2" m))
  | None => None
  end.

Definition is_log_name (name : str) : bool :=
  match re_match NODE_FROM_FILENAME_RE name with
  | Some _ => true
  | None => false
  end.

(* ------------------------------------------------------------------ *)
(** * Detecting the run directories *)

Definition looks_like_run_dir (p : path) (e : entry) : bool :=
  existsb (fun f => is_file (snd f) && is_log_name (path_name (fst f)))
          (rglob p e).

(** The two hints of the environment: [os.getenv] gives [None] or a
    string. *)
Record hints : Type := mkHints {
  TEST_NAME : option str;
  SCHED_TYPE : option str
}.

(** Truth value of an optional string: set and not empty. *)
Definition truthy (o : option str) : bool :=
  match o with
  | Some (_ :: _) => true
  | _ => false
  end.

Definition expected_run_prefix (h : hints) : option str :=
  match TEST_NAME h, SCHED_TYPE h with
  | Some test_name, Some sched_type =>
      if truthy (Some test_name) && truthy (Some sched_type)
      then Some (test_name ++ "_"%char :: sched_type ++ ["_"%char])
      else None
  | _, _ => None
  end.

(** [s.startswith(pref)] *)
Fixpoint startswith (pref s : str) : bool :=
  match pref, s with
  | [], _ => true
  | a :: pref', c :: s' => Ascii.eqb a c && startswith pref' s'
  | _ :: _, [] => false
  end.

(** Order of strings: by code points, a proper prefix first. *)
Fixpoint str_leb (a b : str) : bool :=
  match a, b with
  | [], _ => true
  | _ :: _, [] => false
  | x :: a', y :: b' =>
      if (code x <? code y)%N then true
      else if (code y <? code x)%N then false
      else str_leb a' b'
  end.

(** [sorted] on the paths of one directory: they differ by their names.
    The sort is stable. *)
Fixpoint insert_sorted (x : path * entry) (l : list (path * entry))
  : list (path * entry) :=
  match l with
  | [] => [x]
  | y :: l' =>
      if str_leb (path_name (fst y)) (path_name (fst x))
      then y :: insert_sorted x l'
      else x :: l
  end.

Definition sorted (l : list (path * entry)) : list (path * entry) :=
  fold_left (fun acc x => insert_sorted x acc) l [].

Definition find_run_dirs (h : hints) (run_id_dir : path) (e : entry)
  : list (path * entry) :=
  let candidates := sorted (filter (fun c => is_dir (snd c)) (iterdir run_id_dir e)) in
  let run_like := fun d : path * entry => looks_like_run_dir (fst d) (snd d) in
  let hinted :=
    match expected_run_prefix h with
    | Some pref =>
        filter run_like
          (filter (fun d => startswith pref (path_name (fst d))) candidates)
    | None => []
    end in
  match hinted with
  | _ :: _ => hinted
  | [] =>
      let autodetected := filter run_like candidates in
      match autodetected with
      | _ :: _ => autodetected
      | [] =>
          if looks_like_run_dir run_id_dir e then [(run_id_dir, e)] else []
      end
  end.

(* ------------------------------------------------------------------ *)
(** * Step 2: the log files of a run directory *)

Definition iter_log_files (root : path) (e : entry)
  : list (path * N * entry) :=
  flat_map
    (fun f =>
       if is_file (snd f) then
         match node_of_filename (path_name (fst f)) with
         | Some node_id => [(fst f, node_id, snd f)]
         | None => []
         end
       else [])
    (rglob root e).

(* ------------------------------------------------------------------ *)
(** * Output sinks

    The files a run opens for writing, by name inside the output directory,
    each with the chunks written to it since it was opened.  Opening for
    writing creates the file or empties it. *)

Definition sink_store := list (str * list str).

Fixpoint sink_get (name : str) (s : sink_store) : option (list str) :=
  match s with
  | [] => None
  | (n, c) :: s' => if str_eqb n name then Some c else sink_get name s'
  end.

Fixpoint sink_set (name : str) (c : list str) (s : sink_store) : sink_store :=
  match s with
  | [] => [(name, c)]
  | (n, c') :: s' =>
      if str_eqb n name then (name, c) :: s' else (n, c') :: sink_set name c s'
  end.

(** What the operating system may refuse: creating the output directory,
    opening a sink, writing a chunk to a sink that holds [written]. *)
Record env : Type := mkEnv {
  can_mkdir : path -> bool;
  can_open : path -> bool;
  can_write : path -> list str -> bool
}.

(** An environment that refuses nothing. *)
Definition reliable (ev : env) : Prop :=
  (forall p, can_mkdir ev p = true) /\
  (forall p, can_open ev p = true) /\
  (forall p c, can_write ev p c = true).

Definition reliable_env : env :=
  mkEnv (fun _ => true) (fun _ => true) (fun _ _ => true).

(** The state of [filter_one_run_dir]: the two counters, the node ids that
    have writers, and the sinks. *)
Record state : Type := mkState {
  scanned : nat;
  kept : nat;
  writers : list N;
  sinks : sink_store
}.

Definition init_state : state := mkState 0 0 [] [].

(** Computations that change the state and may raise [OSError] ([None]);
    what was done before the error stays done. *)
Definition M (A : Type) : Type := state -> option A * state.

Definition ret {A} (a : A) : M A := fun st => (Some a, st).

Definition bind {A B} (m : M A) (k : A -> M B) : M B :=
  fun st =>
    match m st with
    | (Some a, st') => k a st'
    | (None, st') => (None, st')
    end.

Definition raise {A} : M A := fun st => (None, st).

(** [try: m  except OSError: continue] *)
Definition catch (m : M unit) : M unit :=
  fun st =>
    match m st with
    | (Some a, st') => (Some a, st')
    | (None, st') => (Some tt, st')
    end.

Declare Scope monad_scope.
Delimit Scope monad_scope with monad.
Notation "x <- m ;; k" := (bind m (fun x => k))
  (at level 61, m at next level, right associativity) : monad_scope.
Notation "m ;; k" := (bind m (fun _ => k))
  (at level 61, right associativity) : monad_scope.

(** [for x in l: f x] *)
Fixpoint for_each {A} (f : A -> M unit) (l : list A) : M unit :=
  match l with
  | [] => ret tt
  | x :: l' => bind (f x) (fun _ => for_each f l')
  end.

(** The decimal spelling of a node id, as an f-string prints it. *)
Definition decimal (n : N) : str := py (NilEmpty.string_of_uint (N.to_uint n)).

Definition node_jsonl (node_id : N) : str := py "node" ++ decimal node_id ++ py ".jsonl".
Definition node_log (node_id : N) : str := py "node" ++ decimal node_id ++ py ".log".
Definition all_jsonl : str := py "all_nodes.jsonl".
Definition all_log : str := py "all_nodes.log".

(** The entry of a directory listing with a given name. *)
Fixpoint lookup (name : str) (cs : list (str * entry)) : option entry :=
  match cs with
  | [] => None
  | (n, e) :: cs' => if str_eqb n name then Some e else lookup name cs'
  end.

Definition is_dir_in (cs : list (str * entry)) (name : str) : bool :=
  match lookup name cs with
  | Some (Dir _) => true
  | _ => false
  end.

(** A record field that holds a string, as an f-string prints it. *)
Definition field_str (k : str) (rec : dict) : str :=
  match dict_get k rec with
  | Some (VStr s) => s
  | _ => []
  end.

(** The level filter: [None], or the set of the levels to keep. *)
Definition level_filter := option (list str).

Definition mem (x : str) (l : list str) : bool := existsb (str_eqb x) l.

(** [level_set and rec["level"] not in level_set]: an empty set counts as no
    filter. *)
Definition level_excluded (level_set : level_filter) (rec : dict) : bool :=
  match level_set with
  | Some ((_ :: _) as ls) => negb (mem (field_str (py "level") rec) ls)
  | _ => false
  end.

Section Pipeline.

Variable json_loads : str -> option value.
(** [json.dumps(rec, ensure_ascii=False)] *)
Variable json_dumps : value -> str.
Variable ev : env.

Local Open Scope monad_scope.

(** The directory the sinks are in, with what it holds before the run. *)
Variable out_dir : path.
Variable out_cs : list (str * entry).

(** [(out_dir / name).open("w")] *)
Definition open_w (name : str) : M unit :=
  fun st =>
    if is_dir_in out_cs name || negb (can_open ev (child_path out_dir name))
    then (None, st)
    else (Some tt, mkState (scanned st) (kept st) (writers st)
                     (sink_set name [] (sinks st))).

(** [f.write(chunk)] on the sink called [name] *)
Definition write (name : str) (chunk : str) : M unit :=
  fun st =>
    let written := match sink_get name (sinks st) with
                   | Some c => c
                   | None => []
                   end in
    if can_write ev (child_path out_dir name) written
    then (Some tt, mkState (scanned st) (kept st) (writers st)
                     (sink_set name (written ++ [chunk]) (sinks st)))
    else (None, st).

Definition get_writers (node_id : N) : M (str * str) :=
  fun st =>
    if existsb (N.eqb node_id) (writers st)
    then (Some (node_jsonl node_id, node_log node_id), st)
    else
      (open_w (node_jsonl node_id) ;;
       open_w (node_log node_id) ;;
       (fun st' => (Some (node_jsonl node_id, node_log node_id),
                    mkState (scanned st') (kept st')
                      (writers st' ++ [node_id]) (sinks st')))) st.

(** The record with its provenance. *)
Definition enrich (rec : dict) (source_file : path) (run_name : str)
    (node_id : N) : dict :=
  dict_set (py "node") (VInt (Z.of_N node_id))
    (dict_set (py "run_dir") (VStr run_name)
       (dict_set (py "source_file") (VStr (path_str source_file)) rec)).

(** The two serialisations of a record. *)
Definition jsonl_line (rec : dict) (source_file : path) (run_name : str)
    (node_id : N) : str :=
  json_dumps (VDict (enrich rec source_file run_name node_id)) ++ [newline].

Definition pretty_line (rec : dict) : str :=
  field_str (py "ts") rec ++ " "%char :: field_str (py "msg") rec ++ [newline].


Definition write_record (jf tf : str) (rec : dict) (source_file : path)
    (run_name : str) (node_id : N) : M unit :=
  write jf (jsonl_line rec source_file run_name node_id) ;;
  write tf (pretty_line (enrich rec source_file run_name node_id)).

Variable run_name : str.
Variable level_set : level_filter.

Definition incr_scanned : M unit :=
  fun st => (Some tt, mkState (S (scanned st)) (kept st) (writers st) (sinks st)).

Definition incr_kept : M unit :=
  fun st => (Some tt, mkState (scanned st) (S (kept st)) (writers st) (sinks st)).

(** The body of the loop over the lines of one file. *)
Definition process_line (f : path) (node_id : N) (line : str) : M unit :=
  incr_scanned ;;
  match parse_line json_loads line with
  | None => ret tt
  | Some rec =>
      if level_excluded level_set rec then ret tt
      else
        w <- get_writers node_id ;;
        write_record (fst w) (snd w) rec f run_name node_id ;;
        write_record all_jsonl all_log rec f run_name node_id ;;
        incr_kept
  end.

(** One turn of the loop over the files: the [try] block. *)
Definition process_file (x : path * N * entry) : M unit :=
  let '(f, node_id, e) := x in
  catch
    match e with
    | File true lines => for_each (process_line f node_id) lines
    | _ => raise
    end.

(** From the opening of the combined sinks to the end of the loop. *)
Definition run_body (files : list (path * N * entry)) : M (nat * nat) :=
  open_w all_jsonl ;;
  open_w all_log ;;
  for_each process_file files ;;
  (fun st => (Some (scanned st, kept st), st)).

End Pipeline.

(* ------------------------------------------------------------------ *)
(** * Step 4: one run directory

    [out_dir] is always [run_dir / out_subdir] in the program; the model
    takes the name [out_subdir], one path component. *)

(** [out_dir.mkdir(parents=True, exist_ok=True)] succeeds. *)
Definition mkdir_ok (ev : env) (run_dir : path) (rd : entry) (out_subdir : str)
  : bool :=
  match rd with
  | Dir cs =>
      match lookup out_subdir cs with
      | Some (Dir _) => true
      | Some (File _ _) => false
      | None => can_mkdir ev (child_path run_dir out_subdir)
      end
  | File _ _ => false
  end.

(** What the output directory holds before the run. *)
Definition out_children (rd : entry) (out_subdir : str) : list (str * entry) :=
  match rd with
  | Dir cs =>
      match lookup out_subdir cs with
      | Some (Dir ocs) => ocs
      | _ => []
      end
  | File _ _ => []
  end.

Section RunDir.

Variable json_loads : str -> option value.
Variable json_dumps : value -> str.
Variable ev : env.

(** The result is [(scanned, kept)], or [None] when an [OSError] leaves the
    function; the state shows what was done. *)
Definition filter_one_run_dir (run_dir : path) (rd : entry) (out_subdir : str)
    (level_set : level_filter) : option (nat * nat) * state :=
  if mkdir_ok ev run_dir rd out_subdir then
    run_body json_loads json_dumps ev
      (child_path run_dir out_subdir) (out_children rd out_subdir)
      (path_name run_dir) level_set
      (iter_log_files run_dir rd) init_state
  else (None, init_state).

End RunDir.

(** ** The directory after the run *)

(** A file of the output directory after it has been written. *)
Fixpoint set_file (name : str) (c : list str) (cs : list (str * entry))
  : list (str * entry) :=
  match cs with
  | [] => [(name, File true c)]
  | (n, e) :: cs' =>
      if str_eqb n name
      then (n, match e with File r _ => File r c | Dir _ => e end) :: cs'
      else (n, e) :: set_file name c cs'
  end.

Definition commit (s : sink_store) (cs : list (str * entry))
  : list (str * entry) :=
  fold_left (fun cs x => set_file (fst x) (snd x) cs) s cs.

(** The output directory, created if need be, holding the sinks. *)
Fixpoint set_dir (name : str) (f : list (str * entry) -> list (str * entry))
    (cs : list (str * entry)) : list (str * entry) :=
  match cs with
  | [] => [(name, Dir (f []))]
  | (n, e) :: cs' =>
      if str_eqb n name
      then (n, match e with Dir ocs => Dir (f ocs) | File _ _ => e end) :: cs'
      else (n, e) :: set_dir name f cs'
  end.

Definition rd_after (ev : env) (run_dir : path) (rd : entry) (out_subdir : str)
    (st : state) : entry :=
  if mkdir_ok ev run_dir rd out_subdir then
    match rd with
    | Dir cs => Dir (set_dir out_subdir (commit (sinks st)) cs)
    | File _ _ => rd
    end
  else rd.

(* ------------------------------------------------------------------ *)
(** * [main] *)

(** [s.split(",")] *)
Fixpoint split_comma (s : str) : list str :=
  match s with
  | [] => [[]]
  | c :: s' =>
      if Ascii.eqb c ","%char then [] :: split_comma s'
      else match split_comma s' with
           | w :: ws => (c :: w) :: ws
           | [] => [[c]]
           end
  end.

(** [s.strip()] *)
Definition strip (s : str) : str :=
  rev (drop_while is_space (rev (drop_while is_space s))).

(** [s.upper()].  The upper case of the two characters 181 and 255 lies
    beyond code point 255; they are left as they are, which no comparison
    with a level of a log line can tell. *)
Definition upper_char (c : ascii) : str :=
  if is_lower c then [ascii_of_N (code c - 32)]
  else if (code c =? 223)%N then py "SS"
  else if in_range 224 254 c && negb (code c =? 247)%N
       then [ascii_of_N (code c - 32)]
       else [c].

Definition upper (s : str) : str := flat_map upper_char s.

Definition nonempty (s : str) : bool :=
  match s with [] => false | _ :: _ => true end.

(** [--levels]: [None] when the option is absent or empty. *)
Definition level_set_of_arg (levels : option str) : level_filter :=
  match levels with
  | Some ((_ :: _) as l) =>
      Some (map (fun x => upper (strip x))
              (filter (fun x => nonempty (strip x)) (split_comma l)))
  | _ => None
  end.

(** A line of the report on stderr. *)
Record report : Type := mkReport {
  rep_name : str;
  rep_scanned : nat;
  rep_kept : nat;
  rep_out : path
}.

(** What an invocation leaves: the exit status, the reports per run
    directory, the totals line when it is printed, and the directory. *)
Record outcome : Type := mkOutcome {
  exit_status : nat;
  reports : list report;
  totals : option (nat * nat);
  disk : option entry
}.

(** A run directory is the top directory itself or one of its entries. *)
Fixpoint replace_child (name : str) (e' : entry) (cs : list (str * entry))
  : list (str * entry) :=
  match cs with
  | [] => []
  | (n, e) :: cs' =>
      if str_eqb n name then (n, e') :: cs' else (n, e) :: replace_child name e' cs'
  end.

Definition put_back (run_id_dir : path) (rd_path : path) (rd' : entry)
    (root : entry) : entry :=
  if list_eq_dec (list_eq_dec ascii_dec) rd_path run_id_dir then rd'
  else match root with
       | Dir cs => Dir (replace_child (path_name rd_path) rd' cs)
       | File _ _ => root
       end.

Section Main.

Variable json_loads : str -> option value.
Variable json_dumps : value -> str.
Variable ev : env.

(** The loop over the run directories.  An [OSError] that leaves
    [filter_one_run_dir] ends the program with status 1. *)
Fixpoint process_run_dirs (run_id_dir : path) (out_subdir : str)
    (level_set : level_filter) (run_dirs : list (path * entry))
    (total_scanned total_kept : nat) (reps : list report) (root : entry)
  : outcome :=
  match run_dirs with
  | [] => mkOutcome 0 reps (Some (total_scanned, total_kept)) (Some root)
  | (rd_path, rd) :: rest =>
      let (res, st) :=
        filter_one_run_dir json_loads json_dumps ev rd_path rd out_subdir level_set in
      let root' := put_back run_id_dir rd_path
                     (rd_after ev rd_path rd out_subdir st) root in
      match res with
      | None => mkOutcome 1 reps None (Some root')
      | Some (scanned, kept) =>
          process_run_dirs run_id_dir out_subdir level_set rest
            (total_scanned + scanned) (total_kept + kept)
            (reps ++ [mkReport (path_name rd_path) scanned kept
                        (child_path rd_path out_subdir)])
            root'
      end
  end.

Definition main (h : hints) (levels : option str) (out_subdir : str)
    (run_id_dir : path) (at_path : option entry) : outcome :=
  let level_set := level_set_of_arg levels in
  match at_path with
  | Some (Dir cs) =>
      let run_dirs := find_run_dirs h run_id_dir (Dir cs) in
      process_run_dirs run_id_dir out_subdir level_set run_dirs 0 0 [] (Dir cs)
  | _ => mkOutcome 2 [] None at_path
  end.

End Main.

(* ------------------------------------------------------------------ *)
(** * What a run should write, in the words of the specification *)

(** The names the sinks of a run directory can have. *)
Definition sink_name (name : str) : Prop :=
  name = all_jsonl \/ name = all_log \/
  exists node_id, name = node_jsonl node_id \/ name = node_log node_id.

(** No directory of the output directory has the name of a sink. *)
Definition unobstructed (out_cs : list (str * entry)) : Prop :=
  forall name, sink_name name -> is_dir_in out_cs name = false.

(** A kept record with its provenance: the record, the file and the node. *)
Definition kept_record : Type := dict * path * N.

Definition kr_rec (r : kept_record) : dict := fst (fst r).
Definition kr_file (r : kept_record) : path := snd (fst r).
Definition kr_node (r : kept_record) : N := snd r.

Section Expected.

Variable json_loads : str -> option value.
Variable json_dumps : value -> str.
Variable run_name : str.
Variable level_set : level_filter.

(** The records a line, a file, a list of files contribute: the lines that
    [parse_line] accepts and the level filter lets through, in the order of
    the files and of the lines within a file.  A file that cannot be opened
    contributes nothing. *)
Definition kept_of_line (f : path) (node_id : N) (line : str) : list kept_record :=
  match parse_line json_loads line with
  | Some rec => if level_excluded level_set rec then [] else [(rec, f, node_id)]
  | None => []
  end.

Definition kept_of_file (x : path * N * entry) : list kept_record :=
  match x with
  | (f, node_id, File true lines) => flat_map (kept_of_line f node_id) lines
  | _ => []
  end.

Definition kept_records (files : list (path * N * entry)) : list kept_record :=
  flat_map kept_of_file files.

(** The lines read from the files that can be opened. *)
Definition lines_of_file (x : path * N * entry) : nat :=
  match x with
  | (_, _, File true lines) => length lines
  | _ => 0
  end.

Definition lines_read (files : list (path * N * entry)) : nat :=
  fold_right (fun x n => lines_of_file x + n) 0 files.

Definition jl (r : kept_record) : str :=
  jsonl_line json_dumps (kr_rec r) (kr_file r) run_name (kr_node r).

Definition pl (r : kept_record) : str :=
  pretty_line (enrich (kr_rec r) (kr_file r) run_name (kr_node r)).

Definition of_node (node_id : N) (K : list kept_record) : list kept_record :=
  filter (fun r => N.eqb (kr_node r) node_id) K.

(** What each sink should hold when the records [K] have been kept; [None]
    for a name that is no sink of the run. *)
Definition expected_sink (K : list kept_record) (name : str) : option (list str) :=
  if str_eqb name all_jsonl then Some (map jl K)
  else if str_eqb name all_log then Some (map pl K)
  else
    match find (fun r => str_eqb name (node_jsonl (kr_node r))) K with
    | Some r => Some (map jl (of_node (kr_node r) K))
    | None =>
        match find (fun r => str_eqb name (node_log (kr_node r))) K with
        | Some r => Some (map pl (of_node (kr_node r) K))
        | None => None
        end
    end.

End Expected.

(* ------------------------------------------------------------------ *)
(** * The effect of keeping a record, as a function on states

    What the loop body does to the state when nothing is refused; the
    properties of the loop are proved through it. *)

Definition sink_append (name : str) (chunk : str) (s : sink_store) : sink_store :=
  sink_set name
    (match sink_get name s with Some c => c | None => [] end ++ [chunk]) s.

Definition add_scanned (n : nat) (st : state) : state :=
  mkState (n + scanned st) (kept st) (writers st) (sinks st).

Section Emit.

Variable json_dumps : value -> str.
Variable run_name : str.

Definition emit (st : state) (r : kept_record) : state :=
  let node_id := kr_node r in
  let known := existsb (N.eqb node_id) (writers st) in
  let w := if known then writers st else writers st ++ [node_id] in
  let s := if known then sinks st
           else sink_set (node_log node_id) []
                  (sink_set (node_jsonl node_id) [] (sinks st)) in
  mkState (scanned st) (S (kept st)) w
    (sink_append all_log (pl run_name r)
       (sink_append all_jsonl (jl json_dumps run_name r)
          (sink_append (node_log node_id) (pl run_name r)
             (sink_append (node_jsonl node_id) (jl json_dumps run_name r) s)))).

Definition emit_all (K : list kept_record) (st : state) : state :=
  fold_left emit K st.

End Emit.

(** The state once the combined sinks are open. *)
Definition opened_state : state :=
  mkState 0 0 [] [(all_jsonl, []); (all_log, [])].

(** A computation that leaves the two counters alone. *)
Definition keeps_counters {A} (m : M A) : Prop :=
  forall st, scanned (snd (m st)) = scanned st /\ kept (snd (m st)) = kept st.

(** The run directory is a directory in which nothing stands in the way of
    the output: no file has the name of the output directory, and no
    directory inside it has the name of a sink. *)
Definition nothing_in_the_way (rd : entry) (out_subdir : str) : Prop :=
  (exists cs, rd = Dir cs /\
              forall r l, lookup out_subdir cs <> Some (File r l)) /\
  unobstructed (out_children rd out_subdir).

(** The level filter as a test on records: a filter that is [None] or empty
    lets every record through. *)
Definition passes (level_set : level_filter) (r : kept_record) : bool :=
  negb (level_excluded level_set (kr_rec r)).

(* ------------------------------------------------------------------ *)
(** * An encoder to run examples with

    [json_dumps_basic] spells a value as [json.dumps(v, ensure_ascii=False)]
    does; like the decoder above it only serves to evaluate the program on
    concrete inputs. *)

Definition hex_digit (n : N) : ascii :=
  if (n <? 10)%N then ascii_of_N (48 + n) else ascii_of_N (87 + n).

Definition escape_char (c : ascii) : str :=
  if Ascii.eqb c dquote then ["\"%char; dquote]
  else if Ascii.eqb c "\"%char then py "\\"
  else if (code c =? 10)%N then py "\n"
  else if (code c =? 13)%N then py "\r"
  else if (code c =? 9)%N then py "\t"
  else if (code c =? 8)%N then py "\b"
  else if (code c =? 12)%N then py "\f"
  else if (code c <? 32)%N
       then py "\u00" ++ [hex_digit (code c / 16); hex_digit (code c mod 16)]
       else [c].

Definition quote_str (s : str) : str := dquote :: flat_map escape_char s ++ [dquote].

Definition decimal_Z (z : Z) : str :=
  match z with
  | Z0 => py "0"
  | Zpos p => decimal (Npos p)
  | Zneg p => "-"%char :: decimal (Npos p)
  end.

Fixpoint json_dumps_basic (v : value) : str :=
  match v with
  | VNone => py "null"
  | VBool true => py "true"
  | VBool false => py "false"
  | VInt z => decimal_Z z
  | VFloat repr => repr
  | VStr s => quote_str s
  | VList l =>
      "["%char ::
      (fix items (l : list value) : str :=
         match l with
         | [] => []
         | [x] => json_dumps_basic x
         | x :: l' => json_dumps_basic x ++ py ", " ++ items l'
         end) l ++ ["]"%char]
  | VDict d =>
      lbrace ::
      (fix members (d : list (str * value)) : str :=
         match d with
         | [] => []
         | [(k, x)] => quote_str k ++ py ": " ++ json_dumps_basic x
         | (k, x) :: d' =>
             quote_str k ++ py ": " ++ json_dumps_basic x ++ py ", " ++ members d'
         end) d ++ [rbrace]
  end.

(* ------------------------------------------------------------------ *)
(** * An example tree

    A run directory with the logs of two nodes, one acceptable line each,
    under a top directory. *)

Definition ex_run_dir : entry :=
  Dir [ (py "stdout_0.log", File true [ex_line_newround ++ [newline]]);
        (py "stderr_1.log", File true [ex_line_vote]) ].

Definition ex_root : entry :=
  Dir [ (py "aptos-localnet_pct_0", ex_run_dir) ].

Definition ex_root_path : path := [py "output"; py "20260217_120010"].

Definition ex_run_path : path := child_path ex_root_path (py "aptos-localnet_pct_0").

Definition no_hints : hints := mkHints None None.

(** The names of the node logs, written out:
    [(stdout|stderr)_<digits>.log] in any case, possibly followed by one
    newline (which [$] allows). *)
Definition log_name_shape (name : str) (node_id : N) : Prop :=
  exists stem digits ext nl,
    name = stem ++ "_"%char :: digits ++ "."%char :: ext ++ nl /\
    (map lower stem = py "stdout" \/ map lower stem = py "stderr") /\
    digits <> [] /\ forallb is_digit digits = true /\
    map lower ext = py "log" /\
    node_id = int_of digits /\
    (nl = [] \/ nl = [newline]).

(** The number of chunks a sink holds; a sink that was never opened holds
    none. *)
Definition lines_of (name : str) (st : state) : nat :=
  match sink_get name (sinks st) with
  | Some c => length c
  | None => 0
  end.

(** The four writes of every record all happened or none did: each node
    has as many structured lines as pretty lines, and so have the combined
    sinks. *)
Definition fan_out_all_or_none (st : state) : Prop :=
  (forall node_id, lines_of (node_jsonl node_id) st = lines_of (node_log node_id) st)
  /\ lines_of all_jsonl st = lines_of all_log st.

Definition path_eqb (p q : path) : bool :=
  if list_eq_dec (list_eq_dec ascii_dec) p q then true else false.

(** An environment that refuses every write to the pretty sink of node 0 of
    the example run directory, and nothing else. *)
Definition ex_env_refusing : env :=
  mkEnv (fun _ => true) (fun _ => true)
        (fun p _ => negb (path_eqb p (child_path (child_path ex_run_path (py "filtered"))
                                        (node_log 0)))).

Definition total_scanned (reps : list report) : nat :=
  fold_right (fun r n => rep_scanned r + n) 0 reps.

Definition total_kept (reps : list report) : nat :=
  fold_right (fun r n => rep_kept r + n) 0 reps.

(** The order of the run directories: by name. *)
Definition name_le (a b : path * entry) : Prop :=
  str_leb (path_name (fst a)) (path_name (fst b)) = true.

Definition nonempty_list {A} (l : list A) : bool :=
  match l with [] => false | _ :: _ => true end.

(** A property of the state that a computation keeps, whether it ends
    normally or raises. *)
Definition preserves {A} (P : state -> Prop) (m : M A) : Prop :=
  forall st, P st -> P (snd (m st)).

(** Every sink of the state has the name of a sink. *)
Definition sinks_named (st : state) : Prop :=
  forall n c, In (n, c) (sinks st) -> sink_name n.

(** The directory a run leaves, as a function of the directory it finds. *)
Definition run_dir_after (json_loads : str -> option value)
    (json_dumps : value -> str) (ev : env) (run_dir : path) (out_subdir : str)
    (level_set : level_filter) (rd : entry) : entry :=
  rd_after ev run_dir rd out_subdir
    (snd (filter_one_run_dir json_loads json_dumps ev run_dir rd out_subdir level_set)).

(** The node logs that a directory holds itself, as [iter_log_files] yields
    them. *)
Definition own_logs (q : path) (c : str * entry) : list (path * N * entry) :=
  if is_file (snd c) then
    match node_of_filename (fst c) with
    | Some node_id => [(child_path q (fst c), node_id, snd c)]
    | None => []
    end
  else [].

(** ** Two invocations in a row *)

(** The run directories among the entries of the top directory: the
    hinted ones, or else the run-like ones. *)
Definition sub_run_dirs (h : hints) (run_id_dir : path) (e : entry)
  : list (path * entry) :=
  let candidates := sorted (filter (fun c => is_dir (snd c)) (iterdir run_id_dir e)) in
  let run_like := fun d : path * entry => looks_like_run_dir (fst d) (snd d) in
  let hinted :=
    match expected_run_prefix h with
    | Some pref =>
        filter run_like
          (filter (fun d => startswith pref (path_name (fst d))) candidates)
    | None => []
    end in
  match hinted with
  | _ :: _ => hinted
  | [] => filter run_like candidates
  end.

(** An entry of the top directory before and after an invocation: the
    same name, and either the same entry or a directory with the same
    log files below it. *)
Definition same_kind (c c1 : str * entry) : Prop :=
  fst c1 = fst c /\
  (snd c1 = snd c \/
   (is_dir (snd c) = true /\ is_dir (snd c1) = true /\
    forall q, iter_log_files q (snd c1) = iter_log_files q (snd c))).

Definition same_run (x y : path * entry) : Prop :=
  fst y = fst x /\ is_dir (snd y) = is_dir (snd x) /\
  looks_like_run_dir (fst x) (snd y) = looks_like_run_dir (fst x) (snd x).

(** No directory has two entries of one name; [main] looks only at the
    entries of the top directory by name. *)
Definition distinct_names (at_path : option entry) : Prop :=
  match at_path with
  | Some (Dir cs) => NoDup (map fst cs)
  | _ => True
  end.

(** ** The layout of a record *)

(** The entries that the payload adds to a record: the payload itself, its
    event name when it is a string, and the common fields it has. *)
Definition payload_entries (payload : value) : dict :=
  (if is_none payload then [] else [(py "json", payload)])
  ++ match payload with
     | VDict o =>
         match dict_get (py "event") o with
         | Some (VStr e) => [(py "event", VStr e)]
         | _ => []
         end
         ++ flat_map (fun k => match dict_get k o with
                               | Some v => [(k, v)]
                               | None => []
                               end) COMMON_FIELDS
     | _ => []
     end.

(** The provenance that [write_record] adds. *)
Definition provenance (source_file : path) (run_name : str) (node_id : N) : dict :=
  [ (py "source_file", VStr (path_str source_file));
    (py "run_dir", VStr run_name);
    (py "node", VInt (Z.of_N node_id)) ].

(** ** What [main] reports *)

(** The report of a run directory in which nothing is refused. *)
Definition expected_report (json_loads : str -> option value)
    (level_set : level_filter) (out_subdir : str) (x : path * entry) : report :=
  mkReport (path_name (fst x))
    (lines_read (iter_log_files (fst x) (snd x)))
    (length (kept_records json_loads level_set (iter_log_files (fst x) (snd x))))
    (child_path (fst x) out_subdir).

(** The run directory and the output directory that a report names. *)
Definition report_dirs (r : report) : str * path := (rep_name r, rep_out r).

Definition run_dir_dirs (out_subdir : str) (x : path * entry) : str * path :=
  (path_name (fst x), child_path (fst x) out_subdir).

(** ** Counting the combined sinks *)

(** From one state to a later one: [d] more records counted and in
    [all_nodes.log], and [d + e] more in [all_nodes.jsonl]. *)
Definition progress (d e : nat) (st st' : state) : Prop :=
  kept st' = kept st + d /\
  lines_of all_log st' = lines_of all_log st + d /\
  lines_of all_jsonl st' = lines_of all_jsonl st + d + e.

(** A computation that does nothing to the counter of kept records nor to
    the combined sinks. *)
Definition aside {A} (m : M A) : Prop :=
  forall st, progress 0 0 st (snd (m st)).

(* ------------------------------------------------------------------ *)
(** * The interceptor ports ([aptos_update_seeds.py])

    [base_interceptor] and [num_replicas] are read from the configuration
    when the script starts; Python's integers are unbounded. *)

Definition get_interceptor_port (base_interceptor num_replicas : Z)
    (sender receiver : Z) : Z :=
  let id_ := (sender * num_replicas + receiver)%Z in
  (base_interceptor + id_)%Z.

(** No sink is in the store twice. *)
Definition sinks_distinct (st : state) : Prop := NoDup (map fst (sinks st)).

(* ------------------------------------------------------------------ *)
(** * Patching a node configuration ([aptos_update_seeds.py])

    The configuration is what [yaml.safe_load(f) or {}] gives; the keys of
    its mappings are strings. *)

(** [d.pop(k, None)] *)
Fixpoint dict_pop (k : str) (d : dict) : dict :=
  match d with
  | [] => []
  | (k', v) :: d' =>
      if str_eqb k' k then dict_pop k d' else (k', v) :: dict_pop k d'
  end.

(** [d.setdefault(k, v)]: the mapping afterwards. *)
Definition dict_setdefault (k : str) (v : value) (d : dict) : dict :=
  match dict_get k d with
  | Some _ => d
  | None => dict_set k v d
  end.

(** The configuration with the seeds put in place of the seed addresses.
    [vnet] is the mapping inside [cfg], so what is done to it is done to
    [cfg].  [None]: the script stops, by [fatal] when [validator_network] is
    no mapping, by an exception when the configuration itself is none. *)
Definition patch_seeds (cfg : value) (seeds : dict) : option value :=
  match cfg with
  | VDict c =>
      let c := dict_setdefault (py "validator_network") (VDict []) c in
      match get (py "validator_network") c with
      | VDict vnet =>
          let vnet := dict_pop (py "seed_addrs") vnet in
          let vnet := dict_set (py "seeds") (VDict seeds) vnet in
          Some (VDict (dict_set (py "validator_network") (VDict vnet) c))
      | _ => None
      end
  | _ => None
  end.

(** ** The seeds of a node

    [node_info] maps the index of a node to its account address and its
    network public key, in the order in which the nodes were read. *)

Definition node_info := list (Z * (str * str)).

(** The seed that node [idx] gets for node [j]. *)
Definition seed_entry (base_interceptor num_replicas idx j : Z) (pubkey : str)
  : value :=
  let port := get_interceptor_port base_interceptor num_replicas idx j in
  let addr := py "/ip4/127.0.0.1/tcp/" ++ decimal_Z port ++ py "/noise-ik/0x"
              ++ pubkey ++ py "/handshake/0" in
  VDict [ (py "addresses", VList [VStr addr]);
          (py "keys", VList [VStr (py "0x" ++ pubkey)]);
          (py "role", VStr (py "Validator")) ].

(** The loop that builds [seeds] for node [idx]. *)
Definition build_seeds (base_interceptor num_replicas idx : Z) (info : node_info)
  : dict :=
  fold_left
    (fun seeds x =>
       let '(j, (account_address, network_public_key)) := x in
       if Z.eqb j idx then seeds
       else dict_set account_address
              (seed_entry base_interceptor num_replicas idx j network_public_key)
              seeds)
    info [].

(** The other nodes, as node [idx] sees them. *)
Definition others (idx : Z) (info : node_info) : node_info :=
  filter (fun x => negb (Z.eqb (fst x) idx)) info.

(* ================================================================== *)
(** * Part II: properties *)

Lemma str_eqb_eq (a b : str) : str_eqb a b = true <-> a = b.
Proof.
  unfold str_eqb. destruct (list_eq_dec ascii_dec a b); split; congruence.
Qed.

Lemma str_eqb_refl (a : str) : str_eqb a a = true.
Proof. now apply str_eqb_eq. Qed.

Lemma str_eqb_neq (a b : str) : str_eqb a b = false <-> a <> b.
Proof.
  unfold str_eqb. destruct (list_eq_dec ascii_dec a b); split; congruence.
Qed.

Example line_re_ex :
  re_match LINE_RE
    (py "2026-02-17T11:09:41.177185Z [consensus-4] INFO consensus/src/x.rs:1023 NewRound here")
  = Some [ ("msg", py "NewRound here"); ("line", py "1023");
           ("target", py "consensus/src/x.rs"); ("level", py "INFO");
           ("thr", py "consensus-4"); ("ts", py "2026-02-17T11:09:41.177185Z") ]%string.
Proof. vm_compute. reflexivity. Qed.

Example json_re_ex :
  option_map (group "1") (re_search JSON_RE (py "x {a} y {b} z"))
  = Some (py "{a} y {b}").
Proof. vm_compute. reflexivity. Qed.

Example node_re_ex :
  option_map (group "2") (re_match NODE_FROM_FILENAME_RE (py "STDERR_12.log"))
  = Some (py "12").
Proof. vm_compute. reflexivity. Qed.

(* ------------------------------------------------------------------ *)
(** * The matcher: what the enumerated matches are *)

Section Matcher.

Implicit Types (p : ascii -> bool) (s w rest : str) (c : captures).

Lemma tails_In p s t :
  In t (tails p s) <-> exists w, s = w ++ t /\ forallb p w = true.
Proof.
  revert t. induction s as [|x s IH]; intros t; simpl.
  - split.
    + intros [<-|[]]. now exists [].
    + intros (w & E & _). destruct w; [left; now rewrite E | discriminate].
  - split.
    + intros [<-|H]; [now exists []|].
      destruct (p x) eqn:Px; [|contradiction].
      apply IH in H as (w & -> & Hw). exists (x :: w). simpl. now rewrite Px.
    + intros (w & E & Hw). destruct w as [|y w]; simpl in *.
      * left. now rewrite E.
      * right. injection E as <- ->. apply andb_true_iff in Hw as [Py Hw].
        rewrite Py. apply IH. now exists w.
Qed.

Lemma tails1_In p s t :
  In t (tails1 p s) <->
  exists w, w <> [] /\ s = w ++ t /\ forallb p w = true.
Proof.
  unfold tails1. destruct s as [|x s].
  - split; [intros []|]. intros (w & Hn & E & _). destruct w; [congruence|discriminate].
  - destruct (p x) eqn:Px.
    + rewrite tails_In. split.
      * intros (w & -> & Hw). exists (x :: w). simpl. rewrite Px. split; [discriminate|split; [reflexivity|exact Hw]].
      * intros (w & Hn & E & Hw). destruct w as [|y w]; [congruence|].
        simpl in *. injection E as <- ->. apply andb_true_iff in Hw as [_ Hw]. now exists w.
    + split; [intros []|]. intros (w & Hn & E & Hw). destruct w as [|y w]; [congruence|].
      simpl in *. injection E as <- ->. rewrite Px in Hw. discriminate.
Qed.

Lemma take_rep_Some p n s t :
  take_rep p n s = Some t <->
  exists w, s = w ++ t /\ length w = n /\ forallb p w = true.
Proof.
  revert s. induction n as [|n IH]; intros s; simpl.
  - split.
    + intros [= ->]. now exists [].
    + intros (w & -> & L & _). destruct w; [reflexivity|discriminate].
  - destruct s as [|x s].
    + split; [discriminate|]. intros (w & E & L & _). destruct w; discriminate.
    + destruct (p x) eqn:Px.
      * rewrite IH. split.
        -- intros (w & -> & L & Hw). exists (x :: w). simpl. rewrite Px, L. auto.
        -- intros (w & E & L & Hw). destruct w as [|y w]; [discriminate|].
           simpl in *. injection E as <- ->. apply andb_true_iff in Hw as [_ Hw].
           exists w. auto.
      * split; [discriminate|]. intros (w & E & L & Hw). destruct w as [|y w]; [discriminate|].
        simpl in *. injection E as <- ->. rewrite Px in Hw. discriminate.
Qed.

Lemma consumed_app w rest : consumed (w ++ rest) rest = w.
Proof.
  unfold consumed. rewrite length_app, Nat.add_sub.
  rewrite firstn_app, Nat.sub_diag, firstn_all. simpl. apply app_nil_r.
Qed.

Lemma in_run_Lit a c s c' rest :
  In (c', rest) (run (Lit a) c s) <-> c' = c /\ s = a :: rest.
Proof.
  simpl. destruct s as [|x s]; [split; [intros []|intros [_ [=]]]|].
  destruct (Ascii.eqb x a) eqn:E.
  - apply Ascii.eqb_eq in E as ->. simpl. split.
    + intros [[= <- <-]|[]]. auto.
    + intros [-> [= ->]]. auto.
  - split; [intros []|]. intros [_ [= -> _]]. rewrite Ascii.eqb_refl in E. discriminate.
Qed.

Lemma in_run_LitI a c s c' rest :
  In (c', rest) (run (LitI a) c s) <->
  c' = c /\ exists x, lower x = lower a /\ s = x :: rest.
Proof.
  simpl. destruct s as [|x s]; [split; [intros []|intros [_ (y & _ & [=])]]|].
  destruct (Ascii.eqb (lower x) (lower a)) eqn:E.
  - apply Ascii.eqb_eq in E. simpl. split.
    + intros [[= <- <-]|[]]. eauto.
    + intros [-> (y & _ & [= -> ->])]. auto.
  - split; [intros []|]. intros [_ (y & Hy & [= -> _])].
    rewrite Hy, Ascii.eqb_refl in E. discriminate.
Qed.

Lemma in_run_Cat r1 r2 c s c' rest :
  In (c', rest) (run (Cat r1 r2) c s) <->
  exists c1 s1, In (c1, s1) (run r1 c s) /\ In (c', rest) (run r2 c1 s1).
Proof.
  simpl. rewrite in_flat_map. split.
  - intros ([c1 s1] & H1 & H2). eauto.
  - intros (c1 & s1 & H1 & H2). exists (c1, s1). auto.
Qed.

Lemma in_run_Alt r1 r2 c s m :
  In m (run (Alt r1 r2) c s) <-> In m (run r1 c s) \/ In m (run r2 c s).
Proof. simpl. apply in_app_iff. Qed.

Lemma in_run_Rep n p c s c' rest :
  In (c', rest) (run (Rep n p) c s) <->
  c' = c /\ exists w, s = w ++ rest /\ length w = n /\ forallb p w = true.
Proof.
  simpl. destruct (take_rep p n s) as [t|] eqn:E.
  - simpl. split.
    + intros [[= <- <-]|[]]. split; [reflexivity|]. now apply take_rep_Some.
    + intros [-> H]. apply take_rep_Some in H. left. congruence.
  - split; [intros []|]. intros [_ H]. apply take_rep_Some in H. congruence.
Qed.

Lemma in_map_pair c (l : list str) c' rest :
  In (c', rest) (map (pair c) l) <-> c' = c /\ In rest l.
Proof.
  rewrite in_map_iff. split.
  - intros (t & [= <- <-] & H). auto.
  - intros [-> H]. eauto.
Qed.

Lemma in_run_Plus p c s c' rest :
  In (c', rest) (run (Plus p) c s) <->
  c' = c /\ exists w, w <> [] /\ s = w ++ rest /\ forallb p w = true.
Proof. simpl. now rewrite in_map_pair, <- in_rev, tails1_In. Qed.

Lemma in_run_PlusLazy p c s c' rest :
  In (c', rest) (run (PlusLazy p) c s) <->
  c' = c /\ exists w, w <> [] /\ s = w ++ rest /\ forallb p w = true.
Proof. simpl. now rewrite in_map_pair, tails1_In. Qed.

Lemma in_run_Star p c s c' rest :
  In (c', rest) (run (Star p) c s) <->
  c' = c /\ exists w, s = w ++ rest /\ forallb p w = true.
Proof. simpl. now rewrite in_map_pair, <- in_rev, tails_In. Qed.

Lemma in_run_Eos c s c' rest :
  In (c', rest) (run Eos c s) <-> c' = c /\ rest = s /\ at_end s = true.
Proof.
  simpl. destruct (at_end s); simpl.
  - split; [intros [[= <- <-]|[]]; auto | intros (-> & -> & _); auto].
  - split; [intros []|intros (_ & _ & [=])].
Qed.

Lemma in_run_Eps c s c' rest :
  In (c', rest) (run Eps c s) <-> c' = c /\ rest = s.
Proof. simpl. split; [intros [[= <- <-]|[]]; auto | intros (-> & ->); auto]. Qed.

(** Every match leaves a suffix of the text. *)
Lemma run_suffix r : forall c s c' rest,
  In (c', rest) (run r c s) -> exists w, s = w ++ rest.
Proof.
  induction r; intros c0 s c' rest H.
  - apply in_run_Lit in H as [_ ->]. now exists [c].
  - apply in_run_LitI in H as [_ (x & _ & ->)]. now exists [x].
  - simpl in H. destruct s as [|x s]; [destruct H|].
    destruct (p x); [|destruct H]. destruct H as [[= <- <-]|[]]. now exists [x].
  - apply in_run_Cat in H as (c1 & s1 & H1 & H2).
    apply IHr1 in H1 as (w1 & ->). apply IHr2 in H2 as (w2 & ->).
    exists (w1 ++ w2). now rewrite app_assoc.
  - apply in_run_Alt in H as [H|H]; eauto.
  - apply in_run_Rep in H as [_ (w & -> & _)]. eauto.
  - apply in_run_Plus in H as [_ (w & _ & -> & _)]. eauto.
  - apply in_run_Star in H as [_ (w & -> & _)]. eauto.
  - apply in_run_PlusLazy in H as [_ (w & _ & -> & _)]. eauto.
  - simpl in H. apply in_map_iff in H as ([c1 s1] & [= <- <-] & H). simpl. eauto.
  - apply in_run_Eos in H as (_ & -> & _). now exists [].
  - apply in_run_Eps in H as (_ & ->). now exists [].
  - destruct H.
Qed.

Lemma in_run_Grp name r c s c' rest :
  In (c', rest) (run (Grp name r) c s) <->
  exists c1 w, In (c1, rest) (run r c s) /\ s = w ++ rest /\ c' = (name, w) :: c1.
Proof.
  simpl. rewrite in_map_iff. split.
  - intros ([c1 s1] & [= <- <-] & H). simpl.
    destruct (run_suffix _ _ _ _ _ H) as (w & ->).
    exists c1, w. now rewrite consumed_app.
  - intros (c1 & w & H & -> & ->). exists (c1, rest). simpl.
    now rewrite consumed_app.
Qed.

(** [re_match] reports the first of the enumerated matches. *)
Lemma re_match_Some r s d :
  re_match r s = Some d -> exists rest, In (d, rest) (run r [] s).
Proof.
  unfold re_match. destruct (run r [] s) as [|[c rest] l]; [discriminate|].
  intros [= <-]. exists rest. now left.
Qed.

Lemma re_match_None r s :
  re_match r s = None <-> run r [] s = [].
Proof.
  unfold re_match. destruct (run r [] s); split; congruence.
Qed.

Lemma re_search_None r s :
  re_search r s = None <->
  forall pre t, s = pre ++ t -> run r [] t = [].
Proof.
  induction s as [|x s IH]; simpl.
  - destruct (run r [] []) eqn:E.
    + split; [|reflexivity]. intros _ pre t Ht.
      symmetry in Ht. apply app_eq_nil in Ht as [_ ->]. exact E.
    + split; [discriminate|]. intros H. specialize (H [] [] eq_refl). congruence.
  - destruct (run r [] (x :: s)) eqn:E.
    + rewrite IH. split.
      * intros H [|y pre] t Ht; simpl in Ht.
        -- now subst t.
        -- injection Ht as _ Ht. eauto.
      * intros H pre t Ht. apply (H (x :: pre)). simpl. now rewrite Ht.
    + split; [discriminate|]. intros H. specialize (H [] _ eq_refl). congruence.
Qed.

End Matcher.

Lemma dict_get_set_same k v d : dict_get k (dict_set k v d) = Some v.
Proof.
  induction d as [|[k' v'] d IH]; simpl.
  - now rewrite str_eqb_refl.
  - destruct (str_eqb k' k) eqn:E; simpl.
    + now rewrite str_eqb_refl.
    + now rewrite E.
Qed.

Lemma dict_get_set_other k k' v d :
  k' <> k -> dict_get k' (dict_set k v d) = dict_get k' d.
Proof.
  intros N. induction d as [|[k0 v0] d IH]; simpl.
  - apply str_eqb_neq in N. destruct (str_eqb k k') eqn:E; [|reflexivity].
    apply str_eqb_eq in E. apply str_eqb_neq in N. congruence.
  - destruct (str_eqb k0 k) eqn:E; simpl.
    + apply str_eqb_eq in E. subst k0.
      assert (str_eqb k k' = false) as -> by (apply str_eqb_neq; congruence).
      reflexivity.
    + destruct (str_eqb k0 k'); [reflexivity|exact IH].
Qed.

(* ------------------------------------------------------------------ *)
(** * [LINE_RE] and the line grammar *)

Ltac reassoc := repeat (rewrite <- app_assoc || (progress (cbn [app]))).

Ltac inv_run H :=
  match type of H with
  | In _ (run (Cat _ _) _ _) =>
      let H1 := fresh "H" in let H2 := fresh "H" in
      apply in_run_Cat in H as (? & ? & H1 & H2); inv_run H1; inv_run H2
  | In _ (run (Grp _ _) _ _) =>
      let H1 := fresh "H" in
      apply in_run_Grp in H as (? & ? & H1 & ? & ?); inv_run H1
  | In _ (run (Lit _) _ _) => apply in_run_Lit in H as (? & ?)
  | In _ (run (Rep _ _) _ _) => apply in_run_Rep in H as (? & ? & ? & ? & ?)
  | In _ (run (Plus _) _ _) => apply in_run_Plus in H as (? & ? & ? & ? & ?)
  | In _ (run (PlusLazy _) _ _) => apply in_run_PlusLazy in H as (? & ? & ? & ? & ?)
  | In _ (run (Star _) _ _) => apply in_run_Star in H as (? & ? & ? & ?)
  | In _ (run Eos _ _) => apply in_run_Eos in H as (? & ? & ?)
  | In _ (run Eps _ _) => apply in_run_Eps in H as (? & ?)
  | _ => idtac
  end.

Ltac build_run :=
  match goal with
  | |- In _ (run (Cat _ _) _ _) =>
      apply in_run_Cat; eexists _, _; split; [build_run|build_run]
  | |- In _ (run (Grp _ _) _ _) =>
      apply in_run_Grp; eexists _, _; split; [build_run|split; reflexivity]
  | |- In _ (run (Lit _) _ _) => apply in_run_Lit; split; reflexivity
  | |- In _ (run (Rep _ _) _ _) =>
      apply in_run_Rep; split;
      [reflexivity|eexists; split; [reflexivity|split; eassumption]]
  | |- In _ (run (Plus _) _ _) =>
      apply in_run_Plus; split;
      [reflexivity|eexists; split; [|split; [reflexivity|]]; eassumption]
  | |- In _ (run (PlusLazy _) _ _) =>
      apply in_run_PlusLazy; split;
      [reflexivity|eexists; split; [|split; [reflexivity|]]; eassumption]
  | |- In _ (run (Star _) _ _) =>
      apply in_run_Star; split;
      [reflexivity|eexists; split; [reflexivity|eassumption]]
  | |- In _ (run Eos _ _) => apply in_run_Eos; repeat split; assumption
  | |- In _ (run Eps _ _) => apply in_run_Eps; split; reflexivity
  end.

(** Every match of [LINE_RE] decomposes the text along the grammar, and the
    captures are the pieces. *)
Lemma line_re_sound l d rest :
  In (d, rest) (run LINE_RE [] l) ->
  exists ts thr level target ln msg,
    d = line_captures ts thr level target ln msg /\
    at_end rest = true /\
    exists body, l = body ++ rest /\ line_grammar body ts thr level target ln msg.
Proof.
  unfold LINE_RE, line_captures. cbn [cat]. intros H. inv_run H. subst.
  repeat match goal with
  | H : ?a ++ ?r = ?b ++ ?r |- _ => apply app_inv_tail in H; subst
  end.
  match goal with
  | H : ?y ++ _ :: ?m ++ _ :: ?d ++ _ :: ?t ++ _ :: ?T = ?ts ++ ?T |- _ =>
      assert (E : (y ++ "-"%char :: m ++ "-"%char :: d ++ "T"%char :: t ++ ["Z"%char]) ++ T
                  = ts ++ T) by (rewrite <- H; reassoc; reflexivity);
      apply app_inv_tail in E; clear H; subst ts
  end.
  do 6 eexists. split; [reflexivity|]. split; [assumption|].
  match goal with
  | |- exists body,
        ?y ++ _ :: ?m ++ _ :: ?d ++ _ :: ?t ++ _ :: ?ws1 ++ _ :: ?thr ++ _
           :: ?ws2 ++ ?level ++ ?ws3 ++ ?target ++ _ :: ?ln ++ ?ws4 ++ ?msg ++ ?rest
        = _ /\ _ =>
      exists ((y ++ "-"%char :: m ++ "-"%char :: d ++ "T"%char :: t ++ ["Z"%char])
              ++ ws1 ++ "["%char :: thr ++ "]"%char :: ws2 ++ level ++ ws3
              ++ target ++ ":"%char :: ln ++ ws4 ++ msg);
      split; [reassoc; reflexivity|];
      exists ws1, ws2, ws3, ws4; split; [reflexivity|];
      split; [exists y, m, d, t; repeat split; assumption|];
      repeat split; assumption
  end.
Qed.

(** Conversely every decomposition along the grammar is a match. *)
Lemma line_re_complete body rest ts thr level target ln msg :
  line_grammar body ts thr level target ln msg ->
  at_end rest = true ->
  In (line_captures ts thr level target ln msg, rest)
     (run LINE_RE [] (body ++ rest)).
Proof.
  intros (ws1 & ws2 & ws3 & ws4 & -> & (y & m & d & t & -> & Hts) & Hg) Hend.
  destruct Hts as (? & ? & ? & ? & ? & ? & ? & ?).
  destruct Hg as ([? ?] & ? & ? & [? ?] & ? & ? & [? ?] & ? & ? & ? & ? & [? ?] & ?).
  unfold LINE_RE, line_captures. cbn [cat].
  apply in_run_Cat.
  exists [("ts"%string, y ++ "-"%char :: m ++ "-"%char :: d ++ "T"%char :: t ++ ["Z"%char])].
  eexists. split.
  - apply in_run_Grp.
    exists [], (y ++ "-"%char :: m ++ "-"%char :: d ++ "T"%char :: t ++ ["Z"%char]).
    split; [|split; [|reflexivity]].
    2:{ reassoc. reflexivity. }
    reassoc. build_run.
  - build_run.
Qed.

(* ------------------------------------------------------------------ *)
(** * [rstrip], the keyword pattern and the payload pattern *)

Lemma drop_while_split p s :
  exists w, s = w ++ drop_while p s /\ forallb p w = true.
Proof.
  induction s as [|x s (w & E & Hw)]; simpl.
  - now exists [].
  - destruct (p x) eqn:Px.
    + exists (x :: w). simpl. rewrite Px. split; [congruence|exact Hw].
    + now exists [].
Qed.

Lemma drop_while_head p s x t : drop_while p s = x :: t -> p x = false.
Proof.
  induction s as [|y s IH]; simpl; [discriminate|].
  destruct (p y) eqn:Py; [exact IH|]. now intros [= <- _].
Qed.

(** [rstrip] removes newlines only, and only at the end. *)
Lemma rstrip_nl_split s :
  exists nls, s = rstrip_nl s ++ nls /\ forallb is_newline nls = true.
Proof.
  unfold rstrip_nl. destruct (drop_while_split is_newline (rev s)) as (w & E & Hw).
  exists (rev w). split.
  - rewrite <- rev_app_distr, <- E. now rewrite rev_involutive.
  - rewrite forallb_forall in *. intros x Hx. apply Hw. now apply in_rev.
Qed.

(** What is left does not end in a newline. *)
Lemma rstrip_nl_last s w c : rstrip_nl s = w ++ [c] -> c <> newline.
Proof.
  unfold rstrip_nl. intros E.
  assert (E' : drop_while is_newline (rev s) = c :: rev w).
  { rewrite <- (rev_involutive (drop_while _ _)), E, rev_app_distr. reflexivity. }
  apply drop_while_head in E'. unfold is_newline in E'.
  intros ->. now rewrite Ascii.eqb_refl in E'.
Qed.

Lemma at_end_rstrip s body rest :
  rstrip_nl s = body ++ rest -> at_end rest = true -> rest = [].
Proof.
  intros E H. destruct rest as [|c [|c' rest]]; [reflexivity| |discriminate].
  simpl in H. apply Ascii.eqb_eq in H. subst c.
  now apply rstrip_nl_last in E.
Qed.

(** A line is parsed structurally exactly when, stripped of its final
    newlines, it follows the grammar; the captures are then its pieces. *)
Lemma line_re_match_Some s d :
  re_match LINE_RE (rstrip_nl s) = Some d ->
  exists ts thr level target ln msg,
    d = line_captures ts thr level target ln msg /\
    line_grammar (rstrip_nl s) ts thr level target ln msg.
Proof.
  intros H. apply re_match_Some in H as (rest & H).
  apply line_re_sound in H as (ts & thr & level & target & ln & msg & -> & He & body & E & G).
  pose proof (at_end_rstrip _ _ _ E He) as ->. rewrite app_nil_r in E.
  exists ts, thr, level, target, ln, msg. split; [reflexivity|]. now rewrite E.
Qed.

Lemma line_re_match_None s :
  re_match LINE_RE (rstrip_nl s) = None <->
  ~ exists ts thr level target ln msg,
      line_grammar (rstrip_nl s) ts thr level target ln msg.
Proof.
  split.
  - intros H (ts & thr & level & target & ln & msg & G).
    apply re_match_None in H.
    pose proof (@line_re_complete _ [] _ _ _ _ _ _ G eq_refl) as I.
    rewrite app_nil_r, H in I. destruct I.
  - intros H. destruct (re_match LINE_RE (rstrip_nl s)) as [d|] eqn:E; [|reflexivity].
    exfalso. apply H. apply line_re_match_Some in E as (ts & thr & level & target & ln & msg & _ & G).
    now exists ts, thr, level, target, ln, msg.
Qed.

(** ** Keywords *)

Lemma in_run_lit k c s c' rest :
  In (c', rest) (run (lit k) c s) <-> c' = c /\ s = k ++ rest.
Proof.
  revert s. induction k as [|a k IH]; intros s; cbn [lit].
  - rewrite in_run_Eps. simpl. intuition congruence.
  - rewrite in_run_Cat. split.
    + intros (c1 & s1 & H1 & H2). apply in_run_Lit in H1 as [-> ->].
      apply IH in H2 as [-> ->]. auto.
    + intros [-> ->]. exists c, (k ++ rest). split.
      * now apply in_run_Lit.
      * now apply IH.
Qed.

Lemma in_run_alternation rs c s m :
  In m (run (alternation rs) c s) <-> exists r, In r rs /\ In m (run r c s).
Proof.
  induction rs as [|r rs IH]; cbn [alternation].
  - simpl. split; [intros []|intros (r & [] & _)].
  - rewrite in_run_Alt, IH. simpl. split.
    + intros [H|(r' & H1 & H2)]; eauto.
    + intros (r' & [->|H1] & H2); eauto.
Qed.

Lemma re_search_Some_iff r s :
  (exists d, re_search r s = Some d) <->
  exists pre t m, s = pre ++ t /\ In m (run r [] t).
Proof.
  split.
  - intros (d & H).
    destruct (re_search r s) eqn:E; [|discriminate].
    assert (N : re_search r s <> None) by congruence.
    rewrite re_search_None in N.
    assert (X : ~ ~ exists pre t m, s = pre ++ t /\ In m (run r [] t)).
    { intros C. apply N. intros pre t Ht. destruct (run r [] t) as [|m l] eqn:R; [reflexivity|].
      exfalso. apply C. exists pre, t, m. split; [assumption|]. rewrite R. now left. }
    clear - X. revert X. generalize r. clear r. intros r X.
    (* decidable: search the positions *)
    induction s as [|x s IH].
    + destruct (run r [] []) as [|m l] eqn:R.
      * exfalso. apply X. intros (pre & t & m & Ht & Hm).
        symmetry in Ht. apply app_eq_nil in Ht as [_ ->]. rewrite R in Hm. destruct Hm.
      * exists [], [], m. split; [reflexivity|]. rewrite R. now left.
    + destruct (run r [] (x :: s)) as [|m l] eqn:R.
      * destruct IH as (pre & t & m & Ht & Hm).
        -- intros C. apply X. intros (pre & t & m & Ht & Hm).
           destruct pre as [|y pre]; simpl in Ht.
           ++ subst t. rewrite R in Hm. destruct Hm.
           ++ injection Ht as _ Ht. apply C. eauto.
        -- exists (x :: pre), t, m. split; [simpl; congruence|assumption].
      * exists [], (x :: s), m. split; [reflexivity|]. rewrite R. now left.
  - intros (pre & t & m & Ht & Hm).
    destruct (re_search r s) as [d|] eqn:E; [eauto|].
    rewrite re_search_None in E. rewrite (E _ _ Ht) in Hm. destruct Hm.
Qed.


(** [KW_RE.search] succeeds exactly on the strings that contain a keyword. *)
Lemma kw_search_true s :
  kw_search s = true <-> exists k, In k EVENT_KEYWORDS /\ contains k s.
Proof.
  unfold kw_search, KW_RE. split.
  - intros H. destruct (re_search _ s) as [d|] eqn:E; [|discriminate].
    assert (X : exists d, re_search (alternation (map lit EVENT_KEYWORDS)) s = Some d) by eauto.
    apply re_search_Some_iff in X as (pre & t & [c rest] & -> & Hm).
    apply in_run_alternation in Hm as (r & Hr & Hm).
    apply in_map_iff in Hr as (k & <- & Hk).
    apply in_run_lit in Hm as [_ ->]. exists k. split; [assumption|]. now exists pre, rest.
  - intros (k & Hk & pre & post & ->).
    assert (X : exists d, re_search (alternation (map lit EVENT_KEYWORDS)) (pre ++ k ++ post) = Some d).
    { apply re_search_Some_iff. exists pre, (k ++ post), ([], post). split; [reflexivity|].
      apply in_run_alternation. exists (lit k). split; [now apply in_map|].
      now apply in_run_lit. }
    destruct X as (d & ->). reflexivity.
Qed.

Lemma kw_search_false s :
  kw_search s = false <-> forall k, In k EVENT_KEYWORDS -> ~ contains k s.
Proof.
  split.
  - intros H k Hk C. assert (kw_search s = true) by (apply kw_search_true; eauto). congruence.
  - intros H. destruct (kw_search s) eqn:E; [|reflexivity].
    apply kw_search_true in E as (k & Hk & C). now apply H in C.
Qed.

(** ** The payload pattern: from the first opening brace to the last closing
    brace *)

Lemma flat_map_nil {A B} (f : A -> list B) l :
  (forall x, In x l -> f x = []) -> flat_map f l = [].
Proof.
  induction l as [|x l IH]; simpl; intros H; [reflexivity|].
  rewrite (H x (or_introl eq_refl)), IH; auto.
Qed.

Lemma tails_app p w u :
  forallb p w = true -> exists L, tails p (w ++ u) = L ++ tails p u.
Proof.
  induction w as [|x w IH]; simpl; intros H.
  - now exists [].
  - apply andb_true_iff in H as [Px Hw]. rewrite Px.
    destruct (IH Hw) as (L & E). exists ((x :: w ++ u) :: L). simpl.
    destruct (w ++ u) eqn:Ewu; simpl in *; now rewrite E.
Qed.

Lemma tails_cons p x s : tails p (x :: s) = (x :: s) :: if p x then tails p s else [].
Proof. reflexivity. Qed.

(** The greedy star followed by a literal stops at the last occurrence of
    the literal. *)
Lemma star_lit_last a c mid post :
  forallb dot mid = true -> dot a = true -> ~ In a post ->
  exists l, run (Cat (Star dot) (Cat (Lit a) Eps)) c (mid ++ a :: post)
            = (c, post) :: l.
Proof.
  intros Hmid Ha Hpost.
  destruct (tails_app dot mid (a :: post) Hmid) as (L & E).
  cbn [run]. rewrite E, tails_cons, Ha.
  rewrite rev_app_distr. cbn [rev]. rewrite !map_app, !flat_map_app.
  rewrite (@flat_map_nil _ _ _ (map (pair c) (rev (tails dot post)))).
  - cbn [app map flat_map fst snd]. rewrite Ascii.eqb_refl. cbn. eauto.
  - intros [c1 t] H. apply in_map_pair in H as [-> H]. apply in_rev in H.
    apply tails_In in H as (w & -> & _). cbn [fst snd].
    destruct t as [|y t]; [reflexivity|].
    destruct (Ascii.eqb y a) eqn:Ey; [|reflexivity].
    apply Ascii.eqb_eq in Ey. subst y. exfalso. apply Hpost.
    apply in_or_app. right. now left.
Qed.

Lemma run_Cat_Lit_head a r c s :
  run (Cat (Lit a) r) c (a :: s) = run r c s.
Proof. cbn [run]. rewrite Ascii.eqb_refl. cbn [flat_map fst snd]. apply app_nil_r. Qed.

Lemma json_re_at_brace mid post :
  forallb dot mid = true -> ~ In rbrace post ->
  exists l, run JSON_RE [] (lbrace :: mid ++ rbrace :: post)
            = ([("1"%string, lbrace :: mid ++ [rbrace])], post) :: l.
Proof.
  intros Hmid Hpost.
  destruct (@star_lit_last rbrace [] mid post Hmid eq_refl Hpost) as (l & E).
  unfold JSON_RE. cbn [cat]. unfold lbrace at 1.
  change (run (Grp "1" ?r) [] ?s)
    with (map (fun m => (("1"%string, consumed s (snd m)) :: fst m, snd m)) (run r [] s)).
  rewrite run_Cat_Lit_head. unfold rbrace in E at 1. rewrite E. cbn [map fst snd].
  replace (consumed ("{"%char :: mid ++ rbrace :: post) post) with (lbrace :: mid ++ [rbrace]).
  - eauto.
  - symmetry. replace ("{"%char :: mid ++ rbrace :: post) with ((lbrace :: mid ++ [rbrace]) ++ post).
    + apply consumed_app.
    + cbn [app]. rewrite <- app_assoc. reflexivity.
Qed.

Lemma json_re_not_brace x t : x <> lbrace -> run JSON_RE [] (x :: t) = [].
Proof.
  intros N. unfold JSON_RE. cbn [cat run].
  destruct (Ascii.eqb x "{"%char) eqn:E; [|reflexivity].
  apply Ascii.eqb_eq in E. contradiction.
Qed.

Lemma json_re_skip pre t :
  ~ In lbrace pre -> re_search JSON_RE (pre ++ t) = re_search JSON_RE t.
Proof.
  induction pre as [|x pre IH]; intros N; [reflexivity|].
  cbn [app re_search]. rewrite json_re_not_brace.
  - apply IH. intros H. apply N. now right.
  - intros ->. apply N. now left.
Qed.

(** [JSON_RE.search] on a message without newline: the block from the first
    opening brace to the last closing brace. *)
Lemma json_re_search_Some pre mid post :
  forallb dot mid = true ->
  ~ In lbrace pre -> ~ In rbrace post ->
  re_search JSON_RE (pre ++ lbrace :: mid ++ rbrace :: post)
  = Some [("1"%string, lbrace :: mid ++ [rbrace])].
Proof.
  intros Hmid Hpre Hpost. rewrite json_re_skip by assumption.
  destruct (json_re_at_brace mid post Hmid Hpost) as (l & E).
  cbn [re_search]. now rewrite E.
Qed.

(** No opening brace with a closing brace after it: no block. *)
Lemma json_re_search_None msg :
  (forall a b c, msg <> a ++ lbrace :: b ++ rbrace :: c) ->
  re_search JSON_RE msg = None.
Proof.
  intros H. apply re_search_None. intros pre t ->.
  destruct (run JSON_RE [] t) as [|[d rest] l] eqn:E; [reflexivity|].
  exfalso. assert (I : In (d, rest) (run JSON_RE [] t)) by (rewrite E; now left).
  unfold JSON_RE in I. cbn [cat] in I. inv_run I. subst.
  eapply H. reflexivity.
Qed.

(* ------------------------------------------------------------------ *)
(** * The record of a kept line *)

Section Record.

Lemma copy_other o ks : forall out k,
  ~ In k ks -> dict_get k (fold_left (copy_field o) ks out) = dict_get k out.
Proof.
  induction ks as [|k0 ks IH]; intros out k N; [reflexivity|].
  cbn [fold_left]. rewrite IH by (intros H; apply N; now right).
  unfold copy_field. destruct (dict_get k0 o); [|reflexivity].
  apply dict_get_set_other. intros ->. apply N. now left.
Qed.

Lemma copy_keeps o ks : forall out k v,
  dict_get k o = Some v -> dict_get k out = Some v ->
  dict_get k (fold_left (copy_field o) ks out) = Some v.
Proof.
  induction ks as [|k0 ks IH]; intros out k v Ho Hout; [exact Hout|].
  cbn [fold_left]. apply IH; [exact Ho|].
  unfold copy_field. destruct (dict_get k0 o) as [v0|] eqn:E0; [|exact Hout].
  destruct (list_eq_dec ascii_dec k k0) as [->|N].
  - rewrite dict_get_set_same. congruence.
  - now rewrite dict_get_set_other.
Qed.

Lemma copy_sets o ks : forall out k v,
  In k ks -> dict_get k o = Some v ->
  dict_get k (fold_left (copy_field o) ks out) = Some v.
Proof.
  induction ks as [|k0 ks IH]; intros out k v Hin Ho; [destruct Hin|].
  cbn [fold_left]. destruct (list_eq_dec ascii_dec k k0) as [->|N].
  - apply copy_keeps; [exact Ho|]. unfold copy_field. rewrite Ho.
    apply dict_get_set_same.
  - destruct Hin as [->|Hin]; [congruence|]. now apply IH.
Qed.

(** The fields of the log prefix are in every record. *)
Lemma build_record_prefix d payload k v :
  In (k, v) (base_record d) ->
  dict_get k (build_record d payload) = Some v.
Proof.
  intros Hin.
  assert (Hk : ~ In k COMMON_FIELDS /\ k <> py "json" /\ k <> py "event").
  { unfold base_record in Hin. simpl in Hin.
    repeat (destruct Hin as [[= <- <-]|Hin];
            [vm_compute; repeat split; intros H;
             repeat (destruct H as [H|H]; [discriminate H|]); try discriminate; auto|]).
    destruct Hin. }
  destruct Hk as (Hc & Hj & He).
  assert (H0 : dict_get k (base_record d) = Some v).
  { unfold base_record in *. simpl in Hin.
    repeat (destruct Hin as [[= <- <-]|Hin]; [reflexivity|]). destruct Hin. }
  unfold build_record. cbv zeta.
  assert (H1 : dict_get k (attach_json payload (base_record d)) = Some v).
  { unfold attach_json. destruct (is_none payload); [exact H0|].
    rewrite dict_get_set_other; auto. }
  assert (H2 : forall ev, dict_get k (attach_event ev (attach_json payload (base_record d))) = Some v).
  { intros ev. unfold attach_event. destruct ev; try exact H1.
    rewrite dict_get_set_other; auto. }
  unfold attach_common. destruct payload; try apply H2.
  rewrite copy_other; auto.
Qed.

(** A string-valued event of the payload is the event of the record. *)
Lemma build_record_event d o e :
  dict_get (py "event") o = Some (VStr e) ->
  dict_get (py "event") (build_record d (VDict o)) = Some (VStr e).
Proof.
  intros H. unfold build_record. cbv zeta.
  unfold event_of, dict_in, get. rewrite H. cbn [late_event is_none attach_event attach_common].
  rewrite copy_other.
  - apply dict_get_set_same.
  - vm_compute. intros X. repeat (destruct X as [X|X]; [discriminate X|]). exact X.
Qed.

(** A common field of the payload is a field of the record. *)
Lemma build_record_common d o k v :
  In k COMMON_FIELDS -> dict_get k o = Some v ->
  dict_get k (build_record d (VDict o)) = Some v.
Proof.
  intros Hk H. unfold build_record. cbv zeta. cbn [attach_common].
  now apply copy_sets.
Qed.

End Record.

(* ------------------------------------------------------------------ *)
(** * Claims about the line parser *)

Lemma event_keeps_true payload :
  event_keeps (event_of payload) = true <->
  exists o e, payload = VDict o /\ dict_get (py "event") o = Some (VStr e) /\
              kw_search e = true.
Proof.
  unfold event_of, event_keeps, dict_in, get. split.
  - destruct payload; try discriminate.
    destruct (dict_get (py "event") d) as [[| | | |e| |]|] eqn:E; try discriminate.
    intros H. eauto.
  - intros (o & e & -> & E & H). now rewrite E.
Qed.

Lemma keep_line_true payload msg :
  keep_line payload msg = true <->
  event_keeps (event_of payload) = true \/ kw_search msg = true.
Proof.
  unfold keep_line. destruct (event_keeps (event_of payload)), (kw_search msg);
    simpl; intuition congruence.
Qed.

Lemma parse_line_Some_iff json_loads line d :
  re_match LINE_RE (rstrip_nl line) = Some d ->
  (exists r, parse_line json_loads line = Some r) <->
  keep_line (payload_of json_loads (group "msg" d)) (group "msg" d) = true.
Proof.
  intros H. unfold parse_line. rewrite H. cbv zeta.
  destruct (keep_line _ _); split; eauto; try discriminate.
  intros (r & [=]).
Qed.



Lemma parse_line_Some_captures json_loads line r :
  parse_line json_loads line = Some r ->
  exists d, re_match LINE_RE (rstrip_nl line) = Some d /\
            r = build_record d (payload_of json_loads (group "msg" d)).
Proof.
  unfold parse_line. destruct (re_match LINE_RE (rstrip_nl line)) as [d|]; [|discriminate].
  cbv zeta. destruct (keep_line _ _); [|discriminate]. intros [= <-]. eauto.
Qed.

Lemma strict_iso_ts_hour ts :
  strict_iso_ts ts -> exists c, nth_error ts 12 = Some c /\ is_digit c = true.
Proof.
  intros (y & m & d & hh & mm & ss & f & -> & Ly & _ & Lm & _ & Ld & _ & Lh & Hh & _).
  do 5 (destruct y as [|? y]; try discriminate Ly).
  do 3 (destruct m as [|? m]; try discriminate Lm).
  do 3 (destruct d as [|? d]; try discriminate Ld).
  destruct hh as [|h1 [|h2 [|? ?]]]; try discriminate Lh.
  exists h2. split; [reflexivity|].
  cbn [forallb] in Hh. apply andb_true_iff in Hh as [_ Hh].
  now apply andb_true_iff in Hh as [Hh _].
Qed.

(** C3, as stated, fails: [parse_line] returns a record for a line whose
    timestamp is not of the shape [YYYY-MM-DDTHH:MM:SS.ffffffZ]. *)
Lemma C3_strict_timestamp_counterexample :
  ~ (forall json_loads line r,
       parse_line json_loads line = Some r ->
       exists ts thr level target ln msg,
         line_grammar_with strict_iso_ts (rstrip_nl line)
           ts thr level target ln msg).
Proof.
  intros H.
  destruct (parse_line (fun _ => None) ex_line_loose_ts) as [r|] eqn:E;
    [|vm_compute in E; discriminate].
  destruct (H _ _ _ E) as (ts & thr & level & target & ln & msg & ws1 & ws2 & ws3 & ws4 & L & T & _).
  apply strict_iso_ts_hour in T as (c & N & D).
  assert (N' : nth_error (rstrip_nl ex_line_loose_ts) 12 = Some c).
  { rewrite L. rewrite nth_error_app1; [exact N|].
    apply nth_error_Some. congruence. }
  vm_compute in N'. injection N' as <-. vm_compute in D. discriminate.
Qed.

(** C3 (amended). [parse_line] returns a record only for a line that,
    without its final newlines, follows the grammar
    [<timestamp> [<thread>] <LEVEL> <target>:<line> <message>] of [LINE_RE],
    whose timestamp is four digits, [-], two digits, [-], two digits, [T],
    one or more of the characters [0-9:.], and [Z]; the record carries the
    pieces.  Every other line yields [None]; the function is total. *)
Theorem C3_record_only_for_grammar json_loads line :
  (forall r, parse_line json_loads line = Some r ->
     exists ts thr level target ln msg,
       line_grammar (rstrip_nl line) ts thr level target ln msg /\
       dict_get (py "ts") r = Some (VStr ts) /\
       dict_get (py "thread") r = Some (VStr thr) /\
       dict_get (py "level") r = Some (VStr level) /\
       dict_get (py "target") r = Some (VStr target) /\
       dict_get (py "line") r = Some (VInt (Z.of_N (int_of ln))) /\
       dict_get (py "msg") r = Some (VStr msg))
  /\ ((~ exists ts thr level target ln msg,
           line_grammar (rstrip_nl line) ts thr level target ln msg) <->
      re_match LINE_RE (rstrip_nl line) = None)
  /\ (re_match LINE_RE (rstrip_nl line) = None ->
      parse_line json_loads line = None).
Proof.
  split; [|split].
  - intros r H. apply parse_line_Some_captures in H as (d & M & ->).
    apply line_re_match_Some in M as (ts & thr & level & target & ln & msg & -> & G).
    exists ts, thr, level, target, ln, msg. split; [exact G|].
    repeat split; apply build_record_prefix; unfold base_record, line_captures;
      cbn [group String.eqb Ascii.eqb Bool.eqb]; simpl; tauto.
  - symmetry. apply line_re_match_None.
  - intros M. unfold parse_line. now rewrite M.
Qed.

Lemma payload_of_block json_loads msg pre mid post :
  forallb dot msg = true ->
  msg = pre ++ lbrace :: mid ++ rbrace :: post ->
  ~ In lbrace pre -> ~ In rbrace post ->
  payload_of json_loads msg =
  match json_loads (lbrace :: mid ++ [rbrace]) with
  | Some v => v
  | None => VNone
  end.
Proof.
  intros D -> Hpre Hpost. unfold payload_of.
  rewrite json_re_search_Some; [reflexivity| |assumption|assumption].
  rewrite forallb_app in D. apply andb_true_iff in D as [_ D].
  cbn [forallb] in D. apply andb_true_iff in D as [_ D].
  rewrite forallb_app in D. now apply andb_true_iff in D as [D _].
Qed.

Lemma payload_of_no_block json_loads msg :
  (forall a b c, msg <> a ++ lbrace :: b ++ rbrace :: c) ->
  payload_of json_loads msg = VNone.
Proof. intros H. unfold payload_of. now rewrite json_re_search_None. Qed.



(** The example of the specification: the Vote payload gives a record with
    event Vote, epoch 2 and round 51 (and here the raw message happens to
    contain the keyword too). *)
Example vote_record :
  option_map (fun r => (dict_get (py "event") r, dict_get (py "epoch") r,
                        dict_get (py "round") r))
    (parse_line json_loads_basic ex_line_vote)
  = Some (Some (VStr (py "Vote")), Some (VInt 2), Some (VInt 51)).
Proof. vm_compute. reflexivity. Qed.

(** Malformed JSON inside braces does not stop the parser: the line is kept
    for the keyword in its message. *)
Example malformed_payload_kept :
  option_map (dict_get (py "json"))
    (parse_line json_loads_basic
       (py "2026-02-17T11:09:41.177185Z [c] WARN a/b.rs:7 Vote {event: Vote}"))
  = Some None.
Proof. vm_compute. reflexivity. Qed.

(** A valid payload whose event is not a keyword, in a message without
    keyword: dropped. *)
Example unknown_event_dropped :
  parse_line json_loads_basic
    (py "2026-02-17T11:09:41.177185Z [c] INFO a/b.rs:7 x "
       ++ lbrace :: quoted "event" ++ py ":" ++ quoted "Tick" ++ py "}")
  = None.
Proof. vm_compute. reflexivity. Qed.

(* ------------------------------------------------------------------ *)
(** * Sinks and their names *)

Lemma sink_get_set_same name c s : sink_get name (sink_set name c s) = Some c.
Proof.
  induction s as [|[n c'] s IH]; simpl.
  - now rewrite str_eqb_refl.
  - destruct (str_eqb n name) eqn:E; simpl.
    + now rewrite str_eqb_refl.
    + now rewrite E.
Qed.

Lemma sink_get_set_other name name' c s :
  name' <> name -> sink_get name' (sink_set name c s) = sink_get name' s.
Proof.
  intros N. induction s as [|[n c'] s IH]; simpl.
  - assert (str_eqb name name' = false) as -> by (apply str_eqb_neq; congruence).
    reflexivity.
  - destruct (str_eqb n name) eqn:E; simpl.
    + apply str_eqb_eq in E. subst n.
      assert (str_eqb name name' = false) as -> by (apply str_eqb_neq; congruence).
      reflexivity.
    + destruct (str_eqb n name'); [reflexivity|exact IH].
Qed.

Lemma sink_get_set name name' c s :
  sink_get name' (sink_set name c s) =
  if str_eqb name name' then Some c else sink_get name' s.
Proof.
  destruct (str_eqb name name') eqn:E.
  - apply str_eqb_eq in E. subst. apply sink_get_set_same.
  - apply str_eqb_neq in E. apply sink_get_set_other. congruence.
Qed.

Lemma py_inj a b : py a = py b -> a = b.
Proof.
  unfold py. intros H.
  rewrite <- (string_of_list_ascii_of_string a), <- (string_of_list_ascii_of_string b).
  now rewrite H.
Qed.

(** The decimal spelling determines the number. *)
Lemma decimal_inj a b : decimal a = decimal b -> a = b.
Proof.
  unfold decimal. intros H. apply py_inj in H.
  assert (E : N.to_uint a = N.to_uint b).
  { apply (f_equal NilEmpty.uint_of_string) in H.
    rewrite !NilEmpty.usu in H. congruence. }
  now apply DecimalN.Unsigned.to_uint_inj.
Qed.

Lemma node_jsonl_inj a b : node_jsonl a = node_jsonl b -> a = b.
Proof.
  unfold node_jsonl. intros H. apply app_inv_head in H.
  apply app_inv_tail in H. now apply decimal_inj.
Qed.

Lemma node_log_inj a b : node_log a = node_log b -> a = b.
Proof.
  unfold node_log. intros H. apply app_inv_head in H.
  apply app_inv_tail in H. now apply decimal_inj.
Qed.

Lemma node_jsonl_not_log a b : node_jsonl a <> node_log b.
Proof.
  unfold node_jsonl, node_log. intros H. apply app_inv_head in H.
  apply (f_equal (@rev ascii)) in H. rewrite !rev_app_distr in H.
  vm_compute (rev (py ".jsonl")) in H. vm_compute (rev (py ".log")) in H.
  discriminate H.
Qed.

Lemma node_jsonl_not_all a : node_jsonl a <> all_jsonl /\ node_jsonl a <> all_log.
Proof. split; discriminate. Qed.

Lemma node_log_not_all a : node_log a <> all_jsonl /\ node_log a <> all_log.
Proof. split; discriminate. Qed.

Lemma all_jsonl_not_log : all_jsonl <> all_log.
Proof. discriminate. Qed.

(** No sink has the name of a node log: a run never reads what it writes. *)
Lemma sink_name_not_log name : sink_name name -> is_log_name name = false.
Proof.
  intros [ -> | [ -> | (i & [ -> | -> ]) ] ]; vm_compute; reflexivity.
Qed.

(* ------------------------------------------------------------------ *)
(** * A run in which nothing is refused *)

Section Reliable.

Variable json_loads : str -> option value.
Variable json_dumps : value -> str.
Variable ev : env.
Variable out_dir : path.
Variable out_cs : list (str * entry).
Variable run_name : str.
Variable level_set : level_filter.

Hypothesis Hrel : reliable ev.
Hypothesis Hfree : unobstructed out_cs.

Lemma open_w_ok name st :
  sink_name name ->
  open_w ev out_dir out_cs name st =
  (Some tt, mkState (scanned st) (kept st) (writers st) (sink_set name [] (sinks st))).
Proof.
  intros Hn. unfold open_w. rewrite (Hfree Hn).
  destruct Hrel as (_ & Ho & _). now rewrite Ho.
Qed.

Lemma write_ok name chunk st :
  write ev out_dir name chunk st =
  (Some tt, mkState (scanned st) (kept st) (writers st)
              (sink_append name chunk (sinks st))).
Proof.
  unfold write. destruct Hrel as (_ & _ & Hw). now rewrite Hw.
Qed.

Lemma sink_name_node_jsonl i : sink_name (node_jsonl i).
Proof. right. right. exists i. now left. Qed.

Lemma sink_name_node_log i : sink_name (node_log i).
Proof. right. right. exists i. now right. Qed.

Lemma emit_add_scanned n st r :
  emit json_dumps run_name (add_scanned n st) r
  = add_scanned n (emit json_dumps run_name st r).
Proof. reflexivity. Qed.

Lemma emit_all_add_scanned n K : forall st,
  emit_all json_dumps run_name K (add_scanned n st)
  = add_scanned n (emit_all json_dumps run_name K st).
Proof.
  induction K as [|r K IH]; intros st; [reflexivity|].
  cbn [emit_all fold_left]. rewrite emit_add_scanned. apply IH.
Qed.

Lemma emit_all_app K1 K2 st :
  emit_all json_dumps run_name (K1 ++ K2) st
  = emit_all json_dumps run_name K2 (emit_all json_dumps run_name K1 st).
Proof. unfold emit_all. apply fold_left_app. Qed.

Lemma add_scanned_add a b st :
  add_scanned a (add_scanned b st) = add_scanned (a + b) st.
Proof. unfold add_scanned. cbn. f_equal. lia. Qed.

Lemma add_scanned_0 st : add_scanned 0 st = st.
Proof. now destruct st. Qed.

Lemma write_record_ok jf tf rec f node_id st :
  write_record json_dumps ev out_dir jf tf rec f run_name node_id st
  = (Some tt,
     mkState (scanned st) (kept st) (writers st)
       (sink_append tf (pretty_line (enrich rec f run_name node_id))
          (sink_append jf (jsonl_line json_dumps rec f run_name node_id)
             (sinks st)))).
Proof. unfold write_record, bind. now rewrite !write_ok. Qed.

Lemma get_writers_ok node_id st :
  get_writers ev out_dir out_cs node_id st
  = (Some (node_jsonl node_id, node_log node_id),
     if existsb (N.eqb node_id) (writers st) then st
     else mkState (scanned st) (kept st) (writers st ++ [node_id])
            (sink_set (node_log node_id) []
               (sink_set (node_jsonl node_id) [] (sinks st)))).
Proof.
  unfold get_writers. destruct (existsb (N.eqb node_id) (writers st)); [reflexivity|].
  unfold bind. rewrite open_w_ok by apply sink_name_node_jsonl.
  rewrite open_w_ok by apply sink_name_node_log. reflexivity.
Qed.

Lemma process_line_reliable f node_id line st :
  process_line json_loads json_dumps ev out_dir out_cs run_name level_set
    f node_id line st
  = (Some tt,
     emit_all json_dumps run_name
       (kept_of_line json_loads level_set f node_id line) (add_scanned 1 st)).
Proof.
  unfold process_line, kept_of_line, bind, incr_scanned.
  destruct (parse_line json_loads line) as [rec|]; [|reflexivity].
  destruct (level_excluded level_set rec); [reflexivity|].
  rewrite get_writers_ok. cbn [fst snd]. rewrite !write_record_ok.
  cbn [emit_all fold_left]. unfold emit, incr_kept, jl, pl.
  cbn [scanned kept writers sinks add_scanned kr_node kr_rec kr_file fst snd].
  destruct (existsb (N.eqb node_id) (writers st)); reflexivity.
Qed.

Lemma for_each_lines_reliable f node_id lines : forall st,
  for_each
    (process_line json_loads json_dumps ev out_dir out_cs run_name level_set
       f node_id) lines st
  = (Some tt,
     emit_all json_dumps run_name
       (flat_map (kept_of_line json_loads level_set f node_id) lines)
       (add_scanned (length lines) st)).
Proof.
  induction lines as [|line lines IH]; intros st.
  - cbn. now rewrite add_scanned_0.
  - cbn [for_each flat_map length]. unfold bind at 1.
    rewrite process_line_reliable, IH, emit_all_app.
    rewrite !emit_all_add_scanned, add_scanned_add.
    replace (length lines + 1) with (S (length lines)) by lia. reflexivity.
Qed.

Lemma process_file_reliable x st :
  process_file json_loads json_dumps ev out_dir out_cs run_name level_set x st
  = (Some tt,
     emit_all json_dumps run_name (kept_of_file json_loads level_set x)
       (add_scanned (lines_of_file x) st)).
Proof.
  destruct x as [[f node_id] e]. unfold process_file, catch.
  destruct e as [[|] lines|cs]; cbn [kept_of_file lines_of_file].
  - now rewrite for_each_lines_reliable.
  - cbn. now rewrite add_scanned_0.
  - cbn. now rewrite add_scanned_0.
Qed.

Lemma for_each_files_reliable files : forall st,
  for_each
    (process_file json_loads json_dumps ev out_dir out_cs run_name level_set)
    files st
  = (Some tt,
     emit_all json_dumps run_name (kept_records json_loads level_set files)
       (add_scanned (lines_read files) st)).
Proof.
  induction files as [|x files IH]; intros st.
  - cbn. now rewrite add_scanned_0.
  - cbn [for_each kept_records flat_map lines_read fold_right]. unfold bind at 1.
    rewrite process_file_reliable, IH, emit_all_app.
    rewrite !emit_all_add_scanned, add_scanned_add.
    replace (lines_read files + lines_of_file x)
      with (lines_of_file x + lines_read files) by lia.
    reflexivity.
Qed.

Lemma run_body_reliable files :
  let st := emit_all json_dumps run_name (kept_records json_loads level_set files)
              (add_scanned (lines_read files) opened_state) in
  run_body json_loads json_dumps ev out_dir out_cs run_name level_set files
    init_state
  = (Some (scanned st, kept st), st).
Proof.
  cbv zeta. unfold run_body, bind.
  rewrite open_w_ok by (now left).
  rewrite open_w_ok by (right; now left).
  cbn [scanned kept writers sinks init_state sink_set].
  change (str_eqb all_jsonl all_log) with false. cbv iota.
  rewrite for_each_files_reliable. reflexivity.
Qed.

End Reliable.

(* ------------------------------------------------------------------ *)
(** * What the sinks hold after the records [K] *)

Lemma str_eqb_sym a b : str_eqb a b = str_eqb b a.
Proof.
  destruct (str_eqb a b) eqn:E.
  - apply str_eqb_eq in E. subst. symmetry. apply str_eqb_refl.
  - apply str_eqb_neq in E. symmetry. apply str_eqb_neq. congruence.
Qed.

Lemma str_eqb_node_jsonl a b : str_eqb (node_jsonl a) (node_jsonl b) = N.eqb a b.
Proof.
  destruct (N.eqb a b) eqn:E.
  - apply N.eqb_eq in E. subst. apply str_eqb_refl.
  - apply str_eqb_neq. intros H. apply node_jsonl_inj in H.
    apply N.eqb_neq in E. contradiction.
Qed.

Lemma str_eqb_node_log a b : str_eqb (node_log a) (node_log b) = N.eqb a b.
Proof.
  destruct (N.eqb a b) eqn:E.
  - apply N.eqb_eq in E. subst. apply str_eqb_refl.
  - apply str_eqb_neq. intros H. apply node_log_inj in H.
    apply N.eqb_neq in E. contradiction.
Qed.

Lemma str_eqb_jsonl_log a b : str_eqb (node_jsonl a) (node_log b) = false.
Proof. apply str_eqb_neq, node_jsonl_not_log. Qed.

Lemma str_eqb_log_jsonl a b : str_eqb (node_log a) (node_jsonl b) = false.
Proof. rewrite str_eqb_sym. apply str_eqb_jsonl_log. Qed.

Lemma str_eqb_jsonl_all a :
  str_eqb (node_jsonl a) all_jsonl = false /\ str_eqb (node_jsonl a) all_log = false /\
  str_eqb all_jsonl (node_jsonl a) = false /\ str_eqb all_log (node_jsonl a) = false.
Proof. repeat split; apply str_eqb_neq; discriminate. Qed.

Lemma str_eqb_log_all a :
  str_eqb (node_log a) all_jsonl = false /\ str_eqb (node_log a) all_log = false /\
  str_eqb all_jsonl (node_log a) = false /\ str_eqb all_log (node_log a) = false.
Proof. repeat split; apply str_eqb_neq; discriminate. Qed.

Lemma sink_get_append name name' chunk s :
  sink_get name' (sink_append name chunk s) =
  if str_eqb name name'
  then Some (match sink_get name s with Some c => c | None => [] end ++ [chunk])
  else sink_get name' s.
Proof. unfold sink_append. apply sink_get_set. Qed.

Lemma find_snoc {A} (P : A -> bool) l x :
  find P (l ++ [x]) =
  match find P l with
  | Some y => Some y
  | None => if P x then Some x else None
  end.
Proof.
  induction l as [|y l IH]; simpl; [reflexivity|].
  destruct (P y); [reflexivity|exact IH].
Qed.

Section Expected.

Variable json_dumps : value -> str.
Variable run_name : str.

#[local] Abbreviation expected := (expected_sink json_dumps run_name).
#[local] Abbreviation jl' := (jl json_dumps run_name).
#[local] Abbreviation pl' := (pl run_name).

Lemma of_node_snoc i K r :
  of_node i (K ++ [r]) = of_node i K ++ (if N.eqb (kr_node r) i then [r] else []).
Proof. unfold of_node. rewrite filter_app. reflexivity. Qed.

Lemma of_node_nil i K :
  existsb (fun r => N.eqb i (kr_node r)) K = false -> of_node i K = [].
Proof.
  induction K as [|r K IH]; simpl; intros H; [reflexivity|].
  apply orb_false_iff in H as [H1 H2]. rewrite N.eqb_sym, H1. auto.
Qed.

Lemma find_node_jsonl i K :
  find (fun r => str_eqb (node_jsonl i) (node_jsonl (kr_node r))) K =
  find (fun r => N.eqb i (kr_node r)) K.
Proof.
  induction K as [|r K IH]; simpl; [reflexivity|].
  rewrite str_eqb_node_jsonl, IH. reflexivity.
Qed.

Lemma find_node_log i K :
  find (fun r => str_eqb (node_log i) (node_log (kr_node r))) K =
  find (fun r => N.eqb i (kr_node r)) K.
Proof.
  induction K as [|r K IH]; simpl; [reflexivity|].
  rewrite str_eqb_node_log, IH. reflexivity.
Qed.

Lemma find_all_false {A} (P : A -> bool) (l : list A) :
  (forall x, P x = false) -> find P l = None.
Proof. intros H. induction l as [|x l IH]; simpl; [reflexivity|]. now rewrite H. Qed.

Lemma find_node K i :
  match find (fun r => N.eqb i (kr_node r)) K with
  | Some r => kr_node r = i /\ existsb (fun r => N.eqb i (kr_node r)) K = true
  | None => existsb (fun r => N.eqb i (kr_node r)) K = false
  end.
Proof.
  induction K as [|r K IH]; simpl; [reflexivity|].
  destruct (N.eqb i (kr_node r)) eqn:E.
  - apply N.eqb_eq in E. auto.
  - destruct (find _ K); simpl; [tauto|assumption].
Qed.

(** The sinks of a node, once it has a record. *)
Lemma expected_node_jsonl K i :
  expected K (node_jsonl i) =
  if existsb (fun r => N.eqb i (kr_node r)) K then Some (map jl' (of_node i K)) else None.
Proof.
  unfold expected_sink. destruct (str_eqb_jsonl_all i) as (-> & -> & _).
  rewrite find_node_jsonl. pose proof (find_node K i) as F.
  destruct (find _ K) as [r|].
  - destruct F as [-> ->]. reflexivity.
  - rewrite F. replace (find _ K) with (@None kept_record); [reflexivity|].
    symmetry. apply find_all_false. intros r. apply str_eqb_jsonl_log.
Qed.

Lemma expected_node_log K i :
  expected K (node_log i) =
  if existsb (fun r => N.eqb i (kr_node r)) K then Some (map pl' (of_node i K)) else None.
Proof.
  unfold expected_sink. destruct (str_eqb_log_all i) as (-> & -> & _).
  replace (find (fun r => str_eqb (node_log i) (node_jsonl (kr_node r))) K)
    with (@None kept_record).
  2:{ symmetry. apply find_all_false. intros r. apply str_eqb_log_jsonl. }
  rewrite find_node_log. pose proof (find_node K i) as F.
  destruct (find _ K) as [r|].
  - destruct F as [-> ->]. reflexivity.
  - now rewrite F.
Qed.

Lemma expected_all_jsonl K : expected K all_jsonl = Some (map jl' K).
Proof. reflexivity. Qed.

Lemma expected_all_log K : expected K all_log = Some (map pl' K).
Proof. reflexivity. Qed.

(** A name that is no sink of the record [r] is not affected by it. *)
Lemma expected_snoc_other K r name :
  name <> all_jsonl -> name <> all_log ->
  name <> node_jsonl (kr_node r) -> name <> node_log (kr_node r) ->
  expected (K ++ [r]) name = expected K name.
Proof.
  intros N1 N2 N3 N4. unfold expected_sink.
  apply str_eqb_neq in N1, N2, N3, N4. rewrite N1, N2.
  rewrite !find_snoc, N3, N4.
  destruct (find (fun r0 => str_eqb name (node_jsonl (kr_node r0))) K)
    as [r1|] eqn:F1.
  - apply find_some in F1 as [_ F1]. apply str_eqb_eq in F1.
    rewrite of_node_snoc. destruct (N.eqb (kr_node r) (kr_node r1)) eqn:E.
    + apply N.eqb_eq in E. rewrite F1, <- E, str_eqb_refl in N3. discriminate.
    + now rewrite app_nil_r.
  - destruct (find (fun r0 => str_eqb name (node_log (kr_node r0))) K)
      as [r2|] eqn:F2; [|reflexivity].
    apply find_some in F2 as [_ F2]. apply str_eqb_eq in F2.
    rewrite of_node_snoc. destruct (N.eqb (kr_node r) (kr_node r2)) eqn:E.
    + apply N.eqb_eq in E. rewrite F2, <- E, str_eqb_refl in N4. discriminate.
    + now rewrite app_nil_r.
Qed.

Lemma existsb_snoc {A} (P : A -> bool) l x :
  existsb P (l ++ [x]) = existsb P l || P x.
Proof. rewrite existsb_app. simpl. now rewrite orb_false_r. Qed.

(** After the records [K], a state that started with the combined sinks
    open holds exactly the expected sinks. *)
Lemma emit_all_spec K :
  let st := emit_all json_dumps run_name K opened_state in
  scanned st = 0 /\ kept st = length K /\
  (forall i, existsb (N.eqb i) (writers st)
             = existsb (fun r => N.eqb i (kr_node r)) K) /\
  (forall name, sink_get name (sinks st) = expected K name).
Proof.
  induction K as [|r K IH] using rev_ind; cbv zeta.
  - repeat split; try reflexivity. intros name. unfold expected_sink.
    cbn [emit_all fold_left opened_state sinks sink_get find map].
    rewrite (str_eqb_sym all_jsonl), (str_eqb_sym all_log).
    destruct (str_eqb name all_jsonl), (str_eqb name all_log); reflexivity.
  - unfold emit_all. rewrite fold_left_app. cbn [fold_left].
    fold (emit_all json_dumps run_name K opened_state).
    cbv zeta in IH. destruct IH as (Hs & Hk & Hw & Hg).
    set (st := emit_all json_dumps run_name K opened_state) in *.
    set (i := kr_node r).
    split; [exact Hs|]. split; [cbn; rewrite Hk, length_app; cbn; lia|].
    split.
    + intros j. unfold emit. cbn [writers]. fold i.
      rewrite existsb_snoc. destruct (existsb (N.eqb i) (writers st)) eqn:E.
      * rewrite Hw. destruct (N.eqb j (kr_node r)) eqn:Ej; [|now rewrite orb_false_r].
        apply N.eqb_eq in Ej. subst j. fold i. rewrite <- Hw, E. reflexivity.
      * rewrite existsb_snoc, Hw. reflexivity.
    + intros name. unfold emit. cbn [sinks]. fold i.
      rewrite !sink_get_append.
      destruct (str_eqb_jsonl_all i) as (A1 & A2 & A3 & A4).
      destruct (str_eqb_log_all i) as (B1 & B2 & B3 & B4).
      rewrite ?A1, ?A2, ?A3, ?A4, ?B1, ?B2, ?B3, ?B4, ?str_eqb_refl,
        ?str_eqb_jsonl_log, ?str_eqb_log_jsonl.
      change (str_eqb all_jsonl all_log) with false.
      change (str_eqb all_log all_jsonl) with false. cbv iota.
      assert (Hopen : forall n,
                sink_get n (if existsb (N.eqb i) (writers st) then sinks st
                            else sink_set (node_log i) []
                                   (sink_set (node_jsonl i) [] (sinks st)))
                = if str_eqb n (node_jsonl i) || str_eqb n (node_log i)
                  then Some (match expected K n with Some c => c | None => [] end)
                  else expected K n).
      { intros n. destruct (existsb (N.eqb i) (writers st)) eqn:E.
        - rewrite Hg. destruct (str_eqb n (node_jsonl i)) eqn:E1.
          + apply str_eqb_eq in E1. subst n. cbn [orb].
            rewrite expected_node_jsonl, <- Hw, E. reflexivity.
          + destruct (str_eqb n (node_log i)) eqn:E2; [|reflexivity].
            apply str_eqb_eq in E2. subst n. cbn [orb].
            rewrite expected_node_log, <- Hw, E. reflexivity.
        - rewrite !sink_get_set, Hg.
          rewrite (str_eqb_sym (node_log i) n), (str_eqb_sym (node_jsonl i) n).
          destruct (str_eqb n (node_jsonl i)) eqn:E1.
          + apply str_eqb_eq in E1. subst n. rewrite str_eqb_jsonl_log. cbn [orb].
            rewrite expected_node_jsonl, <- Hw, E. reflexivity.
          + destruct (str_eqb n (node_log i)) eqn:E2; [|reflexivity].
            apply str_eqb_eq in E2. subst n. cbn [orb].
            rewrite expected_node_log, <- Hw, E. reflexivity. }
      rewrite !Hopen.
      rewrite ?A1, ?A2, ?A3, ?A4, ?B1, ?B2, ?B3, ?B4, ?str_eqb_refl,
        ?str_eqb_jsonl_log, ?str_eqb_log_jsonl.
      change (str_eqb all_jsonl (node_jsonl i)) with false.
      change (str_eqb all_log (node_jsonl i)) with false.
      change (str_eqb all_jsonl (node_log i)) with false.
      change (str_eqb all_log (node_log i)) with false.
      cbn [orb].
      destruct (str_eqb all_log name) eqn:E1.
      { apply str_eqb_eq in E1. subst name.
        rewrite !expected_all_log, map_app. reflexivity. }
      destruct (str_eqb all_jsonl name) eqn:E2.
      { apply str_eqb_eq in E2. subst name.
        rewrite !expected_all_jsonl, map_app. reflexivity. }
      destruct (str_eqb (node_log i) name) eqn:E3.
      { apply str_eqb_eq in E3. subst name.
        rewrite !expected_node_log, existsb_snoc, of_node_snoc.
        fold i. rewrite !N.eqb_refl, orb_true_r, map_app.
        destruct (existsb _ K) eqn:EK; [reflexivity|].
        now rewrite (of_node_nil _ _ EK). }
      destruct (str_eqb (node_jsonl i) name) eqn:E4.
      { apply str_eqb_eq in E4. subst name.
        rewrite !expected_node_jsonl, existsb_snoc, of_node_snoc.
        fold i. rewrite !N.eqb_refl, orb_true_r, map_app.
        destruct (existsb _ K) eqn:EK; [reflexivity|].
        now rewrite (of_node_nil _ _ EK). }
      rewrite (str_eqb_sym name), E4, (str_eqb_sym name), E3. cbn [orb].
      symmetry. apply expected_snoc_other; apply str_eqb_neq;
        rewrite str_eqb_sym; assumption.
Qed.

End Expected.

(* ------------------------------------------------------------------ *)
(** * Any run: the counters, and the errors that are absorbed *)

Section AnyRun.

Variable json_loads : str -> option value.
Variable json_dumps : value -> str.
Variable ev : env.
Variable out_dir : path.
Variable out_cs : list (str * entry).
Variable run_name : str.
Variable level_set : level_filter.

Lemma keeps_counters_bind {A B} (m : M A) (k : A -> M B) :
  keeps_counters m -> (forall a, keeps_counters (k a)) -> keeps_counters (bind m k).
Proof.
  intros Hm Hk st. unfold bind. specialize (Hm st).
  destruct (m st) as [[a|] st']; cbn [snd] in *; [|exact Hm].
  specialize (Hk a st'). intuition congruence.
Qed.

Lemma keeps_counters_open name : keeps_counters (open_w ev out_dir out_cs name).
Proof. intros st. unfold open_w. destruct (_ || _); split; reflexivity. Qed.

Lemma keeps_counters_write name chunk : keeps_counters (write ev out_dir name chunk).
Proof. intros st. unfold write. destruct (can_write _ _ _); split; reflexivity. Qed.

Lemma keeps_counters_get_writers node_id :
  keeps_counters (get_writers ev out_dir out_cs node_id).
Proof.
  intros st. unfold get_writers.
  destruct (existsb _ _); [split; reflexivity|].
  revert st. apply keeps_counters_bind; [apply keeps_counters_open|]. intros _.
  apply keeps_counters_bind; [apply keeps_counters_open|]. intros _ st.
  split; reflexivity.
Qed.

Lemma keeps_counters_write_record jf tf rec f node_id :
  keeps_counters (write_record json_dumps ev out_dir jf tf rec f run_name node_id).
Proof.
  apply keeps_counters_bind; [apply keeps_counters_write|]. intros _.
  apply keeps_counters_write.
Qed.

Abbreviation pline :=
  (process_line json_loads json_dumps ev out_dir out_cs run_name level_set).
Abbreviation pfile :=
  (process_file json_loads json_dumps ev out_dir out_cs run_name level_set).

(** One line: [scanned] grows by one, [kept] by one at most. *)
Lemma process_line_counters f node_id line st :
  let st' := snd (pline f node_id line st) in
  scanned st' = S (scanned st) /\
  (kept st' = kept st \/ kept st' = S (kept st)).
Proof.
  cbv zeta. unfold process_line, bind, incr_scanned.
  destruct (parse_line json_loads line) as [rec|]; [|cbn; auto].
  destruct (level_excluded level_set rec); [cbn; auto|].
  set (st1 := mkState (S (scanned st)) (kept st) (writers st) (sinks st)).
  pose proof (keeps_counters_get_writers node_id st1) as G.
  destruct (get_writers ev out_dir out_cs node_id st1) as [[w|] st2]; cbn [snd] in *;
    [|cbn in G; intuition congruence].
  pose proof (keeps_counters_write_record (fst w) (snd w) rec f node_id st2) as W1.
  destruct (write_record _ _ _ _ _ _ _ _ _ st2) as [[[]|] st3]; cbn [snd] in *;
    [|cbn in G; intuition congruence].
  pose proof (keeps_counters_write_record all_jsonl all_log rec f node_id st3) as W2.
  destruct (write_record _ _ _ _ _ _ _ _ _ st3) as [[[]|] st4]; cbn [snd] in *;
    [|cbn in G; intuition congruence].
  unfold incr_kept. cbn in *. intuition congruence.
Qed.

Lemma for_each_lines_le f node_id lines : forall st,
  kept st <= scanned st ->
  let st' := snd (for_each (pline f node_id) lines st) in
  kept st' <= scanned st'.
Proof.
  induction lines as [|line lines IH]; intros st H; cbn [for_each]; [exact H|].
  cbv zeta. unfold bind.
  pose proof (process_line_counters f node_id line st) as C. cbv zeta in C.
  destruct (pline f node_id line st) as [[[]|] st1]; cbn [snd] in *.
  - apply IH. lia.
  - lia.
Qed.

Lemma process_file_le x st :
  kept st <= scanned st ->
  kept (snd (pfile x st)) <= scanned (snd (pfile x st)).
Proof.
  intros H. destruct x as [[f node_id] e]. unfold process_file, catch.
  destruct e as [[|] lines|cs]; try exact H.
  pose proof (for_each_lines_le f node_id lines st H) as L. cbv zeta in L.
  destruct (for_each _ lines st) as [[[]|] st1]; exact L.
Qed.

(** The [try] block absorbs every [OSError]. *)
Lemma process_file_never_raises x st : fst (pfile x st) = Some tt.
Proof.
  destruct x as [[f node_id] e]. unfold process_file, catch.
  destruct e as [[|] lines|cs]; try reflexivity.
  destruct (for_each _ lines st) as [[[]|] st1]; reflexivity.
Qed.

Lemma for_each_files_le files : forall st,
  kept st <= scanned st ->
  fst (for_each pfile files st) = Some tt /\
  kept (snd (for_each pfile files st)) <= scanned (snd (for_each pfile files st)).
Proof.
  induction files as [|x files IH]; intros st H; cbn [for_each]; [auto|].
  unfold bind. pose proof (process_file_never_raises x st) as R.
  pose proof (process_file_le x st H) as L.
  destruct (pfile x st) as [[[]|] st1]; cbn [fst snd] in *; [|discriminate].
  now apply IH.
Qed.

(** [run_body] raises exactly when a combined sink cannot be opened, and
    its counters are in order either way. *)
Lemma run_body_result files :
  let r := run_body json_loads json_dumps ev out_dir out_cs run_name level_set
             files init_state in
  kept (snd r) <= scanned (snd r) /\
  (fst r = Some (scanned (snd r), kept (snd r)) \/ fst r = None) /\
  (fst r = None <->
   fst (open_w ev out_dir out_cs all_jsonl init_state) = None \/
   fst (open_w ev out_dir out_cs all_log init_state) = None).
Proof.
  cbv zeta. unfold run_body, bind.
  destruct (open_w ev out_dir out_cs all_jsonl init_state) as [[[]|] st1] eqn:O1.
  2:{ unfold open_w in O1. destruct (_ || _); inversion O1; subst.
      cbn. intuition. }
  assert (K1 : kept st1 <= scanned st1).
  { unfold open_w in O1. destruct (_ || _); inversion O1; subst. cbn. lia. }
  assert (O2' : fst (open_w ev out_dir out_cs all_log init_state)
                = fst (open_w ev out_dir out_cs all_log st1)).
  { unfold open_w. destruct (_ || _); reflexivity. }
  destruct (open_w ev out_dir out_cs all_log st1) as [[[]|] st2] eqn:O2.
  2:{ unfold open_w in O2. destruct (_ || _); inversion O2; subst.
      cbn [fst snd]. rewrite O2'. cbn. intuition. }
  assert (K2 : kept st2 <= scanned st2).
  { unfold open_w in O2. destruct (_ || _); inversion O2; subst. cbn. exact K1. }
  destruct (for_each_files_le files st2 K2) as [R L].
  destruct (for_each pfile files st2) as [[[]|] st3]; cbn [fst snd] in *;
    [|discriminate].
  rewrite O2'. cbn. intuition discriminate.
Qed.

End AnyRun.

(* ------------------------------------------------------------------ *)
(** * One run directory when nothing is refused *)

Section RunDirReliable.

Variable json_loads : str -> option value.
Variable json_dumps : value -> str.
Variable ev : env.

Lemma mkdir_ok_reliable run_dir rd out_subdir :
  reliable ev -> nothing_in_the_way rd out_subdir ->
  mkdir_ok ev run_dir rd out_subdir = true.
Proof.
  intros (Hm & _) ((cs & -> & Hcs) & _). unfold mkdir_ok.
  destruct (lookup out_subdir cs) as [[r l|ocs]|] eqn:E; auto.
  exfalso. now apply (Hcs r l).
Qed.

(** The counts and the sinks of a run directory. *)
Lemma filter_one_run_dir_reliable run_dir rd out_subdir level_set :
  reliable ev -> nothing_in_the_way rd out_subdir ->
  let files := iter_log_files run_dir rd in
  let K := kept_records json_loads level_set files in
  exists st,
    filter_one_run_dir json_loads json_dumps ev run_dir rd out_subdir level_set
    = (Some (lines_read files, length K), st) /\
    scanned st = lines_read files /\ kept st = length K /\
    (forall i, existsb (N.eqb i) (writers st)
               = existsb (fun r => N.eqb i (kr_node r)) K) /\
    (forall name, sink_get name (sinks st)
                  = expected_sink json_dumps (path_name run_dir) K name).
Proof.
  intros Hrel Hway. cbv zeta. unfold filter_one_run_dir.
  rewrite mkdir_ok_reliable by assumption.
  destruct Hway as [_ Hfree].
  pose proof (@run_body_reliable json_loads json_dumps ev
                (child_path run_dir out_subdir) (out_children rd out_subdir)
                (path_name run_dir) level_set Hrel Hfree
                (iter_log_files run_dir rd)) as R.
  cbv zeta in R. rewrite R.
  rewrite emit_all_add_scanned.
  pose proof (emit_all_spec json_dumps (path_name run_dir)
                (kept_records json_loads level_set (iter_log_files run_dir rd))) as S.
  cbv zeta in S. destruct S as (Hs & Hk & Hw & Hg).
  eexists. split; [|split; [|split; [|split]]].
  - cbn [scanned kept add_scanned]. rewrite Hs, Hk, Nat.add_0_r. reflexivity.
  - cbn. rewrite Hs. lia.
  - cbn. exact Hk.
  - exact Hw.
  - exact Hg.
Qed.

(** The level filter selects among the records accepted without filter. *)
Lemma kept_records_filter level_set files :
  kept_records json_loads level_set files
  = filter (passes level_set) (kept_records json_loads None files).
Proof.
  unfold kept_records. induction files as [|x files IH]; [reflexivity|].
  cbn [flat_map]. rewrite filter_app, <- IH. f_equal.
  destruct x as [[f node_id] e]. destruct e as [[|] lines|cs]; try reflexivity.
  cbn [kept_of_file]. induction lines as [|line lines IHl]; [reflexivity|].
  cbn [flat_map]. rewrite filter_app, <- IHl. f_equal.
  unfold kept_of_line. destruct (parse_line json_loads line) as [rec|]; [|reflexivity].
  cbn [level_excluded filter]. unfold passes, kr_rec. cbn [fst].
  destruct (level_excluded level_set rec); reflexivity.
Qed.

End RunDirReliable.

(* ------------------------------------------------------------------ *)
(** * The kept records and their lines *)

Lemma iter_log_files_In p rd f node_id e :
  In (f, node_id, e) (iter_log_files p rd) ->
  In (f, e) (rglob p rd) /\ is_file e = true /\
  node_of_filename (path_name f) = Some node_id.
Proof.
  unfold iter_log_files. rewrite in_flat_map. intros ([f' e'] & Hin & H).
  cbn [fst snd] in H. destruct (is_file e') eqn:F; [|destruct H].
  destruct (node_of_filename (path_name f')) as [i|] eqn:E; [|destruct H].
  destruct H as [[= -> -> ->]|[]]. auto.
Qed.

Lemma kept_records_In json_loads level_set files r :
  In r (kept_records json_loads level_set files) ->
  exists lines line,
    In (kr_file r, kr_node r, File true lines) files /\ In line lines /\
    parse_line json_loads line = Some (kr_rec r) /\
    level_excluded level_set (kr_rec r) = false.
Proof.
  unfold kept_records. rewrite in_flat_map. intros ([[f i] e] & Hx & H).
  destruct e as [[|] lines|cs]; try destruct H.
  cbn [kept_of_file] in H. apply in_flat_map in H as (line & Hl & H).
  unfold kept_of_line in H. destruct (parse_line json_loads line) as [rec|] eqn:P; [|destruct H].
  destruct (level_excluded level_set rec) eqn:L; [destruct H|].
  destruct H as [<-|[]]. exists lines, line. cbn. auto.
Qed.

Lemma class_dot (p : ascii -> bool) w :
  p newline = false -> forallb p w = true -> forallb dot w = true.
Proof.
  intros Hn H. rewrite forallb_forall in *. intros c Hc. specialize (H c Hc).
  unfold dot. destruct (Ascii.eqb c newline) eqn:E; [|reflexivity].
  apply Ascii.eqb_eq in E. subst c. congruence.
Qed.

Lemma ts_shape_dot ts : ts_shape ts -> forallb dot ts = true.
Proof.
  intros (y & m & d & t & -> & _ & Hy & _ & Hm & _ & Hd & _ & Ht).
  rewrite !forallb_app; cbn [forallb]; rewrite !forallb_app; cbn [forallb].
  rewrite !forallb_app; cbn [forallb]. rewrite !forallb_app; cbn [forallb].
  rewrite (class_dot is_digit y), (class_dot is_digit m), (class_dot is_digit d),
    (class_dot ts_tail t); auto.
Qed.

Lemma field_str_enrich k rec f run_name node_id :
  k <> py "source_file" -> k <> py "run_dir" -> k <> py "node" ->
  field_str k (enrich rec f run_name node_id) = field_str k rec.
Proof.
  intros N1 N2 N3. unfold field_str, enrich.
  now rewrite !dict_get_set_other by assumption.
Qed.

(** The pretty line of a kept record: its timestamp, a space, its message
    and the newline that ends the line; there is no other newline in it. *)
Lemma pretty_line_shape json_loads line rec f run_name node_id :
  parse_line json_loads line = Some rec ->
  exists ts msg,
    dict_get (py "ts") rec = Some (VStr ts) /\
    dict_get (py "msg") rec = Some (VStr msg) /\
    pretty_line (enrich rec f run_name node_id)
    = ts ++ " "%char :: msg ++ [newline] /\
    forallb dot (ts ++ " "%char :: msg) = true.
Proof.
  intros H. apply parse_line_Some_captures in H as (d & M & ->).
  apply line_re_match_Some in M as (ts & thr & level & target & ln & msg & -> & G).
  exists ts, msg.
  assert (Ets : dict_get (py "ts")
                  (build_record (line_captures ts thr level target ln msg)
                     (payload_of json_loads
                        (group "msg" (line_captures ts thr level target ln msg))))
                = Some (VStr ts)).
  { apply build_record_prefix. unfold base_record, line_captures. simpl. tauto. }
  assert (Emsg : dict_get (py "msg")
                  (build_record (line_captures ts thr level target ln msg)
                     (payload_of json_loads
                        (group "msg" (line_captures ts thr level target ln msg))))
                = Some (VStr msg)).
  { apply build_record_prefix. unfold base_record, line_captures. simpl. tauto. }
  split; [exact Ets|]. split; [exact Emsg|]. split.
  - unfold pretty_line. rewrite !field_str_enrich by discriminate.
    unfold field_str. now rewrite Ets, Emsg.
  - destruct G as (ws1 & ws2 & ws3 & ws4 & _ & T & G).
    rewrite forallb_app. cbn [forallb]. rewrite (ts_shape_dot T).
    replace (forallb dot msg) with true; [reflexivity|].
    symmetry. apply G.
Qed.

(* ------------------------------------------------------------------ *)
(** * The names of the node logs *)

Lemma in_run_liti k c s c' rest :
  In (c', rest) (run (liti k) c s) <->
  c' = c /\ exists w, s = w ++ rest /\ map lower w = map lower k.
Proof.
  revert s. induction k as [|a k IH]; intros s; cbn [liti].
  - rewrite in_run_Eps. split.
    + intros [-> ->]. split; [reflexivity|]. now exists [].
    + intros [-> (w & -> & H)]. destruct w; [auto|discriminate].
  - rewrite in_run_Cat. split.
    + intros (c1 & s1 & H1 & H2). apply in_run_LitI in H1 as [-> (x & Hx & ->)].
      apply IH in H2 as [-> (w & -> & Hw)]. split; [reflexivity|].
      exists (x :: w). cbn. now rewrite Hx, Hw.
    + intros [-> (w & -> & Hw)]. destruct w as [|x w]; [discriminate|].
      cbn in Hw. injection Hw as Hx Hw.
      exists c, (w ++ rest). split.
      * apply in_run_LitI. split; [reflexivity|]. now exists x.
      * apply IH. split; [reflexivity|]. now exists w.
Qed.

Lemma lower_underscore x : lower x = lower "_"%char -> x = "_"%char.
Proof.
  destruct x as [[] [] [] [] [] [] [] []]; vm_compute; intros H;
    try reflexivity; discriminate H.
Qed.

Lemma lower_period x : lower x = lower "."%char -> x = "."%char.
Proof.
  destruct x as [[] [] [] [] [] [] [] []]; vm_compute; intros H;
    try reflexivity; discriminate H.
Qed.

Lemma at_end_cases s : at_end s = true -> s = [] \/ s = [newline].
Proof.
  destruct s as [|c [|c' s]]; cbn; intros H; [now left| |discriminate].
  apply Ascii.eqb_eq in H. subst. now right.
Qed.

(** What [NODE_FROM_FILENAME_RE] accepts, and the node id it gives. *)
Lemma node_of_filename_Some name node_id :
  node_of_filename name = Some node_id -> log_name_shape name node_id.
Proof.
  unfold node_of_filename. destruct (re_match NODE_FROM_FILENAME_RE name) as [m|] eqn:M;
    [|discriminate].
  intros [= <-]. apply re_match_Some in M as (rest & H).
  unfold NODE_FROM_FILENAME_RE in H. cbn [cat] in H.
  apply in_run_Cat in H as (c1 & s1 & H1 & H).
  apply in_run_Grp in H1 as (c0 & stem & H1 & -> & ->).
  apply in_run_Alt in H1.
  assert (Hstem : map lower stem = py "stdout" \/ map lower stem = py "stderr").
  { destruct H1 as [H1|H1]; apply in_run_liti in H1 as [_ (w & E & Hw)];
      apply app_inv_tail in E; subst w; [left|right]; exact Hw. }
  clear H1.
  apply in_run_Cat in H as (c2 & s2 & H2 & H).
  apply in_run_LitI in H2 as [-> (x & Hx & ->)]. apply lower_underscore in Hx. subst x.
  apply in_run_Cat in H as (c3 & s3 & H3 & H).
  apply in_run_Grp in H3 as (c4 & digits & H3 & -> & ->).
  apply in_run_Plus in H3 as [-> (w & Hne & E & Hd)].
  apply app_inv_tail in E. subst w.
  apply in_run_Cat in H as (c5 & s5 & H5 & H).
  apply in_run_LitI in H5 as [-> (x & Hx & ->)]. apply lower_period in Hx. subst x.
  apply in_run_Cat in H as (c6 & s6 & H6 & H).
  apply in_run_liti in H6 as [-> (ext & -> & Hext)].
  apply in_run_Cat in H as (c7 & s7 & H7 & H).
  apply in_run_Eos in H7 as (-> & -> & Hend).
  apply in_run_Eps in H as (-> & ->).
  exists stem, digits, ext, s6. repeat split; auto.
  now apply at_end_cases.
Qed.

Example node_of_filename_ex :
  node_of_filename (py "STDERR_007.log") = Some 7%N /\
  node_of_filename (py "stdout_12.log.gz") = None /\
  node_of_filename (py "node7.log") = None.
Proof. vm_compute. auto. Qed.

(* ------------------------------------------------------------------ *)
(** * Claims about the run of one directory *)

Lemma nothing_in_the_way_example : nothing_in_the_way ex_run_dir (py "filtered").
Proof.
  split.
  - eexists. split; [reflexivity|]. intros r l. discriminate.
  - intros name _. reflexivity.
Qed.

Lemma reliable_env_reliable : reliable reliable_env.
Proof. repeat split. Qed.



Lemma existsb_node K i :
  existsb (fun r : kept_record => N.eqb i (kr_node r)) K = true <->
  exists r, In r K /\ kr_node r = i.
Proof.
  rewrite existsb_exists. split; intros (r & H & E); exists r; split; auto.
  - apply N.eqb_eq in E. auto.
  - apply N.eqb_eq. auto.
Qed.

Lemma expected_sink_name json_dumps run_name K name :
  expected_sink json_dumps run_name K name <> None -> sink_name name.
Proof.
  unfold expected_sink, sink_name.
  destruct (str_eqb name all_jsonl) eqn:E1; [apply str_eqb_eq in E1; auto|].
  destruct (str_eqb name all_log) eqn:E2; [apply str_eqb_eq in E2; auto|].
  destruct (find (fun r => str_eqb name (node_jsonl (kr_node r))) K) as [r|] eqn:F1.
  { apply find_some in F1 as [_ F1]. apply str_eqb_eq in F1. intros _.
    right. right. exists (kr_node r). auto. }
  destruct (find (fun r => str_eqb name (node_log (kr_node r))) K) as [r|] eqn:F2.
  { apply find_some in F2 as [_ F2]. apply str_eqb_eq in F2. intros _.
    right. right. exists (kr_node r). auto. }
  congruence.
Qed.





(** The other side of the test: a level set without element is no filter.
    [--levels ,] gives such a set. *)
Lemma empty_level_set_is_no_filter json_loads json_dumps ev run_dir rd out_subdir :
  level_set_of_arg (Some (py ",")) = Some [] /\
  filter_one_run_dir json_loads json_dumps ev run_dir rd out_subdir (Some [])
  = filter_one_run_dir json_loads json_dumps ev run_dir rd out_subdir None.
Proof. split; reflexivity. Qed.

(* ------------------------------------------------------------------ *)
(** * Claims about the counts and about errors *)

Lemma filter_one_run_dir_counts json_loads json_dumps ev run_dir rd out_subdir level_set :
  let r := filter_one_run_dir json_loads json_dumps ev run_dir rd out_subdir level_set in
  kept (snd r) <= scanned (snd r) /\
  (forall s k, fst r = Some (s, k) ->
               s = scanned (snd r) /\ k = kept (snd r) /\ k <= s).
Proof.
  cbv zeta. unfold filter_one_run_dir.
  destruct (mkdir_ok ev run_dir rd out_subdir).
  - pose proof (run_body_result json_loads json_dumps ev (child_path run_dir out_subdir)
                  (out_children rd out_subdir) (path_name run_dir) level_set
                  (iter_log_files run_dir rd)) as R.
    cbv zeta in R. destruct R as (L & [E|E] & _).
    + split; [exact L|]. intros s k H. rewrite E in H. injection H as <- <-. auto.
    + split; [exact L|]. intros s k H. rewrite E in H. discriminate.
  - cbn. split; [lia|]. discriminate.
Qed.

Lemma process_run_dirs_counts json_loads json_dumps ev run_id_dir out_subdir level_set
    run_dirs : forall ts tk reps root,
  Forall (fun r => rep_kept r <= rep_scanned r) reps ->
  ts = total_scanned reps -> tk = total_kept reps ->
  let o := process_run_dirs json_loads json_dumps ev run_id_dir out_subdir level_set
             run_dirs ts tk reps root in
  Forall (fun r => rep_kept r <= rep_scanned r) (reports o) /\
  match totals o with
  | Some (s, k) => s = total_scanned (reports o) /\ k = total_kept (reports o) /\ k <= s
  | None => True
  end.
Proof.
  induction run_dirs as [|[rd_path rd] rest IH]; intros ts tk reps root HF Hs Hk; cbv zeta.
  - cbn. split; [exact HF|]. split; [exact Hs|]. split; [exact Hk|].
    subst. clear - HF. unfold total_kept, total_scanned.
    induction HF as [|r reps Hr HF IH]; cbn; lia.
  - cbn [process_run_dirs].
    pose proof (filter_one_run_dir_counts json_loads json_dumps ev rd_path rd
                  out_subdir level_set) as C. cbv zeta in C.
    destruct (filter_one_run_dir json_loads json_dumps ev rd_path rd out_subdir level_set)
      as [[[s k]|] st]; cbn [fst snd] in C.
    + destruct C as (_ & C). destruct (C s k eq_refl) as (_ & _ & Hle).
      apply IH.
      * apply Forall_app. split; [exact HF|]. constructor; [exact Hle|constructor].
      * subst ts. unfold total_scanned. rewrite fold_right_app. cbn.
        clear. induction reps as [|r reps IHr]; cbn; [lia|]. rewrite <- IHr. lia.
      * subst tk. unfold total_kept. rewrite fold_right_app. cbn.
        clear. induction reps as [|r reps IHr]; cbn; [lia|]. rewrite <- IHr. lia.
    + cbn. auto.
Qed.

(** C7. Whatever the input and whatever the operating system refuses,
    [kept <= scanned] holds for every run directory (at the end of
    [filter_one_run_dir], in the counts it returns and in the report of
    [main]) and for the totals, which are the sums of the counts of the run
    directories. *)
Theorem C7_kept_le_scanned
    json_loads json_dumps ev h levels out_subdir run_id_dir at_path
    run_dir rd level_set :
  (kept (snd (filter_one_run_dir json_loads json_dumps ev run_dir rd out_subdir level_set))
   <= scanned (snd (filter_one_run_dir json_loads json_dumps ev run_dir rd out_subdir level_set)))
  /\ (forall s k,
        fst (filter_one_run_dir json_loads json_dumps ev run_dir rd out_subdir level_set)
        = Some (s, k) -> k <= s)
  /\ Forall (fun r => rep_kept r <= rep_scanned r)
       (reports (main json_loads json_dumps ev h levels out_subdir run_id_dir at_path))
  /\ match totals (main json_loads json_dumps ev h levels out_subdir run_id_dir at_path) with
     | Some (s, k) =>
         s = total_scanned
               (reports (main json_loads json_dumps ev h levels out_subdir run_id_dir at_path)) /\
         k = total_kept
               (reports (main json_loads json_dumps ev h levels out_subdir run_id_dir at_path)) /\
         k <= s
     | None => True
     end.
Proof.
  pose proof (filter_one_run_dir_counts json_loads json_dumps ev run_dir rd
                out_subdir level_set) as C. cbv zeta in C. destruct C as (C1 & C2).
  split; [exact C1|]. split; [intros s k H; now apply (C2 s k H)|].
  unfold main. destruct at_path as [[r l|cs]|]; try (cbn; auto).
  apply process_run_dirs_counts; auto.
Qed.

Example totals_of_example :
  totals (main json_loads_basic json_dumps_basic reliable_env no_hints None
            (py "filtered") ex_root_path (Some ex_root)) = Some (2, 2).
Proof. vm_compute. reflexivity. Qed.



(* ------------------------------------------------------------------ *)
(** * Claims about the run directories *)

Lemma str_leb_total a : forall b, str_leb a b = false -> str_leb b a = true.
Proof.
  induction a as [|x a IH]; intros [|y b]; cbn; try discriminate; auto.
  destruct (code x <? code y)%N eqn:E1; [discriminate|].
  destruct (code y <? code x)%N eqn:E2; [reflexivity|]. apply IH.
Qed.

Lemma str_leb_trans a : forall b c,
  str_leb a b = true -> str_leb b c = true -> str_leb a c = true.
Proof.
  induction a as [|x a IH]; intros [|y b] [|z c]; cbn; try discriminate; auto.
  destruct (code x <? code y)%N eqn:E1.
  - intros _. destruct (code y <? code z)%N eqn:E2.
    + intros _. apply N.ltb_lt in E1, E2.
      assert ((code x <? code z)%N = true) as -> by (apply N.ltb_lt; lia). reflexivity.
    + destruct (code z <? code y)%N eqn:E3; [discriminate|]. intros _.
      apply N.ltb_lt in E1. apply N.ltb_ge in E2, E3.
      assert ((code x <? code z)%N = true) as -> by (apply N.ltb_lt; lia). reflexivity.
  - destruct (code y <? code x)%N eqn:E2; [discriminate|]. intros H1.
    apply N.ltb_ge in E1, E2. assert (code x = code y) as -> by lia.
    destruct (code y <? code z)%N; [reflexivity|].
    destruct (code z <? code y)%N; [discriminate|]. now apply IH.
Qed.

Lemma str_leb_refl a : str_leb a a = true.
Proof. induction a as [|x a IH]; cbn; [reflexivity|]. now rewrite N.ltb_irrefl. Qed.

Lemma insert_sorted_perm x l : Permutation (insert_sorted x l) (x :: l).
Proof.
  induction l as [|y l IH]; cbn; [reflexivity|].
  destruct (str_leb _ _); [|reflexivity].
  rewrite IH. apply perm_swap.
Qed.

Lemma insert_sorted_sorted x l :
  StronglySorted name_le l -> StronglySorted name_le (insert_sorted x l).
Proof.
  induction l as [|y l IH]; cbn; intros H.
  - repeat constructor.
  - inversion H as [|? ? Hl Hy]; subst.
    destruct (str_leb (path_name (fst y)) (path_name (fst x))) eqn:E.
    + constructor; [now apply IH|].
      apply Forall_forall. intros z Hz.
      apply (Permutation_in _ (insert_sorted_perm x l)) in Hz. destruct Hz as [<-|Hz].
      * exact E.
      * rewrite Forall_forall in Hy. now apply Hy.
    + apply str_leb_total in E. constructor; [exact H|].
      constructor; [exact E|].
      rewrite Forall_forall in *. intros z Hz. unfold name_le.
      eapply str_leb_trans; [exact E|]. now apply Hy.
Qed.

Lemma sorted_spec l :
  StronglySorted name_le (sorted l) /\ Permutation (sorted l) l.
Proof.
  unfold sorted.
  assert (G : forall acc, StronglySorted name_le acc ->
            StronglySorted name_le (fold_left (fun acc x => insert_sorted x acc) l acc) /\
            Permutation (fold_left (fun acc x => insert_sorted x acc) l acc) (acc ++ l)).
  { induction l as [|x l IH]; intros acc Hacc; cbn.
    - split; [exact Hacc|]. now rewrite app_nil_r.
    - destruct (IH (insert_sorted x acc) (insert_sorted_sorted x Hacc)) as [S P].
      split; [exact S|]. rewrite P, insert_sorted_perm.
      cbn. apply Permutation_middle. }
  destruct (G [] (SSorted_nil _)) as [S P]. split; [exact S|exact P].
Qed.

Lemma filter_sorted (f : path * entry -> bool) l :
  StronglySorted name_le l -> StronglySorted name_le (filter f l).
Proof.
  induction 1 as [|x l Hl IH Hx]; cbn; [constructor|].
  destruct (f x); [|exact IH]. constructor; [exact IH|].
  rewrite Forall_forall in *. intros y Hy. apply filter_In in Hy as [Hy _]. auto.
Qed.

Lemma looks_like_run_dir_iff p e :
  looks_like_run_dir p e = true <->
  exists f e', In (f, e') (rglob p e) /\ is_file e' = true /\
               is_log_name (path_name f) = true.
Proof.
  unfold looks_like_run_dir. rewrite existsb_exists. split.
  - intros ([f e'] & Hin & H). apply andb_true_iff in H as [H1 H2]. eauto.
  - intros (f & e' & Hin & H1 & H2). exists (f, e'). cbn [fst snd].
    split; [exact Hin|]. now rewrite H1, H2.
Qed.

Lemma match_nonempty {A} (l y : list A) :
  match l with [] => y | _ :: _ => l end = if nonempty_list l then l else y.
Proof. destruct l; reflexivity. Qed.

Lemma filter_filter {A} (f g : A -> bool) l :
  filter f (filter g l) = filter (fun x => g x && f x) l.
Proof.
  induction l as [|x l IH]; cbn; [reflexivity|].
  destruct (g x); cbn; [destruct (f x)|]; now rewrite IH.
Qed.


(** The other side of the test: a hint that is set to the empty string is
    no hint. *)
Lemma empty_hint_is_no_hint sched_type run_id_dir e :
  find_run_dirs (mkHints (Some []) sched_type) run_id_dir e
  = find_run_dirs (mkHints None None) run_id_dir e.
Proof. unfold find_run_dirs, expected_run_prefix. cbn. now destruct sched_type. Qed.

(** Hints that match no subdirectory: autodetection finds the run
    directory. *)
Example hints_without_match :
  map (fun d => path_str (fst d))
    (find_run_dirs (mkHints (Some (py "other")) (Some (py "pct"))) ex_root_path ex_root)
  = [py "output/20260217_120010/aptos-localnet_pct_0"].
Proof. vm_compute. reflexivity. Qed.

(* ------------------------------------------------------------------ *)
(** * The sinks have sink names, whatever is refused *)

Lemma preserves_bind {A B} P (m : M A) (k : A -> M B) :
  preserves P m -> (forall a, preserves P (k a)) -> preserves P (bind m k).
Proof.
  intros Hm Hk st H. unfold bind. specialize (Hm st H).
  destruct (m st) as [[a|] st']; cbn [snd] in *; [now apply Hk|exact Hm].
Qed.

Lemma preserves_catch P (m : M unit) : preserves P m -> preserves P (catch m).
Proof.
  intros Hm st H. unfold catch. specialize (Hm st H).
  destruct (m st) as [[a|] st']; exact Hm.
Qed.

Lemma preserves_for_each {A} P (f : A -> M unit) l :
  (forall x, preserves P (f x)) -> preserves P (for_each f l).
Proof.
  intros Hf. induction l as [|x l IH]; cbn [for_each].
  - intros st H. exact H.
  - apply preserves_bind; auto.
Qed.

Lemma in_sink_set n c s m d :
  In (m, d) (sink_set n c s) -> m = n \/ In (m, d) s.
Proof.
  induction s as [|[n' c'] s IH]; cbn.
  - intros [[= <- <-]|[]]. now left.
  - destruct (str_eqb n' n) eqn:E; cbn.
    + intros [[= <- <-]|H]; auto.
    + intros [H|H]; auto. destruct (IH H); auto.
Qed.

Section Named.

Variable json_loads : str -> option value.
Variable json_dumps : value -> str.
Variable ev : env.
Variable out_dir : path.
Variable out_cs : list (str * entry).
Variable run_name : str.
Variable level_set : level_filter.

Lemma named_open name :
  sink_name name -> preserves sinks_named (open_w ev out_dir out_cs name).
Proof.
  intros Hn st H. unfold open_w. destruct (_ || _); [exact H|].
  intros m d Hin. cbn in Hin. apply in_sink_set in Hin as [->|Hin]; eauto.
Qed.

Lemma named_write name chunk :
  sink_name name -> preserves sinks_named (write ev out_dir name chunk).
Proof.
  intros Hn st H. unfold write. destruct (can_write _ _ _); [|exact H].
  intros m d Hin. cbn in Hin. apply in_sink_set in Hin as [->|Hin]; eauto.
Qed.

Lemma named_get_writers node_id :
  preserves sinks_named (get_writers ev out_dir out_cs node_id).
Proof.
  intros st H. unfold get_writers. destruct (existsb _ _); [exact H|].
  revert st H. apply preserves_bind; [apply named_open, sink_name_node_jsonl|].
  intros _. apply preserves_bind; [apply named_open, sink_name_node_log|].
  intros _ st H. exact H.
Qed.

Lemma get_writers_result node_id st w st' :
  get_writers ev out_dir out_cs node_id st = (Some w, st') ->
  w = (node_jsonl node_id, node_log node_id).
Proof.
  unfold get_writers, bind. destruct (existsb _ _); [now intros [= <- _]|].
  destruct (open_w ev out_dir out_cs (node_jsonl node_id) st) as [[[]|] st1];
    [|discriminate].
  destruct (open_w ev out_dir out_cs (node_log node_id) st1) as [[[]|] st2];
    [|discriminate].
  now intros [= <- _].
Qed.

Lemma named_write_record jf tf rec f node_id :
  sink_name jf -> sink_name tf ->
  preserves sinks_named
    (write_record json_dumps ev out_dir jf tf rec f run_name node_id).
Proof.
  intros Hj Ht. unfold write_record.
  apply preserves_bind; [now apply named_write|]. intros _.
  now apply named_write.
Qed.

Lemma named_process_line f node_id line :
  preserves sinks_named
    (process_line json_loads json_dumps ev out_dir out_cs run_name level_set
       f node_id line).
Proof.
  intros st H. unfold process_line, bind at 1, incr_scanned.
  destruct (parse_line json_loads line) as [rec|]; [|exact H].
  destruct (level_excluded level_set rec); [exact H|].
  set (st1 := mkState (S (scanned st)) (kept st) (writers st) (sinks st)).
  assert (H1 : sinks_named st1) by exact H.
  unfold bind at 1.
  pose proof (named_get_writers node_id H1) as H2.
  destruct (get_writers ev out_dir out_cs node_id st1) as [[w|] st2] eqn:G;
    cbn [snd] in *; [|exact H2].
  apply get_writers_result in G. subst w. cbn [fst snd].
  revert st2 H2. apply preserves_bind.
  - apply named_write_record; [apply sink_name_node_jsonl|apply sink_name_node_log].
  - intros _. apply preserves_bind.
    + apply named_write_record; [now left|right; now left].
    + intros _ st2 H2. exact H2.
Qed.

Lemma named_process_file x :
  preserves sinks_named
    (process_file json_loads json_dumps ev out_dir out_cs run_name level_set x).
Proof.
  destruct x as [[f node_id] e]. unfold process_file. apply preserves_catch.
  destruct e as [[|] lines|cs]; try (intros st H; exact H).
  apply preserves_for_each. intros line. apply named_process_line.
Qed.

Lemma named_run_body files :
  sinks_named
    (snd (run_body json_loads json_dumps ev out_dir out_cs run_name level_set
            files init_state)).
Proof.
  assert (P : preserves sinks_named
                (run_body json_loads json_dumps ev out_dir out_cs run_name
                   level_set files)).
  { unfold run_body. apply preserves_bind; [apply named_open; now left|]. intros _.
    apply preserves_bind; [apply named_open; right; now left|]. intros _.
    apply preserves_bind.
    - apply preserves_for_each. intros x. apply named_process_file.
    - intros _ st H. exact H. }
  apply P. intros n c [].
Qed.

End Named.

Lemma named_filter_one_run_dir json_loads json_dumps ev run_dir rd out_subdir level_set :
  sinks_named
    (snd (filter_one_run_dir json_loads json_dumps ev run_dir rd out_subdir level_set)).
Proof.
  unfold filter_one_run_dir. destruct (mkdir_ok _ _ _ _).
  - apply named_run_body.
  - intros n c [].
Qed.

(* ------------------------------------------------------------------ *)
(** * The output files are never read back *)

Lemma path_name_child q n : path_name (child_path q n) = n.
Proof. unfold path_name, child_path. apply last_last. Qed.

Lemma flat_map_flat_map {A B C} (f : B -> list C) (g : A -> list B) l :
  flat_map f (flat_map g l) = flat_map (fun x => flat_map f (g x)) l.
Proof.
  induction l as [|x l IH]; cbn; [reflexivity|].
  now rewrite flat_map_app, IH.
Qed.

Lemma flat_map_map {A B C} (f : B -> list C) (g : A -> B) l :
  flat_map f (map g l) = flat_map (fun x => f (g x)) l.
Proof. induction l as [|x l IH]; cbn; [reflexivity|]. now rewrite IH. Qed.

(** The log files of a directory: its own, then those of its entries. *)
Lemma iter_log_files_Dir q cs :
  iter_log_files q (Dir cs)
  = flat_map (own_logs q) cs
    ++ flat_map (fun c => iter_log_files (child_path q (fst c)) (snd c)) cs.
Proof.
  unfold iter_log_files. cbn [rglob]. rewrite flat_map_app. f_equal.
  - rewrite flat_map_map. apply flat_map_ext. intros [n e]. unfold own_logs.
    cbn [fst snd]. now rewrite path_name_child.
  - rewrite flat_map_flat_map. apply flat_map_ext. intros [n e]. reflexivity.
Qed.

Lemma iter_log_files_File q r l : iter_log_files q (File r l) = [].
Proof. reflexivity. Qed.

Lemma sink_name_no_node name : sink_name name -> node_of_filename name = None.
Proof.
  intros H. apply sink_name_not_log in H. unfold is_log_name, node_of_filename in *.
  destruct (re_match _ _); [discriminate|reflexivity].
Qed.

Lemma flat_map_set_file {X} (g : str * entry -> list X) n c cs :
  (forall r l, g (n, File r l) = []) ->
  flat_map g (set_file n c cs) = flat_map g cs.
Proof.
  intros Hg. induction cs as [|[m e] cs IH]; cbn [set_file].
  - cbn. now rewrite Hg.
  - destruct (str_eqb m n) eqn:E.
    + apply str_eqb_eq in E. subst m. destruct e as [r l|ocs]; [|reflexivity].
      cbn [flat_map]. now rewrite !Hg.
    + cbn [flat_map]. now rewrite IH.
Qed.

Lemma flat_map_set_dir {X} (g : str * entry -> list X) n f cs :
  (forall ocs, g (n, Dir (f ocs)) = g (n, Dir ocs)) ->
  g (n, Dir (f [])) = [] ->
  flat_map g (set_dir n f cs) = flat_map g cs.
Proof.
  intros Hg H0. induction cs as [|[m e] cs IH]; cbn [set_dir].
  - cbn. now rewrite H0.
  - destruct (str_eqb m n) eqn:E.
    + apply str_eqb_eq in E. subst m. destruct e as [r l|ocs]; [reflexivity|].
      cbn [flat_map]. now rewrite Hg.
    + cbn [flat_map]. now rewrite IH.
Qed.

Lemma set_file_logs q n c cs :
  sink_name n ->
  iter_log_files q (Dir (set_file n c cs)) = iter_log_files q (Dir cs).
Proof.
  intros Hn. rewrite !iter_log_files_Dir. f_equal.
  - apply flat_map_set_file. intros r l. unfold own_logs. cbn [fst snd is_file].
    now rewrite (sink_name_no_node Hn).
  - apply flat_map_set_file. intros r l. reflexivity.
Qed.

Lemma commit_logs q s : forall cs,
  (forall n c, In (n, c) s -> sink_name n) ->
  iter_log_files q (Dir (commit s cs)) = iter_log_files q (Dir cs).
Proof.
  induction s as [|[n c] s IH]; intros cs H; [reflexivity|].
  cbn [commit fold_left fst snd]. fold (commit s (set_file n c cs)).
  rewrite IH by (intros m d Hin; apply (H m d); now right).
  apply set_file_logs. apply (H n c). now left.
Qed.

Lemma set_dir_logs q n f cs :
  (forall q' ocs, iter_log_files q' (Dir (f ocs)) = iter_log_files q' (Dir ocs)) ->
  iter_log_files q (Dir (set_dir n f cs)) = iter_log_files q (Dir cs).
Proof.
  intros Hf. rewrite !iter_log_files_Dir. f_equal.
  - apply flat_map_set_dir; reflexivity.
  - apply flat_map_set_dir.
    + intros ocs. cbn [fst snd]. apply Hf.
    + cbn [fst snd]. rewrite Hf. reflexivity.
Qed.

(** The log files of the directory a run leaves are those it found. *)
Lemma run_dir_after_logs json_loads json_dumps ev run_dir out_subdir level_set rd q :
  iter_log_files q
    (run_dir_after json_loads json_dumps ev run_dir out_subdir level_set rd)
  = iter_log_files q rd.
Proof.
  unfold run_dir_after, rd_after.
  destruct (mkdir_ok ev run_dir rd out_subdir); [|reflexivity].
  destruct rd as [r l|cs]; [reflexivity|].
  apply set_dir_logs. intros q' ocs. apply commit_logs.
  apply named_filter_one_run_dir.
Qed.

Lemma looks_like_run_dir_logs q e :
  looks_like_run_dir q e = nonempty_list (iter_log_files q e).
Proof.
  unfold looks_like_run_dir, iter_log_files.
  induction (rglob q e) as [|[f e'] l IH]; [reflexivity|].
  cbn [existsb flat_map fst snd]. rewrite IH.
  unfold is_log_name, node_of_filename.
  destruct (is_file e'); [|reflexivity].
  destruct (re_match NODE_FROM_FILENAME_RE (path_name f)); reflexivity.
Qed.

Lemma run_dir_after_looks json_loads json_dumps ev run_dir out_subdir level_set rd q :
  looks_like_run_dir q
    (run_dir_after json_loads json_dumps ev run_dir out_subdir level_set rd)
  = looks_like_run_dir q rd.
Proof. now rewrite !looks_like_run_dir_logs, run_dir_after_logs. Qed.

Lemma run_dir_after_is_dir json_loads json_dumps ev run_dir out_subdir level_set rd :
  is_dir (run_dir_after json_loads json_dumps ev run_dir out_subdir level_set rd)
  = is_dir rd.
Proof.
  unfold run_dir_after, rd_after.
  destruct (mkdir_ok ev run_dir rd out_subdir); [|reflexivity].
  now destruct rd.
Qed.

(* ------------------------------------------------------------------ *)
(** * Running again in the directory a run has left *)

Lemma lookup_set_dir n f cs :
  lookup n (set_dir n f cs)
  = match lookup n cs with
    | Some (Dir ocs) => Some (Dir (f ocs))
    | Some (File r l) => Some (File r l)
    | None => Some (Dir (f []))
    end.
Proof.
  induction cs as [|[m e] cs IH]; cbn [set_dir lookup].
  - now rewrite str_eqb_refl.
  - destruct (str_eqb m n) eqn:E; cbn [lookup]; rewrite E; [|exact IH].
    now destruct e.
Qed.

Lemma lookup_set_file n c cs m :
  lookup m (set_file n c cs)
  = if str_eqb n m
    then match lookup n cs with
         | Some (File r _) => Some (File r c)
         | Some (Dir ocs) => Some (Dir ocs)
         | None => Some (File true c)
         end
    else lookup m cs.
Proof.
  induction cs as [|[k e] cs IH]; cbn [set_file lookup].
  - destruct (str_eqb n m); reflexivity.
  - destruct (str_eqb k n) eqn:E; cbn [lookup].
    + apply str_eqb_eq in E. subst k.
      destruct (str_eqb n m); [now destruct e|reflexivity].
    + destruct (str_eqb k m) eqn:E2.
      * destruct (str_eqb n m) eqn:E3; [|reflexivity].
        apply str_eqb_eq in E2, E3. subst. rewrite str_eqb_refl in E. discriminate.
      * exact IH.
Qed.

Lemma is_dir_in_set_file n c cs m :
  is_dir_in (set_file n c cs) m = is_dir_in cs m.
Proof.
  unfold is_dir_in. rewrite lookup_set_file.
  destruct (str_eqb n m) eqn:E; [|reflexivity].
  apply str_eqb_eq in E. subst m. now destruct (lookup n cs) as [[r l|ocs]|].
Qed.

Lemma is_dir_in_commit s : forall cs m, is_dir_in (commit s cs) m = is_dir_in cs m.
Proof.
  induction s as [|[n c] s IH]; intros cs m; [reflexivity|].
  cbn [commit fold_left fst snd]. fold (commit s (set_file n c cs)).
  now rewrite IH, is_dir_in_set_file.
Qed.

Lemma bind_ext {A B} (m m' : M A) (k k' : A -> M B) st :
  m st = m' st -> (forall a st', k a st' = k' a st') -> bind m k st = bind m' k' st.
Proof.
  intros Hm Hk. unfold bind. rewrite Hm. destruct (m' st) as [[a|] st']; auto.
Qed.

Lemma for_each_ext {A} (f g : A -> M unit) l :
  (forall x st, f x st = g x st) -> forall st, for_each f l st = for_each g l st.
Proof.
  intros H. induction l as [|x l IH]; intros st; [reflexivity|].
  cbn [for_each]. apply bind_ext; auto.
Qed.

Section SameObstacles.

Variable json_loads : str -> option value.
Variable json_dumps : value -> str.
Variable ev : env.
Variable out_dir : path.
Variable cs cs' : list (str * entry).
Variable run_name : str.
Variable level_set : level_filter.

Hypothesis Hsame : forall n, is_dir_in cs n = is_dir_in cs' n.

Lemma open_w_same name st :
  open_w ev out_dir cs name st = open_w ev out_dir cs' name st.
Proof. unfold open_w. now rewrite Hsame. Qed.

Lemma get_writers_same node_id st :
  get_writers ev out_dir cs node_id st = get_writers ev out_dir cs' node_id st.
Proof.
  unfold get_writers. destruct (existsb _ _); [reflexivity|].
  apply bind_ext; [apply open_w_same|]. intros _ st1.
  apply bind_ext; [apply open_w_same|]. reflexivity.
Qed.

Lemma process_line_same f node_id line st :
  process_line json_loads json_dumps ev out_dir cs run_name level_set f node_id line st
  = process_line json_loads json_dumps ev out_dir cs' run_name level_set f node_id line st.
Proof.
  unfold process_line. apply bind_ext; [reflexivity|]. intros _ st1.
  destruct (parse_line json_loads line) as [rec|]; [|reflexivity].
  destruct (level_excluded level_set rec); [reflexivity|].
  apply bind_ext; [apply get_writers_same|]. reflexivity.
Qed.

Lemma process_file_same x st :
  process_file json_loads json_dumps ev out_dir cs run_name level_set x st
  = process_file json_loads json_dumps ev out_dir cs' run_name level_set x st.
Proof.
  destruct x as [[f node_id] e]. unfold process_file, catch.
  destruct e as [[|] lines|ocs]; try reflexivity.
  rewrite (for_each_ext _ _ lines (process_line_same f node_id)). reflexivity.
Qed.

Lemma run_body_same files st :
  run_body json_loads json_dumps ev out_dir cs run_name level_set files st
  = run_body json_loads json_dumps ev out_dir cs' run_name level_set files st.
Proof.
  unfold run_body. apply bind_ext; [apply open_w_same|]. intros _ st1.
  apply bind_ext; [apply open_w_same|]. intros _ st2.
  apply bind_ext; [apply for_each_ext, process_file_same|]. reflexivity.
Qed.

End SameObstacles.

(** ** Writing the same sinks twice *)

Lemma set_file_twice n c c' cs :
  set_file n c (set_file n c' cs) = set_file n c cs.
Proof.
  induction cs as [|[m e] cs IH]; cbn [set_file].
  - now rewrite str_eqb_refl.
  - destruct (str_eqb m n) eqn:E; cbn [set_file]; rewrite E.
    + now destruct e.
    + now rewrite IH.
Qed.

Lemma set_file_comm n c m d cs :
  n <> m -> lookup m cs <> None ->
  set_file m d (set_file n c cs) = set_file n c (set_file m d cs).
Proof.
  intros Hnm. induction cs as [|[k e] cs IH]; cbn [lookup]; [congruence|].
  intros Hm. cbn [set_file].
  destruct (str_eqb k n) eqn:E1, (str_eqb k m) eqn:E2; cbn [set_file];
    rewrite ?E1, ?E2; try reflexivity.
  - apply str_eqb_eq in E1, E2. congruence.
  - now rewrite IH.
Qed.

Lemma lookup_set_file_has n c cs m :
  lookup m cs <> None -> lookup m (set_file n c cs) <> None.
Proof.
  rewrite lookup_set_file. destruct (str_eqb n m) eqn:E; [|auto].
  intros _. now destruct (lookup n cs) as [[r l|ocs]|].
Qed.

Lemma lookup_commit_has s : forall cs m,
  lookup m cs <> None -> lookup m (commit s cs) <> None.
Proof.
  induction s as [|[n c] s IH]; intros cs m H; [exact H|].
  cbn [commit fold_left fst snd]. fold (commit s (set_file n c cs)).
  now apply IH, lookup_set_file_has.
Qed.

Lemma commit_has s : forall cs n c,
  In (n, c) s -> lookup n (commit s cs) <> None.
Proof.
  induction s as [|[m d] s IH]; intros cs n c H; [destruct H|].
  cbn [commit fold_left fst snd]. fold (commit s (set_file m d cs)).
  destruct H as [[= -> ->]|H]; [|now apply (IH _ _ c)].
  apply lookup_commit_has. rewrite lookup_set_file, str_eqb_refl.
  now destruct (lookup n cs) as [[r l|ocs]|].
Qed.

Lemma commit_snoc s n c cs : commit (s ++ [(n, c)]) cs = set_file n c (commit s cs).
Proof. unfold commit. now rewrite fold_left_app. Qed.

Lemma commit_absorbs n c c0 s : forall X,
  (forall m d, In (m, d) s -> lookup m X <> None) ->
  set_file n c (commit s (set_file n c0 X)) = set_file n c (commit s X).
Proof.
  induction s as [|[m d] s IH]; intros X HX.
  - cbn. apply set_file_twice.
  - cbn [commit fold_left fst snd].
    fold (commit s (set_file m d (set_file n c0 X))).
    fold (commit s (set_file m d X)).
    destruct (list_eq_dec ascii_dec n m) as [->|Hnm].
    + now rewrite set_file_twice.
    + rewrite set_file_comm by (auto; apply (HX m d); now left).
      apply IH. intros m' d' Hin. apply lookup_set_file_has. apply (HX m' d'). now right.
Qed.

Lemma commit_idem s : forall cs, commit s (commit s cs) = commit s cs.
Proof.
  induction s as [|[n c] s IH] using rev_ind; intros cs; [reflexivity|].
  rewrite !commit_snoc. rewrite commit_absorbs.
  - now rewrite IH.
  - intros m d Hin. now apply (commit_has _ _ _ d).
Qed.

Lemma set_dir_twice n f cs :
  (forall ocs, f (f ocs) = f ocs) ->
  set_dir n f (set_dir n f cs) = set_dir n f cs.
Proof.
  intros Hf. induction cs as [|[m e] cs IH]; cbn [set_dir].
  - now rewrite str_eqb_refl, Hf.
  - destruct (str_eqb m n) eqn:E; cbn [set_dir]; rewrite E.
    + destruct e; [reflexivity|]. now rewrite Hf.
    + now rewrite IH.
Qed.

(** The run in the directory a run has left: the same result, the same
    state, the same directory. *)
Lemma filter_one_run_dir_again json_loads json_dumps ev run_dir out_subdir level_set rd :
  filter_one_run_dir json_loads json_dumps ev run_dir
    (run_dir_after json_loads json_dumps ev run_dir out_subdir level_set rd)
    out_subdir level_set
  = filter_one_run_dir json_loads json_dumps ev run_dir rd out_subdir level_set.
Proof.
  pose proof (run_dir_after_logs json_loads json_dumps ev run_dir out_subdir
                level_set rd run_dir) as L.
  unfold run_dir_after, rd_after in *.
  destruct (mkdir_ok ev run_dir rd out_subdir) eqn:M; [|reflexivity].
  destruct rd as [r l|cs]; [reflexivity|].
  set (s := sinks (snd (filter_one_run_dir json_loads json_dumps ev run_dir (Dir cs)
                          out_subdir level_set))) in *.
  unfold filter_one_run_dir. rewrite M.
  assert (M' : mkdir_ok ev run_dir (Dir (set_dir out_subdir (commit s) cs)) out_subdir
               = true).
  { unfold mkdir_ok in *. rewrite lookup_set_dir.
    destruct (lookup out_subdir cs) as [[r l|ocs]|]; auto. }
  rewrite M', L.
  apply run_body_same. intros n. unfold out_children.
  rewrite lookup_set_dir. unfold mkdir_ok in M.
  destruct (lookup out_subdir cs) as [[r l|ocs]|]; try discriminate;
    apply is_dir_in_commit.
Qed.

Lemma run_dir_after_again json_loads json_dumps ev run_dir out_subdir level_set rd :
  run_dir_after json_loads json_dumps ev run_dir out_subdir level_set
    (run_dir_after json_loads json_dumps ev run_dir out_subdir level_set rd)
  = run_dir_after json_loads json_dumps ev run_dir out_subdir level_set rd.
Proof.
  unfold run_dir_after at 1. rewrite filter_one_run_dir_again.
  unfold run_dir_after, rd_after.
  destruct (mkdir_ok ev run_dir rd out_subdir) eqn:M; [|now rewrite M].
  destruct rd as [r l|cs]; [now rewrite M|].
  set (s := sinks (snd (filter_one_run_dir json_loads json_dumps ev run_dir (Dir cs)
                          out_subdir level_set))).
  assert (M' : mkdir_ok ev run_dir (Dir (set_dir out_subdir (commit s) cs)) out_subdir
               = true).
  { unfold mkdir_ok in *. rewrite lookup_set_dir.
    destruct (lookup out_subdir cs) as [[r l|ocs]|]; auto. }
  rewrite M'. f_equal. apply set_dir_twice. apply commit_idem.
Qed.

(* ------------------------------------------------------------------ *)
(** * A second invocation *)

Lemma find_run_dirs_sub h p e :
  find_run_dirs h p e
  = match sub_run_dirs h p e with
    | _ :: _ => sub_run_dirs h p e
    | [] => if looks_like_run_dir p e then [(p, e)] else []
    end.
Proof.
  unfold find_run_dirs, sub_run_dirs.
  destruct (match expected_run_prefix h with Some _ => _ | None => _ end);
    [|reflexivity].
  destruct (filter _ _); reflexivity.
Qed.

Lemma filter_nil_iff {A} (f : A -> bool) l :
  filter f l = [] <-> forall x, In x l -> f x = false.
Proof.
  induction l as [|a l IH]; cbn; [tauto|].
  destruct (f a) eqn:E; split.
  - discriminate.
  - intros H. specialize (H a (or_introl eq_refl)). congruence.
  - intros H x [<-|Hx]; [exact E|]. now apply IH.
  - intros H. apply IH. auto.
Qed.

Lemma In_sorted x l : In x (sorted l) <-> In x l.
Proof.
  destruct (sorted_spec l) as [_ P]. split; apply Permutation_in; [exact P|].
  now apply Permutation_sym.
Qed.

Lemma sub_run_dirs_incl h p e x :
  In x (sub_run_dirs h p e) ->
  In x (iterdir p e) /\ is_dir (snd x) = true /\
  looks_like_run_dir (fst x) (snd x) = true.
Proof.
  unfold sub_run_dirs.
  assert (G : forall g : path * entry -> bool,
    In x (filter (fun d => looks_like_run_dir (fst d) (snd d))
            (filter g (sorted (filter (fun c => is_dir (snd c)) (iterdir p e))))) ->
    In x (iterdir p e) /\ is_dir (snd x) = true /\
    looks_like_run_dir (fst x) (snd x) = true).
  { intros g H. apply filter_In in H. destruct H as [H L].
    apply filter_In in H. destruct H as [H _].
    apply In_sorted, filter_In in H. tauto. }
  assert (G' :
    In x (filter (fun d => looks_like_run_dir (fst d) (snd d))
            (sorted (filter (fun c => is_dir (snd c)) (iterdir p e)))) ->
    In x (iterdir p e) /\ is_dir (snd x) = true /\
    looks_like_run_dir (fst x) (snd x) = true).
  { intros H. apply filter_In in H. destruct H as [H L].
    apply In_sorted, filter_In in H. tauto. }
  destruct (expected_run_prefix h) as [pref|]; [|exact G'].
  destruct (filter _ (filter _ _)) eqn:E; [exact G'|].
  rewrite <- E. apply G.
Qed.

Lemma sub_run_dirs_nil h p e :
  (forall x, In x (iterdir p e) -> is_dir (snd x) = true ->
             looks_like_run_dir (fst x) (snd x) = false) ->
  sub_run_dirs h p e = [].
Proof.
  intros H. destruct (sub_run_dirs h p e) as [|x l] eqn:E; [reflexivity|].
  assert (Hx : In x (sub_run_dirs h p e)) by (rewrite E; now left).
  apply sub_run_dirs_incl in Hx. destruct Hx as (H1 & H2 & H3).
  rewrite (H x H1 H2) in H3. discriminate.
Qed.

Lemma sub_run_dirs_nil_inv h p e x :
  sub_run_dirs h p e = [] ->
  In x (iterdir p e) -> is_dir (snd x) = true ->
  looks_like_run_dir (fst x) (snd x) = false.
Proof.
  unfold sub_run_dirs. intros H Hin Hd.
  assert (G : filter (fun d => looks_like_run_dir (fst d) (snd d))
                (sorted (filter (fun c => is_dir (snd c)) (iterdir p e))) = []).
  { destruct (match expected_run_prefix h with Some _ => _ | None => _ end);
      [exact H|discriminate]. }
  rewrite filter_nil_iff in G. apply (G x). apply In_sorted, filter_In. tauto.
Qed.

(** ** Entries of the same kind *)

Lemma same_kind_refl c : same_kind c c.
Proof. split; [reflexivity|now left]. Qed.

Lemma same_kind_trans a b c : same_kind a b -> same_kind b c -> same_kind a c.
Proof.
  intros [N1 K1] [N2 K2]. split; [congruence|].
  destruct K1 as [K1|(D1 & D1' & L1)], K2 as [K2|(D2 & D2' & L2)].
  - left. congruence.
  - right. rewrite <- K1. auto.
  - right. rewrite K2. auto.
  - right. split; [exact D1|]. split; [exact D2'|]. intros q. now rewrite L2.
Qed.

Lemma Forall2_same_kind_refl cs : Forall2 same_kind cs cs.
Proof. induction cs; constructor; auto using same_kind_refl. Qed.

Lemma Forall2_same_kind_trans a : forall b c,
  Forall2 same_kind a b -> Forall2 same_kind b c -> Forall2 same_kind a c.
Proof.
  induction a as [|x a IH]; intros b c H1 H2; inversion H1; subst;
    inversion H2; subst; constructor; eauto using same_kind_trans.
Qed.

Lemma same_kind_names cs cs1 :
  Forall2 same_kind cs cs1 -> map fst cs1 = map fst cs.
Proof.
  induction 1 as [|c c1 cs cs1 [N _] _ IH]; [reflexivity|]. cbn. congruence.
Qed.

Lemma same_kind_own_logs q c c1 : same_kind c c1 -> own_logs q c1 = own_logs q c.
Proof.
  destruct c as [n e], c1 as [n1 e1]. intros [N K]. cbn [fst snd] in *. subst n1.
  destruct K as [->|(D & D1 & _)]; [reflexivity|].
  unfold own_logs. cbn [fst snd]. destruct e, e1; try discriminate. reflexivity.
Qed.

Lemma same_kind_below q c c1 :
  same_kind c c1 ->
  iter_log_files (child_path q (fst c1)) (snd c1)
  = iter_log_files (child_path q (fst c)) (snd c).
Proof.
  intros [N K]. rewrite N. destruct K as [->|(_ & _ & L)]; [reflexivity|apply L].
Qed.

Lemma same_kind_logs q cs cs1 :
  Forall2 same_kind cs cs1 ->
  iter_log_files q (Dir cs1) = iter_log_files q (Dir cs).
Proof.
  intros H. rewrite !iter_log_files_Dir. f_equal.
  - induction H as [|c c1 cs cs1 K _ IH]; [reflexivity|].
    cbn [flat_map]. now rewrite IH, (same_kind_own_logs q K).
  - induction H as [|c c1 cs cs1 K _ IH]; [reflexivity|].
    cbn [flat_map]. now rewrite IH, (same_kind_below q K).
Qed.

Lemma same_kind_iterdir p cs cs1 :
  Forall2 same_kind cs cs1 ->
  Forall2 same_run (iterdir p (Dir cs)) (iterdir p (Dir cs1)).
Proof.
  unfold iterdir. induction 1 as [|c c1 cs cs1 K _ IH]; cbn [map]; constructor;
    [|exact IH].
  destruct K as [N K]. unfold same_run. cbn [fst snd]. rewrite N.
  split; [reflexivity|].
  destruct K as [->|(D & D1 & L)]; [split; reflexivity|].
  split; [congruence|]. now rewrite !looks_like_run_dir_logs, L.
Qed.

(** ** Discovery in directories of the same kind *)

Lemma same_run_filter (f : path * entry -> bool) l l1 :
  (forall x y, same_run x y -> f y = f x) ->
  Forall2 same_run l l1 -> Forall2 same_run (filter f l) (filter f l1).
Proof.
  intros Hf. induction 1 as [|x y l l1 R _ IH]; [constructor|].
  cbn [filter]. rewrite (Hf x y R). destruct (f x); [constructor|]; auto.
Qed.

Lemma same_run_insert x y l l1 :
  same_run x y -> Forall2 same_run l l1 ->
  Forall2 same_run (insert_sorted x l) (insert_sorted y l1).
Proof.
  intros R. induction 1 as [|a b l l1 Rab H IH]; cbn [insert_sorted].
  - constructor; [exact R|constructor].
  - assert (N := proj1 R). assert (Nab := proj1 Rab). rewrite N, Nab.
    destruct (str_leb _ _); constructor; auto.
Qed.

Lemma same_run_sorted l l1 :
  Forall2 same_run l l1 -> Forall2 same_run (sorted l) (sorted l1).
Proof.
  unfold sorted.
  assert (G : forall acc acc1, Forall2 same_run acc acc1 ->
            Forall2 same_run l l1 ->
            Forall2 same_run (fold_left (fun acc x => insert_sorted x acc) l acc)
                             (fold_left (fun acc x => insert_sorted x acc) l1 acc1)).
  { intros acc acc1 Ha H. revert acc acc1 Ha.
    induction H as [|x y l l1 R _ IH]; intros acc acc1 Ha; [exact Ha|].
    cbn [fold_left]. apply IH. now apply same_run_insert. }
  intros H. apply G; [constructor|exact H].
Qed.

Lemma sub_run_dirs_same h p e e1 :
  Forall2 same_run (iterdir p e) (iterdir p e1) ->
  Forall2 same_run (sub_run_dirs h p e) (sub_run_dirs h p e1).
Proof.
  intros H. unfold sub_run_dirs.
  assert (C : Forall2 same_run
                (sorted (filter (fun c => is_dir (snd c)) (iterdir p e)))
                (sorted (filter (fun c => is_dir (snd c)) (iterdir p e1)))).
  { apply same_run_sorted, same_run_filter; [|exact H]. now intros x y (_ & D & _). }
  assert (A : Forall2 same_run
                (filter (fun d => looks_like_run_dir (fst d) (snd d))
                   (sorted (filter (fun c => is_dir (snd c)) (iterdir p e))))
                (filter (fun d => looks_like_run_dir (fst d) (snd d))
                   (sorted (filter (fun c => is_dir (snd c)) (iterdir p e1))))).
  { apply same_run_filter; [|exact C]. intros x y (N & _ & L). now rewrite N. }
  destruct (expected_run_prefix h) as [pref|]; [|exact A].
  assert (B : Forall2 same_run
                (filter (fun d => looks_like_run_dir (fst d) (snd d))
                   (filter (fun d => startswith pref (path_name (fst d)))
                      (sorted (filter (fun c => is_dir (snd c)) (iterdir p e)))))
                (filter (fun d => looks_like_run_dir (fst d) (snd d))
                   (filter (fun d => startswith pref (path_name (fst d)))
                      (sorted (filter (fun c => is_dir (snd c)) (iterdir p e1)))))).
  { apply same_run_filter; [intros x y (N & _ & L); now rewrite N|].
    apply same_run_filter; [|exact C]. intros x y (N & _). now rewrite N. }
  inversion B; [exact A|]. constructor; assumption.
Qed.

Lemma same_run_paths l l1 : Forall2 same_run l l1 -> map fst l1 = map fst l.
Proof.
  induction 1 as [|x y l l1 [N _] _ IH]; [reflexivity|]. cbn. congruence.
Qed.

(** ** Names and paths *)

Lemma child_path_inj p n m : child_path p n = child_path p m -> n = m.
Proof. unfold child_path. intros H. apply app_inv_head in H. congruence. Qed.

Lemma child_path_neq p n : child_path p n <> p.
Proof.
  unfold child_path. intros H. apply (f_equal (@length str)) in H.
  rewrite length_app in H. cbn in H. lia.
Qed.

Lemma In_iterdir p cs x :
  In x (iterdir p (Dir cs)) <-> exists n e, x = (child_path p n, e) /\ In (n, e) cs.
Proof.
  unfold iterdir. rewrite in_map_iff. split.
  - intros ([n e] & <- & H). now exists n, e.
  - intros (n & e & -> & H). now exists (n, e).
Qed.

Lemma lookup_In n e cs : lookup n cs = Some e -> In (n, e) cs.
Proof.
  induction cs as [|[m e'] cs IH]; cbn [lookup]; [discriminate|].
  destruct (str_eqb m n) eqn:E.
  - apply str_eqb_eq in E. intros [= ->]. left. congruence.
  - intros H. right. auto.
Qed.

Lemma NoDup_lookup n e cs :
  NoDup (map fst cs) -> In (n, e) cs -> lookup n cs = Some e.
Proof.
  induction cs as [|[m e'] cs IH]; cbn [map fst lookup]; intros ND H; [destruct H|].
  inversion ND as [|? ? Hm ND']; subst.
  destruct H as [[= -> ->]|H].
  - now rewrite str_eqb_refl.
  - destruct (str_eqb m n) eqn:E; [|auto].
    apply str_eqb_eq in E. subst m. exfalso. apply Hm.
    apply in_map_iff. now exists (n, e).
Qed.

Lemma NoDup_map_filter {A B} (f : A -> B) (g : A -> bool) l :
  NoDup (map f l) -> NoDup (map f (filter g l)).
Proof.
  induction l as [|a l IH]; cbn [map filter]; intros H; [constructor|].
  inversion H as [|? ? Ha H']; subst.
  destruct (g a); [|auto]. cbn [map]. constructor; [|auto].
  intros Hin. apply Ha. apply in_map_iff in Hin. destruct Hin as (x & E & Hx).
  apply filter_In in Hx. apply in_map_iff. exists x. tauto.
Qed.

Lemma NoDup_iterdir p cs :
  NoDup (map fst cs) -> NoDup (map fst (iterdir p (Dir cs))).
Proof.
  unfold iterdir. rewrite map_map. cbn [fst].
  induction cs as [|[n e] cs IH]; cbn [map fst]; intros H; [constructor|].
  inversion H as [|? ? Hn H']; subst. constructor; [|auto].
  intros Hin. apply Hn. apply in_map_iff in Hin. destruct Hin as ([m e'] & E & Hx).
  cbn [fst] in E. apply child_path_inj in E. subst m.
  apply in_map_iff. now exists (n, e').
Qed.

Lemma NoDup_sub_run_dirs h p cs :
  NoDup (map fst cs) -> NoDup (map fst (sub_run_dirs h p (Dir cs))).
Proof.
  intros H. apply (NoDup_iterdir p) in H.
  assert (C : NoDup (map fst (sorted (filter (fun c => is_dir (snd c))
                                        (iterdir p (Dir cs)))))).
  { destruct (sorted_spec (filter (fun c => is_dir (snd c)) (iterdir p (Dir cs))))
      as [_ P].
    apply (Permutation_NoDup (Permutation_sym (Permutation_map fst P))).
    now apply NoDup_map_filter. }
  unfold sub_run_dirs.
  destruct (expected_run_prefix h) as [pref|].
  - destruct (filter _ (filter _ _)) eqn:E.
    + now apply NoDup_map_filter.
    + rewrite <- E. now apply NoDup_map_filter, NoDup_map_filter.
  - now apply NoDup_map_filter.
Qed.

(** ** Putting a run directory back *)

Lemma lookup_replace_child n e' cs m :
  lookup m (replace_child n e' cs)
  = if str_eqb n m
    then match lookup n cs with Some _ => Some e' | None => None end
    else lookup m cs.
Proof.
  induction cs as [|[k e] cs IH]; cbn [replace_child lookup].
  - now destruct (str_eqb n m).
  - destruct (str_eqb k n) eqn:E; cbn [lookup].
    + apply str_eqb_eq in E. subst k. now destruct (str_eqb n m).
    + destruct (str_eqb k m) eqn:E2; [|exact IH].
      destruct (str_eqb n m) eqn:E3; [|reflexivity].
      apply str_eqb_eq in E2, E3. subst. rewrite str_eqb_refl in E. discriminate.
Qed.

Lemma replace_child_same n e cs :
  lookup n cs = Some e -> replace_child n e cs = cs.
Proof.
  induction cs as [|[k e'] cs IH]; cbn [replace_child lookup]; [reflexivity|].
  destruct (str_eqb k n) eqn:E.
  - now intros [= ->].
  - intros H. now rewrite IH.
Qed.

Lemma replace_child_same_kind n e e' cs :
  lookup n cs = Some e -> same_kind (n, e) (n, e') ->
  Forall2 same_kind cs (replace_child n e' cs).
Proof.
  intros H K. induction cs as [|[k e0] cs IH]; cbn [replace_child lookup] in *;
    [constructor|].
  destruct (str_eqb k n) eqn:E.
  - apply str_eqb_eq in E. subst k. injection H as ->.
    constructor; [exact K|apply Forall2_same_kind_refl].
  - constructor; [apply same_kind_refl|auto].
Qed.

Lemma put_back_self p rd' root : put_back p p rd' root = rd'.
Proof. unfold put_back. now destruct (list_eq_dec (list_eq_dec ascii_dec) p p). Qed.

Lemma put_back_child p n rd' cs :
  put_back p (child_path p n) rd' (Dir cs) = Dir (replace_child n rd' cs).
Proof.
  unfold put_back.
  destruct (list_eq_dec (list_eq_dec ascii_dec) (child_path p n) p) as [E|_].
  - now apply child_path_neq in E.
  - now rewrite path_name_child.
Qed.

Lemma In_set_dir n f cs m e :
  In (m, e) (set_dir n f cs) ->
  In (m, e) cs \/
  (exists ocs, In (m, Dir ocs) cs /\ e = Dir (f ocs)) \/ e = Dir (f []).
Proof.
  induction cs as [|[k e0] cs IH]; cbn [set_dir].
  - intros [[= <- <-]|[]]. auto.
  - destruct (str_eqb k n) eqn:E.
    + intros [[= <- <-]|H]; [|left; now right].
      destruct e0 as [r l|ocs]; [left; now left|].
      right. left. exists ocs. split; [now left|reflexivity].
    + intros [H|H]; [left; now left|].
      destruct (IH H) as [H1|[(ocs & H1 & H2)|H1]]; auto.
      * left. now right.
      * right. left. exists ocs. split; [now right|exact H2].
Qed.

(** ** The loop over the run directories, a second time *)

Section Again.

Variable json_loads : str -> option value.
Variable json_dumps : value -> str.
Variable ev : env.
Variable p : path.
Variable out_subdir : str.
Variable level_set : level_filter.

#[local] Abbreviation after := (run_dir_after json_loads json_dumps ev).
#[local] Abbreviation filter_rd := (filter_one_run_dir json_loads json_dumps ev).
#[local] Abbreviation loop := (process_run_dirs json_loads json_dumps ev p out_subdir level_set).

Lemma run_dir_after_same_kind n q e :
  same_kind (n, e) (n, after q out_subdir level_set e).
Proof.
  split; [reflexivity|]. cbn [snd]. destruct e as [r l|cs].
  - left. unfold run_dir_after, rd_after. now destruct (mkdir_ok _ _ _ _).
  - right. split; [reflexivity|]. split.
    + now rewrite run_dir_after_is_dir.
    + intros q'. apply run_dir_after_logs.
Qed.

Lemma rd_after_run q e res st :
  filter_rd q e out_subdir level_set = (res, st) ->
  rd_after ev q e out_subdir st = after q out_subdir level_set e.
Proof. intros E. unfold run_dir_after. now rewrite E. Qed.

(** One turn of the loop on the directory the first invocation left. *)
Lemma loop_step_again n e rest1 ts tk reps cs1 :
  lookup n cs1 = Some (after (child_path p n) out_subdir level_set e) ->
  loop ((child_path p n, after (child_path p n) out_subdir level_set e) :: rest1)
       ts tk reps (Dir cs1)
  = match fst (filter_rd (child_path p n) e out_subdir level_set) with
    | None => mkOutcome 1 reps None (Some (Dir cs1))
    | Some (scanned, kept) =>
        loop rest1 (ts + scanned) (tk + kept)
          (reps ++ [mkReport n scanned kept
                      (child_path (child_path p n) out_subdir)])
          (Dir cs1)
    end.
Proof.
  intros H. cbn [process_run_dirs].
  rewrite filter_one_run_dir_again.
  destruct (filter_rd (child_path p n) e out_subdir level_set) as [res st] eqn:E.
  assert (E' : filter_rd (child_path p n)
                 (after (child_path p n) out_subdir level_set e) out_subdir level_set
               = (res, st)).
  { now rewrite filter_one_run_dir_again. }
  rewrite (rd_after_run _ _ E'), run_dir_after_again, put_back_child.
  rewrite (replace_child_same _ _ H), path_name_child. reflexivity.
Qed.

Lemma process_children_again : forall L ts tk reps cs,
  NoDup (map fst L) ->
  (forall q e, In (q, e) L -> exists n, q = child_path p n /\ lookup n cs = Some e) ->
  exists cs1,
    disk (loop L ts tk reps (Dir cs)) = Some (Dir cs1) /\
    Forall2 same_kind cs cs1 /\
    (forall n, ~ In (child_path p n) (map fst L) -> lookup n cs1 = lookup n cs) /\
    (forall L1, map fst L1 = map fst L ->
       (forall q e, In (q, e) L1 ->
          exists n, q = child_path p n /\ lookup n cs1 = Some e) ->
       loop L1 ts tk reps (Dir cs1) = loop L ts tk reps (Dir cs)).
Proof.
  induction L as [|[q e] rest IH]; intros ts tk reps cs ND HL.
  - exists cs. split; [reflexivity|]. split; [apply Forall2_same_kind_refl|].
    split; [reflexivity|]. intros L1 E _. destruct L1; [reflexivity|discriminate].
  - destruct (HL q e (or_introl eq_refl)) as (n & -> & Hn).
    cbn [map fst] in ND. inversion ND as [|? ? Hq ND']; subst.
    set (e' := after (child_path p n) out_subdir level_set e).
    set (cs' := replace_child n e' cs).
    assert (Hn' : lookup n cs' = Some e').
    { unfold cs'. now rewrite lookup_replace_child, str_eqb_refl, Hn. }
    assert (K : Forall2 same_kind cs cs').
    { apply (replace_child_same_kind _ Hn), run_dir_after_same_kind. }
    assert (Hother : forall m, m <> n -> lookup m cs' = lookup m cs).
    { intros m Hm. unfold cs'. rewrite lookup_replace_child.
      destruct (str_eqb n m) eqn:E; [|reflexivity].
      apply str_eqb_eq in E. congruence. }
    assert (Hrest : forall q0 e0, In (q0, e0) rest ->
              exists m, q0 = child_path p m /\ lookup m cs' = Some e0).
    { intros q0 e0 Hin. destruct (HL q0 e0 (or_intror Hin)) as (m & -> & Hm).
      exists m. split; [reflexivity|]. rewrite Hother; [exact Hm|].
      intros ->. apply Hq. apply in_map_iff. now exists (child_path p n, e0). }
    assert (Hfirst : forall L1 cs1, map fst L1 = child_path p n :: map fst rest ->
              lookup n cs1 = Some e' ->
              (forall q0 e0, In (q0, e0) L1 ->
                 exists m, q0 = child_path p m /\ lookup m cs1 = Some e0) ->
              exists rest1, L1 = (child_path p n, e') :: rest1 /\
                            map fst rest1 = map fst rest).
    { intros L1 cs1 E H1 HL1. destruct L1 as [|[q1 e1] rest1]; [discriminate|].
      cbn [map fst] in E. injection E as -> E. exists rest1. split; [|exact E].
      destruct (HL1 _ _ (or_introl eq_refl)) as (m & Em & Hm).
      apply child_path_inj in Em. subst m. congruence. }
    cbn [process_run_dirs].
    destruct (filter_rd (child_path p n) e out_subdir level_set) as [res st] eqn:E.
    rewrite (rd_after_run _ _ E), put_back_child, path_name_child.
    fold e'. fold cs'.
    destruct res as [[scanned kept]|].
    + destruct (IH (ts + scanned) (tk + kept)
                  (reps ++ [mkReport n scanned kept
                              (child_path (child_path p n) out_subdir)])
                  cs' ND' Hrest) as (cs1 & D & K1 & U & A).
      assert (H1 : lookup n cs1 = Some e').
      { rewrite U; [exact Hn'|exact Hq]. }
      exists cs1. split; [exact D|]. split; [eapply Forall2_same_kind_trans; eauto|].
      split.
      * intros m Hm. rewrite U by (intros X; apply Hm; now right).
        apply Hother. intros ->. apply Hm. now left.
      * intros L1 E1 HL1. cbn [map fst] in E1.
        destruct (Hfirst L1 cs1 E1 H1 HL1) as (rest1 & -> & Er).
        unfold e'. rewrite loop_step_again by exact H1. rewrite E. cbn [fst].
        apply A; [exact Er|].
        intros q0 e0 Hin. apply HL1. now right.
    + exists cs'. split; [reflexivity|]. split; [exact K|]. split.
      * intros m Hm. apply Hother. intros ->. apply Hm. now left.
      * intros L1 E1 HL1. cbn [map fst] in E1.
        destruct (Hfirst L1 cs' E1 Hn' HL1) as (rest1 & -> & Er).
        unfold e'. rewrite loop_step_again by exact Hn'. rewrite E. reflexivity.
Qed.

(** The top directory as the one run directory. *)
Lemma run_dir_after_children cs cs2 n e2 :
  after p out_subdir level_set (Dir cs) = Dir cs2 ->
  In (n, e2) cs2 -> is_dir e2 = true ->
  looks_like_run_dir (child_path p n) e2 = true ->
  exists e, In (n, e) cs /\ is_dir e = true /\
            looks_like_run_dir (child_path p n) e = true.
Proof.
  unfold run_dir_after, rd_after.
  pose proof (named_filter_one_run_dir json_loads json_dumps ev p (Dir cs)
                out_subdir level_set) as Hs.
  destruct (mkdir_ok _ _ _ _).
  - intros [= <-] Hin Hd Hl.
    destruct (In_set_dir _ _ _ _ _ Hin) as [H | [ (ocs & H & ->) | -> ] ].
    + now exists e2.
    + exists (Dir ocs). split; [exact H|]. split; [reflexivity|].
      rewrite looks_like_run_dir_logs in *. now rewrite commit_logs in Hl.
    + rewrite looks_like_run_dir_logs, commit_logs in Hl by exact Hs.
      discriminate.
  - intros [= <-] Hin Hd Hl. now exists e2.
Qed.

Lemma fallback_again h cs :
  sub_run_dirs h p (Dir cs) = [] ->
  looks_like_run_dir p (Dir cs) = true ->
  find_run_dirs h p (after p out_subdir level_set (Dir cs))
  = [(p, after p out_subdir level_set (Dir cs))].
Proof.
  intros S L. rewrite find_run_dirs_sub, run_dir_after_looks, L.
  rewrite sub_run_dirs_nil; [reflexivity|].
  intros [q e2] Hin Hd. cbn [fst snd] in *.
  destruct (after p out_subdir level_set (Dir cs)) as [r l|cs2] eqn:E;
    [destruct Hin|].
  apply In_iterdir in Hin. destruct Hin as (n & e & [= -> ->] & Hin).
  destruct (looks_like_run_dir (child_path p n) e) eqn:El; [|reflexivity].
  destruct (@run_dir_after_children cs cs2 n e E Hin Hd El) as (e0 & H0 & D0 & L0).
  rewrite <- L0. apply (sub_run_dirs_nil_inv h p (Dir cs) (child_path p n, e0) S);
    [|exact D0].
  apply In_iterdir. now exists n, e0.
Qed.

End Again.

(** Claim C9.  An invocation on the directory that an invocation with the
    same hints, levels and output name has left, in the same environment,
    ends with the same status, prints the same counts per run directory
    and the same totals, and leaves the directory, with every output file
    in it, as it found it: the output of the first invocation is replaced
    by the same lines, not added to. *)
Theorem C9_second_invocation_changes_nothing
    json_loads json_dumps ev h levels out_subdir run_id_dir at_path :
  distinct_names at_path ->
  main json_loads json_dumps ev h levels out_subdir run_id_dir
    (disk (main json_loads json_dumps ev h levels out_subdir run_id_dir at_path))
  = main json_loads json_dumps ev h levels out_subdir run_id_dir at_path.
Proof.
  intros ND. destruct at_path as [[r l|cs]|]; try reflexivity.
  cbn [distinct_names] in ND. unfold main at 2 3.
  set (lv := level_set_of_arg levels).
  rewrite find_run_dirs_sub.
  destruct (sub_run_dirs h run_id_dir (Dir cs)) as [|x L] eqn:S.
  - destruct (looks_like_run_dir run_id_dir (Dir cs)) eqn:Lk.
    + cbn [process_run_dirs].
      destruct (filter_one_run_dir json_loads json_dumps ev run_id_dir (Dir cs)
                  out_subdir lv) as [res st] eqn:E.
      rewrite (@rd_after_run json_loads json_dumps ev out_subdir lv _ _ _ _ E),
        put_back_self.
      pose proof (run_dir_after_is_dir json_loads json_dumps ev run_id_dir
                    out_subdir lv (Dir cs)) as D.
      pose proof (@fallback_again json_loads json_dumps ev run_id_dir out_subdir lv
                    h cs S Lk) as F.
      pose proof (filter_one_run_dir_again json_loads json_dumps ev run_id_dir
                    out_subdir lv (Dir cs)) as A.
      pose proof (run_dir_after_again json_loads json_dumps ev run_id_dir
                    out_subdir lv (Dir cs)) as A2.
      rewrite E in A.
      destruct (run_dir_after json_loads json_dumps ev run_id_dir out_subdir lv
                  (Dir cs)) as [r l|cs2] eqn:E2; [discriminate|].
      assert (G : main json_loads json_dumps ev h levels out_subdir run_id_dir
                    (Some (Dir cs2))
                  = match res with
                    | None => mkOutcome 1 [] None (Some (Dir cs2))
                    | Some (scanned, kept) =>
                        mkOutcome 0
                          ([] ++ [mkReport (path_name run_id_dir) scanned kept
                                    (child_path run_id_dir out_subdir)])
                          (Some (0 + scanned, 0 + kept)) (Some (Dir cs2))
                    end).
      { unfold main. fold lv. rewrite F. cbn [process_run_dirs]. rewrite A.
        rewrite (@rd_after_run json_loads json_dumps ev out_subdir lv _ _ _ _ A),
          A2, put_back_self.
        destruct res as [[scanned kept]|]; reflexivity. }
      destruct res as [[scanned kept]|]; cbn [process_run_dirs disk]; exact G.
    + cbn [process_run_dirs disk]. unfold main. fold lv.
      rewrite find_run_dirs_sub, S, Lk. reflexivity.
  - rewrite <- S.
    destruct (@process_children_again json_loads json_dumps ev run_id_dir out_subdir
                lv (sub_run_dirs h run_id_dir (Dir cs)) 0 0 [] cs)
      as (cs1 & D & K & _ & A).
    + now apply NoDup_sub_run_dirs.
    + intros q e Hin. apply sub_run_dirs_incl in Hin. destruct Hin as (Hin & _).
      apply In_iterdir in Hin. destruct Hin as (n & e0 & [= -> ->] & Hin).
      exists n. split; [reflexivity|]. now apply NoDup_lookup.
    + rewrite D. unfold main. fold lv. rewrite find_run_dirs_sub.
      pose proof (@sub_run_dirs_same h run_id_dir (Dir cs) (Dir cs1)
                    (same_kind_iterdir run_id_dir K)) as R.
      assert (ND1 : NoDup (map fst cs1)) by (now rewrite (same_kind_names K)).
      destruct (sub_run_dirs h run_id_dir (Dir cs1)) as [|y L1] eqn:S1.
      * rewrite S in R. inversion R.
      * rewrite <- S1 in *. apply A.
        -- now apply same_run_paths.
        -- intros q e Hin. apply sub_run_dirs_incl in Hin. destruct Hin as (Hin & _).
           apply In_iterdir in Hin. destruct Hin as (n & e0 & [= -> ->] & Hin).
           exists n. split; [reflexivity|]. now apply NoDup_lookup.
Qed.

Lemma C9_second_invocation_changes_nothing_witness :
  distinct_names (Some ex_root) /\
  main json_loads_basic json_dumps_basic reliable_env no_hints None (py "filtered")
    ex_root_path
    (disk (main json_loads_basic json_dumps_basic reliable_env no_hints None
             (py "filtered") ex_root_path (Some ex_root)))
  = main json_loads_basic json_dumps_basic reliable_env no_hints None (py "filtered")
      ex_root_path (Some ex_root).
Proof.
  assert (ND : distinct_names (Some ex_root)).
  { cbn. constructor; [intros []|constructor]. }
  split; [exact ND|].
  exact (C9_second_invocation_changes_nothing json_loads_basic json_dumps_basic
           reliable_env no_hints None (py "filtered") ex_root_path (Some ex_root) ND).
Defined.

(* ================================================================== *)
(** * Further properties of the program *)

(** ** Discovery *)

Lemma looks_like_child p e q d :
  In (q, d) (iterdir p e) ->
  looks_like_run_dir q d = true -> looks_like_run_dir p e = true.
Proof.
  destruct e as [r l|cs]; [intros []|]. intros Hin.
  apply In_iterdir in Hin. destruct Hin as (n & e0 & [= -> ->] & Hin).
  rewrite !looks_like_run_dir_logs, iter_log_files_Dir.
  destruct (iter_log_files (child_path p n) e0) as [|x l] eqn:E; [discriminate|].
  intros _.
  destruct (flat_map (fun c => iter_log_files (child_path p (fst c)) (snd c)) cs)
    as [|y l'] eqn:F.
  - assert (Hx : In x (flat_map (fun c => iter_log_files (child_path p (fst c)) (snd c)) cs)).
    { apply in_flat_map. exists (n, e0). split; [exact Hin|].
      cbn [fst snd]. rewrite E. now left. }
    rewrite F in Hx. destruct Hx.
  - now destruct (flat_map (own_logs p) cs).
Qed.

Lemma looks_like_is_dir p e : looks_like_run_dir p e = true -> is_dir e = true.
Proof. now destruct e. Qed.

Lemma find_run_dirs_nil_iff h p e :
  find_run_dirs h p e = [] <-> iter_log_files p e = [].
Proof.
  rewrite find_run_dirs_sub. split.
  - destruct (sub_run_dirs h p e); [|discriminate].
    rewrite looks_like_run_dir_logs.
    now destruct (iter_log_files p e).
  - intros E.
    assert (L : looks_like_run_dir p e = false).
    { now rewrite looks_like_run_dir_logs, E. }
    rewrite sub_run_dirs_nil, L; [reflexivity|].
    intros [q d] Hin _. cbn [fst snd].
    destruct (looks_like_run_dir q d) eqn:Lq; [|reflexivity].
    rewrite (@looks_like_child p e q d Hin Lq) in L. discriminate.
Qed.

(** X1.  [find_run_dirs] finds no run directory exactly when no file named
    like a node log lies anywhere below the directory, whatever the hints:
    the message about missing run directories is printed in that case and
    in no other. *)
Theorem X1_no_run_dir_iff_no_node_log h run_id_dir e :
  find_run_dirs h run_id_dir e = [] <-> iter_log_files run_id_dir e = [].
Proof. apply find_run_dirs_nil_iff. Qed.

(** X2.  Every run directory that [find_run_dirs] returns is a directory
    with at least one node log below it; it is an entry of the top
    directory, or it is the top directory itself and then the only one
    returned. *)
Theorem X2_run_dirs_hold_node_logs h run_id_dir e q d :
  In (q, d) (find_run_dirs h run_id_dir e) ->
  is_dir d = true /\ iter_log_files q d <> [] /\
  (In (q, d) (iterdir run_id_dir e) \/
   ((q, d) = (run_id_dir, e) /\ find_run_dirs h run_id_dir e = [(run_id_dir, e)])).
Proof.
  rewrite find_run_dirs_sub.
  assert (G : forall q d, looks_like_run_dir q d = true ->
                          is_dir d = true /\ iter_log_files q d <> []).
  { intros q0 d0 L. split; [now apply (@looks_like_is_dir q0)|].
    rewrite looks_like_run_dir_logs in L. now destruct (iter_log_files q0 d0). }
  destruct (sub_run_dirs h run_id_dir e) as [|x l] eqn:S.
  - destruct (looks_like_run_dir run_id_dir e) eqn:L; [|intros []].
    intros [[= <- <-]|[]]. destruct (G _ _ L) as [D N].
    split; [exact D|]. split; [exact N|]. right. split; reflexivity.
  - rewrite <- S. intros Hin. apply sub_run_dirs_incl in Hin.
    cbn [fst snd] in Hin. destruct Hin as (Hin & _ & L).
    destruct (G _ _ L) as [D N]. auto.
Qed.

Lemma X2_run_dirs_hold_node_logs_witness :
  In (ex_run_path, ex_run_dir) (find_run_dirs no_hints ex_root_path ex_root) /\
  is_dir ex_run_dir = true /\ iter_log_files ex_run_path ex_run_dir <> [].
Proof.
  assert (H : In (ex_run_path, ex_run_dir) (find_run_dirs no_hints ex_root_path ex_root)).
  { vm_compute. left. reflexivity. }
  split; [exact H|].
  destruct (@X2_run_dirs_hold_node_logs no_hints ex_root_path ex_root
              ex_run_path ex_run_dir H) as (D & N & _).
  split; [exact D|exact N].
Defined.

(** X3.  When no file named like a node log lies below the directory,
    [main] makes nothing: no output directory is created, no report is
    printed, the totals are 0 and 0 and the status is 0. *)
Theorem X3_main_without_node_logs
    json_loads json_dumps ev h levels out_subdir run_id_dir cs :
  iter_log_files run_id_dir (Dir cs) = [] ->
  main json_loads json_dumps ev h levels out_subdir run_id_dir (Some (Dir cs))
  = mkOutcome 0 [] (Some (0, 0)) (Some (Dir cs)).
Proof.
  intros E. unfold main.
  now rewrite (proj2 (find_run_dirs_nil_iff h run_id_dir (Dir cs)) E).
Qed.

Lemma X3_main_without_node_logs_witness :
  main json_loads_basic json_dumps_basic reliable_env no_hints None (py "filtered")
    ex_root_path
    (Some (Dir [(py "notes", Dir [(py "readme.txt", File true [py "Vote"])])]))
  = mkOutcome 0 [] (Some (0, 0))
      (Some (Dir [(py "notes", Dir [(py "readme.txt", File true [py "Vote"])])])).
Proof.
  apply X3_main_without_node_logs. vm_compute. reflexivity.
Defined.

(** ** The names of the node logs, both ways *)

Lemma digits_then_period a : forall b x y,
  forallb is_digit a = true -> forallb is_digit b = true ->
  a ++ "."%char :: x = b ++ "."%char :: y -> a = b /\ x = y.
Proof.
  induction a as [|c a IH]; intros [|c' b] x y Ha Hb E; cbn in *.
  - injection E as ->. auto.
  - injection E as <- _. apply andb_true_iff in Hb as [Hb _]. discriminate Hb.
  - injection E as -> _. apply andb_true_iff in Ha as [Ha _]. discriminate Ha.
  - injection E as <- E. apply andb_true_iff in Ha as [_ Ha].
    apply andb_true_iff in Hb as [_ Hb].
    destruct (IH b x y Ha Hb E) as [-> ->]. auto.
Qed.

Lemma same_length_prefix {A} (a : list A) : forall b x y,
  length a = length b -> a ++ x = b ++ y -> a = b /\ x = y.
Proof.
  induction a as [|c a IH]; intros [|c' b] x y L E; cbn in *; try discriminate; auto.
  injection E as -> E. injection L as L. destruct (IH b x y L E) as [-> ->]. auto.
Qed.

Lemma stem_length stem :
  map lower stem = py "stdout" \/ map lower stem = py "stderr" -> length stem = 6.
Proof.
  intros [H|H]; apply (f_equal (@length ascii)) in H; now rewrite length_map in H.
Qed.

Lemma log_name_shape_unique name a b :
  log_name_shape name a -> log_name_shape name b -> a = b.
Proof.
  intros (stem & digits & ext & nl & E & Hs & _ & Hd & _ & -> & _)
         (stem' & digits' & ext' & nl' & E' & Hs' & _ & Hd' & _ & -> & _).
  rewrite E in E'.
  apply same_length_prefix in E' as [_ E'];
    [|now rewrite (@stem_length stem Hs), (@stem_length stem' Hs')].
  injection E' as E'. apply digits_then_period in E' as [-> _]; auto.
Qed.

Lemma log_name_shape_matches name node_id :
  log_name_shape name node_id -> run NODE_FROM_FILENAME_RE [] name <> [].
Proof.
  intros (stem & digits & ext & nl & -> & Hs & Hne & Hd & He & _ & Hnl).
  assert (H : In ([("2"%string, digits); ("1"%string, stem)], nl)
                (run NODE_FROM_FILENAME_RE []
                   (stem ++ "_"%char :: digits ++ "."%char :: ext ++ nl))).
  { unfold NODE_FROM_FILENAME_RE. cbn [cat].
    apply in_run_Cat. exists [("1"%string, stem)], ("_"%char :: digits ++ "."%char :: ext ++ nl).
    split.
    { apply in_run_Grp. exists [], stem. split; [|auto].
      apply in_run_Alt. destruct Hs as [Hs|Hs]; [left|right];
        apply in_run_liti; (split; [reflexivity|]); now exists stem. }
    apply in_run_Cat. exists [("1"%string, stem)], (digits ++ "."%char :: ext ++ nl). split.
    { apply in_run_LitI. split; [reflexivity|]. now exists "_"%char. }
    apply in_run_Cat.
    exists [("2"%string, digits); ("1"%string, stem)], ("."%char :: ext ++ nl). split.
    { apply in_run_Grp. exists [("1"%string, stem)], digits. split; [|auto].
      apply in_run_Plus. split; [reflexivity|]. now exists digits. }
    apply in_run_Cat. exists [("2"%string, digits); ("1"%string, stem)], (ext ++ nl). split.
    { apply in_run_LitI. split; [reflexivity|]. now exists "."%char. }
    apply in_run_Cat. exists [("2"%string, digits); ("1"%string, stem)], nl. split.
    { apply in_run_liti. split; [reflexivity|]. now exists ext. }
    apply in_run_Cat. exists [("2"%string, digits); ("1"%string, stem)], nl. split.
    { apply in_run_Eos. split; [reflexivity|]. split; [reflexivity|].
      destruct Hnl as [->| ->]; reflexivity. }
    apply in_run_Eps. auto. }
  intros E. rewrite E in H. destruct H.
Qed.


(** ** The layout of a record *)

Lemma dict_set_fresh k v d :
  ~ In k (map fst d) -> dict_set k v d = d ++ [(k, v)].
Proof.
  induction d as [|[k' v'] d IH]; cbn [dict_set map fst In app]; intros H;
    [reflexivity|].
  destruct (str_eqb k' k) eqn:E.
  - apply str_eqb_eq in E. subst. exfalso. apply H. now left.
  - rewrite IH; [reflexivity|]. intros X. apply H. now right.
Qed.

Lemma common_keys o ks k :
  In k (map fst (flat_map (fun k => match dict_get k o with
                                    | Some v => [(k, v)]
                                    | None => []
                                    end) ks)) -> In k ks.
Proof.
  induction ks as [|k0 ks IH]; cbn [flat_map]; [intros []|].
  rewrite map_app, in_app_iff. intros [H|H]; [|right; auto].
  revert H. destruct (dict_get k0 o); [|intros []]. intros [<-|[]]. now left.
Qed.

Lemma copy_fresh o ks : forall out,
  NoDup ks -> (forall k, In k ks -> ~ In k (map fst out)) ->
  fold_left (copy_field o) ks out
  = out ++ flat_map (fun k => match dict_get k o with
                              | Some v => [(k, v)]
                              | None => []
                              end) ks.
Proof.
  induction ks as [|k0 ks IH]; intros out ND H; cbn [fold_left flat_map].
  - now rewrite app_nil_r.
  - inversion ND as [|? ? N0 ND']; subst. unfold copy_field at 2.
    destruct (dict_get k0 o) as [v|].
    + rewrite dict_set_fresh by (apply H; now left).
      rewrite IH; [now rewrite <- app_assoc|exact ND'|].
      intros k Hk. rewrite map_app, in_app_iff. intros [X|[<-|[]]].
      * apply (H k); [now right|exact X].
      * contradiction.
    + apply IH; [exact ND'|]. intros k Hk. apply H. now right.
Qed.

Lemma COMMON_FIELDS_NoDup : NoDup COMMON_FIELDS.
Proof.
  vm_compute.
  repeat (constructor;
          [intros H; repeat (destruct H as [H|H]; [discriminate H|]); exact H|]).
  constructor.
Qed.

Ltac fresh_key :=
  rewrite ?map_app, ?in_app_iff; vm_compute;
  intros H; repeat (destruct H as [H|H]; try discriminate H); try exact H.

Lemma build_record_layout d payload :
  build_record d payload = base_record d ++ payload_entries payload.
Proof.
  unfold build_record, payload_entries. cbv zeta.
  destruct payload as [| b | z | x | s | l | o];
    cbn [is_none attach_json event_of late_event attach_event attach_common];
    try (rewrite dict_set_fresh by fresh_key; now rewrite app_nil_r).
  - now rewrite !app_nil_r.
  - assert (Ev : (if is_none (if dict_in (py "event") o then get (py "event") o else VNone)
                  then get (py "event") o
                  else if dict_in (py "event") o then get (py "event") o else VNone)
                 = get (py "event") o).
    { unfold dict_in, get. destruct (dict_get (py "event") o) as [v|]; [|reflexivity].
      now destruct v. }
    rewrite Ev. clear Ev. rewrite dict_set_fresh by fresh_key.
    unfold get. destruct (dict_get (py "event") o) as [[| b | z | x | e | l | o']|];
      cbn [attach_event];
      try (rewrite copy_fresh;
           [now rewrite <- ?app_assoc
           |apply COMMON_FIELDS_NoDup
           |intros k Hk; revert k Hk; apply Forall_forall;
            repeat (constructor; [fresh_key|]); constructor]).
Qed.

Lemma payload_entries_keys payload k :
  In k (map fst (payload_entries payload)) ->
  k = py "json" \/ k = py "event" \/ In k COMMON_FIELDS.
Proof.
  unfold payload_entries. rewrite map_app, in_app_iff. intros [H|H].
  - revert H. destruct (is_none payload); [intros []|].
    intros [<-|[]]. now left.
  - destruct payload as [| b | z | x | s | l | o]; try destruct H.
    rewrite map_app, in_app_iff in H. destruct H as [H|H].
    + revert H.
      destruct (dict_get (py "event") o) as [[| b | z | x | e | l | o']|];
        try solve [intros []]. intros [<-|[]]. right. now left.
    + right. right. exact (common_keys _ _ _ H).
Qed.

Lemma enrich_layout d payload f run_name node_id :
  enrich (build_record d payload) f run_name node_id
  = build_record d payload ++ provenance f run_name node_id.
Proof.
  assert (K : forall k, In k (map fst (build_record d payload)) ->
                        In k (map fst (base_record d)) \/ k = py "json" \/
                        k = py "event" \/ In k COMMON_FIELDS).
  { intros k. rewrite build_record_layout, map_app, in_app_iff.
    intros [H|H]; [now left|right; now apply (@payload_entries_keys payload)]. }
  unfold enrich, provenance.
  assert (F : forall k, (~ In k (map fst (base_record d)) /\ k <> py "json" /\
                         k <> py "event" /\ ~ In k COMMON_FIELDS) ->
                        ~ In k (map fst (build_record d payload))).
  { intros k (A & B & C & D) H. destruct (K k H) as [X|[X|[X|X]]]; auto. }
  rewrite (@dict_set_fresh (py "source_file")).
  2:{ apply F. repeat split; try discriminate; fresh_key. }
  rewrite (@dict_set_fresh (py "run_dir")).
  2:{ rewrite map_app, in_app_iff. intros [H|H].
      - revert H. apply F. repeat split; try discriminate; fresh_key.
      - revert H. fresh_key. }
  rewrite (@dict_set_fresh (py "node")).
  2:{ rewrite !map_app, !in_app_iff. intros [[H|H]|H].
      - revert H. apply F. repeat split; try discriminate; fresh_key.
      - revert H. fresh_key.
      - revert H. fresh_key. }
  now rewrite <- !app_assoc.
Qed.

(** X5.  The record of a kept line has the six fields of the log prefix in
    the order ts, thread, level, target, line, msg; then, when a payload was
    decoded, [json]; then [event] when the payload has a string for it; then
    the common fields that the payload has, in the order of the program's
    list.  [write_record] adds source_file, run_dir and node after them and
    changes no field of the record. *)
Theorem X5_record_layout json_loads line r :
  parse_line json_loads line = Some r ->
  exists d,
    re_match LINE_RE (rstrip_nl line) = Some d /\
    r = base_record d ++ payload_entries (payload_of json_loads (group "msg" d)) /\
    forall f run_name node_id,
      enrich r f run_name node_id = r ++ provenance f run_name node_id.
Proof.
  unfold parse_line.
  destruct (re_match LINE_RE (rstrip_nl line)) as [d|]; [|discriminate].
  cbv zeta. destruct (keep_line _ _); [|discriminate].
  intros [= <-]. exists d. split; [reflexivity|].
  split; [apply build_record_layout|]. intros. apply enrich_layout.
Qed.

Lemma X5_record_layout_witness :
  exists r,
    parse_line json_loads_basic ex_line_vote = Some r /\
    map fst (enrich r ex_run_path (py "aptos-localnet_pct_0") 1)
    = map py [ "ts"; "thread"; "level"; "target"; "line"; "msg"; "json"; "event";
               "epoch"; "round"; "source_file"; "run_dir"; "node" ]%string.
Proof.
  destruct (parse_line json_loads_basic ex_line_vote) as [r|] eqn:E;
    [|vm_compute in E; discriminate E].
  exists r. split; [reflexivity|].
  destruct (X5_record_layout json_loads_basic ex_line_vote E) as (d & M & -> & P).
  rewrite P. vm_compute in M. injection M as <-. vm_compute. reflexivity.
Defined.

(** ** What [main] reports *)

Lemma process_run_dirs_reports json_loads json_dumps ev run_id_dir out_subdir level_set :
  forall run_dirs ts tk reps root,
  let o := process_run_dirs json_loads json_dumps ev run_id_dir out_subdir level_set
             run_dirs ts tk reps root in
  exists done rest,
    run_dirs = done ++ rest /\
    map report_dirs (reports o)
    = map report_dirs reps ++ map (run_dir_dirs out_subdir) done /\
    ((exit_status o = 0 /\ rest = [] /\ totals o <> None) \/
     (exit_status o = 1 /\ totals o = None /\
      exists x rest', rest = x :: rest' /\
        fst (filter_one_run_dir json_loads json_dumps ev (fst x) (snd x)
               out_subdir level_set) = None)).
Proof.
  induction run_dirs as [|[q d] L IH]; intros ts tk reps root; cbv zeta.
  - exists [], []. cbn. rewrite app_nil_r. split; [reflexivity|].
    split; [reflexivity|]. left. repeat split. discriminate.
  - cbn [process_run_dirs].
    destruct (filter_one_run_dir json_loads json_dumps ev q d out_subdir level_set)
      as [[[s k]|] st] eqn:E.
    + specialize (IH (ts + s) (tk + k)
                     (reps ++ [mkReport (path_name q) s k (child_path q out_subdir)])
                     (put_back run_id_dir q (rd_after ev q d out_subdir st) root)).
      cbv zeta in IH. destruct IH as (done & rest & -> & R & S).
      exists ((q, d) :: done), rest. split; [reflexivity|]. split; [|exact S].
      rewrite R, map_app, <- app_assoc. reflexivity.
    + exists [], ((q, d) :: L). cbn. rewrite app_nil_r. split; [reflexivity|].
      split; [reflexivity|]. right. repeat split.
      exists (q, d), L. cbn [fst snd]. now rewrite E.
Qed.

(** X6.  [main] ends with status 2 exactly when the path is no directory,
    and then reports nothing and touches nothing.  Otherwise it reports the
    run directories in the order of [find_run_dirs], each with its name and
    its output directory [rd / out_subdir]; it prints the totals and ends
    with status 0 when every one has been reported, and ends with status 1,
    without totals, at the first one in which [filter_one_run_dir] raises. *)
Theorem X6_main_reports_run_dirs_in_order
    json_loads json_dumps ev h levels out_subdir run_id_dir at_path :
  let o := main json_loads json_dumps ev h levels out_subdir run_id_dir at_path in
  (exit_status o = 2 <-> forall cs, at_path <> Some (Dir cs)) /\
  (exit_status o = 2 -> reports o = [] /\ totals o = None /\ disk o = at_path) /\
  (totals o <> None <-> exit_status o = 0) /\
  (forall cs, at_path = Some (Dir cs) ->
     exists done rest,
       find_run_dirs h run_id_dir (Dir cs) = done ++ rest /\
       map report_dirs (reports o) = map (run_dir_dirs out_subdir) done /\
       ((exit_status o = 0 /\ rest = []) \/
        (exit_status o = 1 /\
         exists x rest', rest = x :: rest' /\
           fst (filter_one_run_dir json_loads json_dumps ev (fst x) (snd x)
                  out_subdir (level_set_of_arg levels)) = None))).
Proof.
  cbv zeta. unfold main.
  destruct at_path as [[r l|cs]|].
  - cbn. repeat split; try discriminate; try congruence.
  - pose proof (process_run_dirs_reports json_loads json_dumps ev run_id_dir
                  out_subdir (level_set_of_arg levels)
                  (find_run_dirs h run_id_dir (Dir cs)) 0 0 [] (Dir cs)) as P.
    cbv zeta in P. destruct P as (done & rest & E & R & S).
    set (o := process_run_dirs json_loads json_dumps ev run_id_dir out_subdir
                (level_set_of_arg levels) (find_run_dirs h run_id_dir (Dir cs))
                0 0 [] (Dir cs)) in *.
    assert (N2 : exit_status o <> 2).
    { destruct S as [(S & _)|(S & _)]; rewrite S; discriminate. }
    split; [|split; [|split]].
    + split; [intros H; contradiction|]. intros H. exfalso. now apply (H cs).
    + intros H. contradiction.
    + destruct S as [(S0 & _ & T)|(S1 & T & _)].
      * split; auto.
      * rewrite S1, T. split; [intros H; now contradiction H|discriminate].
    + intros cs' [= <-]. exists done, rest. split; [exact E|]. split; [exact R|].
      destruct S as [(S0 & Hr & _)|(S1 & _ & X)]; [left|right]; auto.
  - cbn. repeat split; try discriminate; try congruence.
Qed.

Lemma process_run_dirs_reliable json_loads json_dumps ev run_id_dir out_subdir level_set :
  reliable ev ->
  forall run_dirs ts tk reps root,
  (forall q d, In (q, d) run_dirs -> nothing_in_the_way d out_subdir) ->
  let o := process_run_dirs json_loads json_dumps ev run_id_dir out_subdir level_set
             run_dirs ts tk reps root in
  let rs := map (expected_report json_loads level_set out_subdir) run_dirs in
  exit_status o = 0 /\
  reports o = reps ++ rs /\
  totals o = Some (ts + total_scanned rs, tk + total_kept rs).
Proof.
  intros Hrel. induction run_dirs as [|[q d] L IH]; intros ts tk reps root Hway; cbv zeta.
  - cbn. rewrite app_nil_r, !Nat.add_0_r. auto.
  - cbn [process_run_dirs].
    destruct (@filter_one_run_dir_reliable json_loads json_dumps ev q d out_subdir
                level_set Hrel (Hway q d (or_introl eq_refl)))
      as (st & E & _).
    rewrite E.
    specialize (IH (ts + lines_read (iter_log_files q d))
                   (tk + length (kept_records json_loads level_set (iter_log_files q d)))
                   (reps ++ [mkReport (path_name q) (lines_read (iter_log_files q d))
                               (length (kept_records json_loads level_set
                                          (iter_log_files q d)))
                               (child_path q out_subdir)])
                   (put_back run_id_dir q (rd_after ev q d out_subdir st) root)
                   (fun q0 d0 H => Hway q0 d0 (or_intror H))).
    cbv zeta in IH. destruct IH as (S & R & T).
    split; [exact S|]. split.
    + rewrite R, <- app_assoc. reflexivity.
    + rewrite T. cbn [map]. unfold total_scanned, total_kept.
      cbn [fold_right expected_report rep_scanned rep_kept fst snd].
      f_equal. f_equal; lia.
Qed.



(** ** What a run leaves alone *)

(** X8.  [main] reads the node logs and never changes them: whatever the
    operating system refuses, and whatever the name of the output
    directory, the node logs found below any path in the directory that
    [main] leaves are those found there before, with the same lines. *)
Theorem X8_node_logs_are_left_alone
    json_loads json_dumps ev h levels out_subdir run_id_dir cs :
  NoDup (map fst cs) ->
  exists cs',
    disk (main json_loads json_dumps ev h levels out_subdir run_id_dir (Some (Dir cs)))
    = Some (Dir cs') /\
    forall q, iter_log_files q (Dir cs') = iter_log_files q (Dir cs).
Proof.
  intros ND. unfold main. set (lv := level_set_of_arg levels).
  rewrite find_run_dirs_sub.
  destruct (sub_run_dirs h run_id_dir (Dir cs)) as [|x L] eqn:S.
  - destruct (looks_like_run_dir run_id_dir (Dir cs)) eqn:Lk.
    + cbn [process_run_dirs].
      destruct (filter_one_run_dir json_loads json_dumps ev run_id_dir (Dir cs)
                  out_subdir lv) as [res st] eqn:E.
      rewrite (@rd_after_run json_loads json_dumps ev out_subdir lv _ _ _ _ E),
        put_back_self.
      pose proof (run_dir_after_is_dir json_loads json_dumps ev run_id_dir
                    out_subdir lv (Dir cs)) as D.
      pose proof (fun q => run_dir_after_logs json_loads json_dumps ev run_id_dir
                    out_subdir lv (Dir cs) q) as G.
      destruct (run_dir_after json_loads json_dumps ev run_id_dir out_subdir lv
                  (Dir cs)) as [r l|cs2]; [discriminate|].
      exists cs2. split; [|exact G].
      destruct res as [[s k]|]; reflexivity.
    + exists cs. split; reflexivity.
  - rewrite <- S.
    destruct (@process_children_again json_loads json_dumps ev run_id_dir out_subdir
                lv (sub_run_dirs h run_id_dir (Dir cs)) 0 0 [] cs)
      as (cs1 & D & K & _).
    + now apply NoDup_sub_run_dirs.
    + intros q e Hin. apply sub_run_dirs_incl in Hin. destruct Hin as (Hin & _).
      apply In_iterdir in Hin. destruct Hin as (n & e0 & [= -> ->] & Hin).
      exists n. split; [reflexivity|]. now apply NoDup_lookup.
    + exists cs1. split; [exact D|]. intros q. now apply same_kind_logs.
Qed.

Lemma X8_node_logs_are_left_alone_witness :
  exists cs',
    disk (main json_loads_basic json_dumps_basic ex_env_refusing no_hints None
            (py "filtered") ex_root_path (Some ex_root)) = Some (Dir cs') /\
    iter_log_files ex_root_path (Dir cs') = iter_log_files ex_root_path ex_root.
Proof.
  assert (ND : NoDup (map fst [(py "aptos-localnet_pct_0", ex_run_dir)])).
  { cbn. constructor; [intros []|constructor]. }
  destruct (@X8_node_logs_are_left_alone json_loads_basic json_dumps_basic
              ex_env_refusing no_hints None (py "filtered") ex_root_path _ ND)
    as (cs' & D & G).
  exists cs'. split; [exact D|apply G].
Defined.

Lemma sink_get_None_names m s :
  sink_get m s = None -> forall c, ~ In (m, c) s.
Proof.
  induction s as [|[n c0] s IH]; cbn [sink_get]; intros H c; [intros []|].
  destruct (str_eqb n m) eqn:E; [discriminate|].
  intros [[= -> _]|X]; [now rewrite str_eqb_refl in E|]. now apply (IH H c).
Qed.

Lemma lookup_commit_other m s : forall cs,
  (forall c, ~ In (m, c) s) -> lookup m (commit s cs) = lookup m cs.
Proof.
  induction s as [|[n c] s IH]; intros cs H; [reflexivity|].
  cbn [commit fold_left fst snd]. fold (commit s (set_file n c cs)).
  rewrite IH by (intros c0 X; apply (H c0); now right).
  rewrite lookup_set_file. destruct (str_eqb n m) eqn:E; [|reflexivity].
  apply str_eqb_eq in E. subst n. exfalso. apply (H c). now left.
Qed.

Lemma lookup_set_file_dir n c cs m ocs :
  lookup m cs = Some (Dir ocs) -> lookup m (set_file n c cs) = Some (Dir ocs).
Proof.
  intros H. rewrite lookup_set_file. destruct (str_eqb n m) eqn:E; [|exact H].
  apply str_eqb_eq in E. subst n. now rewrite H.
Qed.

Lemma lookup_commit_dir s : forall cs m ocs,
  lookup m cs = Some (Dir ocs) -> lookup m (commit s cs) = Some (Dir ocs).
Proof.
  induction s as [|[n c] s IH]; intros cs m ocs H; [exact H|].
  cbn [commit fold_left fst snd]. fold (commit s (set_file n c cs)).
  now apply IH, lookup_set_file_dir.
Qed.

Lemma out_children_after json_loads json_dumps ev run_dir out_subdir level_set rd :
  out_children (run_dir_after json_loads json_dumps ev run_dir out_subdir level_set rd)
    out_subdir
  = if mkdir_ok ev run_dir rd out_subdir
    then commit (sinks (snd (filter_one_run_dir json_loads json_dumps ev run_dir rd
                               out_subdir level_set)))
           (out_children rd out_subdir)
    else out_children rd out_subdir.
Proof.
  unfold run_dir_after, rd_after.
  destruct (mkdir_ok ev run_dir rd out_subdir) eqn:M; [|reflexivity].
  destruct rd as [r l|cs]; [discriminate|].
  unfold out_children. rewrite lookup_set_dir. unfold mkdir_ok in M.
  destruct (lookup out_subdir cs) as [[r l|ocs]|]; [discriminate|reflexivity|reflexivity].
Qed.


Example stale_node_file_stays :
  let rd := Dir [ (py "stdout_0.log", File true [ex_line_newround]);
                  (py "filtered",
                   Dir [ (node_log 7, File true [py "an earlier run"]) ]) ] in
  lookup (node_log 7)
    (out_children
       (run_dir_after json_loads_basic json_dumps_basic reliable_env ex_run_path
          (py "filtered") None rd) (py "filtered"))
  = Some (File true [py "an earlier run"]).
Proof. vm_compute. reflexivity. Qed.

(** ** Counting the combined sinks, whatever is refused *)

Lemma progress_refl st : progress 0 0 st st.
Proof. unfold progress. lia. Qed.

Lemma progress_trans d e d' e' st st' st'' :
  progress d e st st' -> progress d' e' st' st'' -> progress (d + d') (e + e') st st''.
Proof. unfold progress. lia. Qed.

Lemma lines_of_set name name' c st sc k w :
  lines_of name' (mkState sc k w (sink_set name c (sinks st)))
  = if str_eqb name name' then length c else lines_of name' st.
Proof.
  unfold lines_of. cbn [sinks]. rewrite sink_get_set.
  now destruct (str_eqb name name').
Qed.

Section Counting.

Variable json_loads : str -> option value.
Variable json_dumps : value -> str.
Variable ev : env.
Variable out_dir : path.
Variable out_cs : list (str * entry).
Variable run_name : str.
Variable level_set : level_filter.

Lemma aside_bind {A B} (m : M A) (k : A -> M B) :
  aside m -> (forall a, aside (k a)) -> aside (bind m k).
Proof.
  intros Hm Hk st. unfold bind. specialize (Hm st).
  destruct (m st) as [[a|] st']; cbn [snd] in *; [|exact Hm].
  apply (progress_trans Hm (Hk a st')).
Qed.

Lemma aside_open name :
  name <> all_jsonl -> name <> all_log -> aside (open_w ev out_dir out_cs name).
Proof.
  intros N1 N2 st. unfold open_w. destruct (_ || _); [apply progress_refl|].
  unfold progress. cbn [snd kept]. rewrite !lines_of_set.
  rewrite !(proj2 (str_eqb_neq _ _)) by congruence. lia.
Qed.

Lemma aside_write name chunk :
  name <> all_jsonl -> name <> all_log -> aside (write ev out_dir name chunk).
Proof.
  intros N1 N2 st. unfold write. destruct (can_write _ _ _); [|apply progress_refl].
  unfold progress. cbn [snd kept]. rewrite !lines_of_set.
  rewrite !(proj2 (str_eqb_neq _ _)) by congruence. lia.
Qed.

Lemma aside_get_writers node_id : aside (get_writers ev out_dir out_cs node_id).
Proof.
  intros st. unfold get_writers. destruct (existsb _ _); [apply progress_refl|].
  revert st. apply aside_bind; [apply aside_open; apply node_jsonl_not_all|].
  intros _. apply aside_bind; [apply aside_open; apply node_log_not_all|].
  intros _ st. unfold progress, lines_of. cbn. lia.
Qed.

Lemma aside_write_node node_id rec f :
  aside (write_record json_dumps ev out_dir (node_jsonl node_id) (node_log node_id)
           rec f run_name node_id).
Proof.
  unfold write_record. apply aside_bind; [apply aside_write; apply node_jsonl_not_all|].
  intros _. apply aside_write; apply node_log_not_all.
Qed.

Lemma write_all_jsonl chunk st :
  match write ev out_dir all_jsonl chunk st with
  | (Some _, st') => progress 0 1 st st'
  | (None, st') => st' = st
  end.
Proof.
  unfold write. destruct (can_write _ _ _); [|reflexivity].
  unfold progress. cbn [kept]. rewrite !lines_of_set.
  rewrite str_eqb_refl, (proj2 (str_eqb_neq _ _)) by discriminate.
  rewrite length_app. cbn [length]. unfold lines_of.
  destruct (sink_get all_jsonl (sinks st)); cbn [length]; lia.
Qed.

Lemma write_all_log chunk st :
  match write ev out_dir all_log chunk st with
  | (Some _, st') =>
      kept st' = kept st /\ lines_of all_log st' = lines_of all_log st + 1 /\
      lines_of all_jsonl st' = lines_of all_jsonl st
  | (None, st') => st' = st
  end.
Proof.
  unfold write. destruct (can_write _ _ _); [|reflexivity].
  cbn [kept]. rewrite !lines_of_set.
  rewrite str_eqb_refl, (proj2 (str_eqb_neq _ _)) by discriminate.
  rewrite length_app. cbn [length]. unfold lines_of.
  destruct (sink_get all_log (sinks st)); cbn [length]; lia.
Qed.

(** A record written to the combined sinks and counted: all of it, or the
    structured line alone, or nothing. *)
Lemma combined_write rec f node_id st :
  match bind (write_record json_dumps ev out_dir all_jsonl all_log rec f run_name node_id)
             (fun _ => incr_kept) st with
  | (Some _, st') => progress 1 0 st st'
  | (None, st') => progress 0 0 st st' \/ progress 0 1 st st'
  end.
Proof.
  unfold write_record, bind.
  pose proof (write_all_jsonl (jsonl_line json_dumps rec f run_name node_id) st) as W1.
  destruct (write ev out_dir all_jsonl _ st) as [[[]|] st1].
  2:{ subst. left. apply progress_refl. }
  pose proof (write_all_log (pretty_line (enrich rec f run_name node_id)) st1) as W2.
  destruct (write ev out_dir all_log _ st1) as [[[]|] st2].
  2:{ subst. right. exact W1. }
  unfold incr_kept, progress, lines_of in *. cbn [kept sinks]. lia.
Qed.

Lemma process_line_progress f node_id line st :
  match process_line json_loads json_dumps ev out_dir out_cs run_name level_set
          f node_id line st with
  | (Some _, st') => exists d, progress d 0 st st'
  | (None, st') => exists e, e <= 1 /\ progress 0 e st st'
  end.
Proof.
  unfold process_line. unfold bind at 1. unfold incr_scanned at 1.
  set (st0 := mkState (S (scanned st)) (kept st) (writers st) (sinks st)).
  assert (P0 : progress 0 0 st st0) by (unfold progress, lines_of; cbn; lia).
  destruct (parse_line json_loads line) as [rec|]; [|exists 0; exact P0].
  destruct (level_excluded level_set rec); [exists 0; exact P0|].
  unfold bind at 1.
  pose proof (aside_get_writers node_id st0) as G.
  destruct (get_writers ev out_dir out_cs node_id st0) as [[w|] st1] eqn:E;
    cbn [snd] in G.
  2:{ exists 0. split; [lia|]. apply (progress_trans P0 G). }
  apply get_writers_result in E. subst w. cbn [fst snd].
  unfold bind at 1.
  pose proof (aside_write_node node_id rec f st1) as N.
  destruct (write_record json_dumps ev out_dir (node_jsonl node_id) (node_log node_id)
              rec f run_name node_id st1) as [[[]|] st2]; cbn [snd] in N.
  2:{ exists 0. split; [lia|]. apply (progress_trans P0 (progress_trans G N)). }
  pose proof (combined_write rec f node_id st2) as C.
  pose proof (progress_trans P0 (progress_trans G N)) as P2. cbn in P2.
  destruct (bind (write_record json_dumps ev out_dir all_jsonl all_log rec f
                    run_name node_id) (fun _ => incr_kept) st2) as [[[]|] st3].
  - exists 1. apply (progress_trans P2 C).
  - destruct C as [C|C]; [exists 0|exists 1]; (split; [lia|]);
      apply (progress_trans P2 C).
Qed.

Lemma for_each_lines_progress f node_id lines : forall st,
  match for_each (process_line json_loads json_dumps ev out_dir out_cs run_name
                    level_set f node_id) lines st with
  | (Some _, st') => exists d, progress d 0 st st'
  | (None, st') => exists d e, e <= 1 /\ progress d e st st'
  end.
Proof.
  induction lines as [|line lines IH]; intros st; cbn [for_each].
  - exists 0. apply progress_refl.
  - unfold bind. pose proof (process_line_progress f node_id line st) as P.
    destruct (process_line _ _ _ _ _ _ _ f node_id line st) as [[[]|] st1].
    + destruct P as (d & P). specialize (IH st1).
      destruct (for_each _ lines st1) as [[[]|] st2].
      * destruct IH as (d' & Q). exists (d + d'). apply (progress_trans P Q).
      * destruct IH as (d' & e & He & Q). exists (d + d'), (0 + e).
        split; [lia|]. apply (progress_trans P Q).
    + destruct P as (e & He & P). now exists 0, e.
Qed.

Lemma process_file_progress x st :
  let r := process_file json_loads json_dumps ev out_dir out_cs run_name level_set x st in
  fst r = Some tt /\ exists d e, e <= 1 /\ progress d e st (snd r).
Proof.
  cbv zeta. destruct x as [[f node_id] e]. unfold process_file, catch.
  destruct e as [[|] lines|cs]; cbn [fst snd];
    try (split; [reflexivity|]; exists 0, 0; split; [lia|apply progress_refl]).
  pose proof (for_each_lines_progress f node_id lines st) as P.
  destruct (for_each _ lines st) as [[[]|] st1]; cbn [fst snd];
    (split; [reflexivity|]).
  - destruct P as (d & P). exists d, 0. split; [lia|exact P].
  - exact P.
Qed.

Lemma for_each_files_progress files : forall st,
  let r := for_each (process_file json_loads json_dumps ev out_dir out_cs run_name
                       level_set) files st in
  fst r = Some tt /\ exists d e, e <= length files /\ progress d e st (snd r).
Proof.
  induction files as [|x files IH]; intros st; cbv zeta; cbn [for_each length].
  - split; [reflexivity|]. exists 0, 0. split; [lia|apply progress_refl].
  - unfold bind. destruct (process_file_progress x st) as (R & d & e & He & P).
    destruct (process_file _ _ _ _ _ _ _ x st) as [[[]|] st1]; cbn [fst snd] in *;
      [|discriminate].
    destruct (IH st1) as (R' & d' & e' & He' & P'). split; [exact R'|].
    exists (d + d'), (e + e'). split; [lia|]. apply (progress_trans P P').
Qed.

Lemma run_body_progress files res st :
  run_body json_loads json_dumps ev out_dir out_cs run_name level_set files init_state
  = (Some res, st) ->
  res = (scanned st, kept st) /\
  lines_of all_log st = kept st /\
  kept st <= lines_of all_jsonl st <= kept st + length files.
Proof.
  unfold run_body. unfold bind at 1.
  destruct (open_w ev out_dir out_cs all_jsonl init_state) as [[[]|] st1] eqn:O1;
    [|discriminate].
  unfold bind at 1.
  destruct (open_w ev out_dir out_cs all_log st1) as [[[]|] st2] eqn:O2;
    [|discriminate].
  assert (Z : kept st2 = 0 /\ lines_of all_log st2 = 0 /\ lines_of all_jsonl st2 = 0).
  { unfold open_w in O1, O2.
    destruct (_ || _); [discriminate|]. injection O1 as <-.
    destruct (_ || _); [discriminate|]. injection O2 as <-.
    vm_compute. auto. }
  unfold bind.
  destruct (for_each_files_progress files st2) as (R & d & e & He & P).
  destruct (for_each _ files st2) as [[[]|] st3]; cbn [fst snd] in *; [|discriminate].
  intros [= <- <-]. unfold progress in P. split; [reflexivity|]. lia.
Qed.

End Counting.



(** ** The first match: the message *)

Lemma head_Cat r1 r2 c s y ys :
  run (Cat r1 r2) c s = y :: ys ->
  exists c1 s1 ys', In (c1, s1) (run r1 c s) /\ run r2 c1 s1 = y :: ys'.
Proof.
  cbn [run]. induction (run r1 c s) as [|[c1 s1] l IH]; cbn [flat_map fst snd];
    [discriminate|].
  destruct (run r2 c1 s1) as [|y' ys'] eqn:E.
  - cbn [app]. intros H. destruct (IH H) as (c2 & s2 & t & Hin & R).
    exists c2, s2, t. split; [now right|exact R].
  - cbn [app]. intros [= <- _]. exists c1, s1, ys'.
    split; [now left|exact E].
Qed.

(** The greedy [p+] before a pattern [h] that still matches when a character
    is taken from the front of the text: the first match is one after the
    longest run of [p]. *)
Lemma greedy_first {B} (p : ascii -> bool) (h : str -> list B) :
  (forall x t, h (x :: t) <> [] -> h t <> []) ->
  forall s y ys,
    flat_map h (rev (tails p s)) = y :: ys -> In y (h (drop_while p s)).
Proof.
  intros Hmono. induction s as [|x s IH]; intros y ys.
  - cbn. rewrite app_nil_r. intros E. rewrite E. now left.
  - cbn [tails drop_while]. destruct (p x) eqn:Px.
    + cbn [rev]. rewrite flat_map_app. cbn [flat_map]. rewrite app_nil_r.
      destruct (flat_map h (rev (tails p s))) as [|y' l] eqn:F.
      * cbn [app]. intros E. exfalso.
        assert (N : h s <> []).
        { apply (Hmono x). rewrite E. discriminate. }
        apply N.
        assert (Hs : In s (rev (tails p s))).
        { apply in_rev. rewrite rev_involutive. destruct s; now left. }
        destruct (h s) as [|z l] eqn:Z; [reflexivity|].
        assert (Hz : In z (flat_map h (rev (tails p s)))).
        { apply in_flat_map. exists s. split; [exact Hs|]. rewrite Z. now left. }
        rewrite F in Hz. destruct Hz.
      * cbn [app]. intros [= <- _]. apply (IH y' l). reflexivity.
    + cbn. rewrite app_nil_r. intros E. rewrite E. now left.
Qed.

Lemma flat_map_map_pair {B} (c : captures) (g : captures * str -> list B) l :
  flat_map g (map (pair c) l) = flat_map (fun t => g (c, t)) l.
Proof. induction l as [|t l IH]; cbn; [reflexivity|]. now rewrite IH. Qed.

Lemma msg_tail_matches c t :
  run (cat [Grp "msg" (Star dot); Eos]) c t <> [] <->
  exists m e, t = m ++ e /\ forallb dot m = true /\ at_end e = true.
Proof.
  split.
  - destruct (run _ c t) as [|[c' rest] l] eqn:E; [congruence|]. intros _.
    assert (H : In (c', rest) (run (cat [Grp "msg" (Star dot); Eos]) c t)).
    { rewrite E. now left. }
    cbn [cat] in H. apply in_run_Cat in H as (c1 & s1 & H1 & H).
    apply in_run_Grp in H1 as (c0 & m & H1 & -> & ->).
    apply in_run_Star in H1 as [-> (w & E1 & Hw)].
    apply app_inv_tail in E1. subst w.
    apply in_run_Cat in H as (c2 & s2 & H2 & H).
    apply in_run_Eos in H2 as (-> & -> & He).
    now exists m, s1.
  - intros (m & e & -> & Hm & He) E.
    assert (H : In (("msg"%string, m) :: c, e)
                  (run (cat [Grp "msg" (Star dot); Eos]) c (m ++ e))).
    { cbn [cat]. apply in_run_Cat. exists (("msg"%string, m) :: c), e. split.
      - apply in_run_Grp. exists c, m. split; [|auto].
        apply in_run_Star. split; [reflexivity|]. now exists m.
      - apply in_run_Cat. exists (("msg"%string, m) :: c), e. split.
        + apply in_run_Eos. auto.
        + apply in_run_Eps. auto. }
    rewrite E in H. destruct H.
Qed.

Lemma msg_tail_mono c x t :
  run (cat [Grp "msg" (Star dot); Eos]) c (x :: t) <> [] ->
  run (cat [Grp "msg" (Star dot); Eos]) c t <> [].
Proof.
  rewrite !msg_tail_matches. intros (m & e & E & Hm & He).
  destruct m as [|y m].
  - cbn in E. subst e. destruct t; [|discriminate He].
    exists [], []. auto.
  - cbn in E. injection E as -> ->. cbn in Hm. apply andb_true_iff in Hm as [_ Hm].
    now exists m, e.
Qed.

(** After [\s+], the message of the first match does not begin with a
    white-space character. *)
Lemma msg_after_spaces c s y ys :
  run (cat [Plus is_space; Grp "msg" (Star dot); Eos]) c s = y :: ys ->
  forall x m, group "msg" (fst y) = x :: m -> is_space x = false.
Proof.
  change (cat [Plus is_space; Grp "msg" (Star dot); Eos])
    with (Cat (Plus is_space) (cat [Grp "msg" (Star dot); Eos])).
  cbn [run]. rewrite flat_map_map_pair. cbn [fst snd].
  destruct s as [|a s]; [discriminate|]. cbn [tails1].
  destruct (is_space a); [|discriminate].
  intros H. apply (greedy_first is_space _ (msg_tail_mono c)) in H.
  destruct y as [c' rest]. cbn [cat] in H.
  apply in_run_Cat in H as (c1 & s1 & H1 & H).
  apply in_run_Grp in H1 as (c0 & w & H1 & E & ->).
  apply in_run_Star in H1 as [-> _].
  apply in_run_Cat in H as (c2 & s2 & H2 & H).
  apply in_run_Eos in H2 as (-> & -> & _).
  apply in_run_Eps in H as (-> & ->).
  cbn [fst group String.eqb Ascii.eqb Bool.eqb]. intros x m ->.
  cbn in E. now apply drop_while_head in E.
Qed.

Lemma line_re_msg s d :
  re_match LINE_RE s = Some d ->
  forall x m, group "msg" d = x :: m -> is_space x = false.
Proof.
  unfold re_match. destruct (run LINE_RE [] s) as [|y ys] eqn:H; [discriminate|].
  intros [= <-]. unfold LINE_RE in H. cbn [cat] in H.
  do 11 (apply head_Cat in H as (? & ? & ? & _ & H)).
  now apply (msg_after_spaces _ _ H).
Qed.

(** X11.  The message of a record never begins with white space: [\s+]
    before the message takes all the white space there is, a tab, a
    carriage return or a no-break space as well as a blank.  Nor does the
    message hold a newline.  So the pretty line of a record is its
    timestamp, one blank, and a message that begins with a visible
    character or is empty. *)
Theorem X11_message_has_no_leading_space json_loads line r :
  parse_line json_loads line = Some r ->
  exists msg,
    dict_get (py "msg") r = Some (VStr msg) /\
    (forall x m, msg = x :: m -> is_space x = false) /\
    forallb dot msg = true.
Proof.
  intros H. apply parse_line_Some_captures in H as (d & M & ->).
  exists (group "msg" d). split; [|split].
  - apply build_record_prefix. unfold base_record. cbn. tauto.
  - now apply (line_re_msg _ M).
  - apply line_re_match_Some in M
      as (ts & thr & level & target & ln & msg & -> & ws1 & ws2 & ws3 & ws4 & G).
    cbn. tauto.
Qed.

Lemma X11_message_has_no_leading_space_witness :
  exists r msg,
    parse_line json_loads_basic ex_line_vote = Some r /\
    dict_get (py "msg") r = Some (VStr msg) /\
    (forall x m, msg = x :: m -> is_space x = false).
Proof.
  destruct (parse_line json_loads_basic ex_line_vote) as [r|] eqn:E;
    [|vm_compute in E; discriminate E].
  destruct (X11_message_has_no_leading_space json_loads_basic ex_line_vote E)
    as (msg & G & S & _).
  exists r, msg. auto.
Defined.

Example message_after_tabs :
  exists r,
    parse_line (fun _ => None)
      (py "2026-02-17T11:09:41Z [c] INFO a.rs:7 " ++ [ascii_of_N 9; ascii_of_N 9]
       ++ py "Vote cast") = Some r /\
    dict_get (py "msg") r = Some (VStr (py "Vote cast")).
Proof. eexists. split; vm_compute; reflexivity. Qed.

(** ** Final newlines *)

Lemma drop_while_all p w s : forallb p w = true -> drop_while p (w ++ s) = drop_while p s.
Proof.
  induction w as [|x w IH]; cbn; [reflexivity|].
  intros H. apply andb_true_iff in H as [Hx Hw]. rewrite Hx. auto.
Qed.

Lemma rstrip_nl_app s nls :
  forallb is_newline nls = true -> rstrip_nl (s ++ nls) = rstrip_nl s.
Proof.
  intros H. unfold rstrip_nl. rewrite rev_app_distr, drop_while_all; [reflexivity|].
  rewrite forallb_forall in *. intros x Hx. apply H. now apply in_rev.
Qed.

(** X12.  [parse_line] does not see the newlines that end a line: a line
    gives the same record, or is dropped all the same, with any number of
    final newlines and with none, as the last line of a file may be. *)
Theorem X12_final_newlines_do_not_matter json_loads line nls :
  forallb is_newline nls = true ->
  parse_line json_loads (line ++ nls) = parse_line json_loads line.
Proof. intros H. unfold parse_line. now rewrite rstrip_nl_app. Qed.

Lemma X12_final_newlines_do_not_matter_witness :
  parse_line json_loads_basic (ex_line_vote ++ [newline; newline])
  = parse_line json_loads_basic ex_line_vote.
Proof. apply X12_final_newlines_do_not_matter. reflexivity. Defined.

(** ** The interceptor ports *)

(** X13.  For receivers from 0 up to [num_replicas], each ordered pair of a
    sender and a receiver has a port of its own; with senders in the same
    range the ports are the [num_replicas * num_replicas] ports that begin
    at [base_interceptor]. *)
Theorem X13_interceptor_ports_do_not_collide
    base_interceptor num_replicas sender receiver sender' receiver' :
  (0 <= receiver < num_replicas)%Z -> (0 <= receiver' < num_replicas)%Z ->
  (get_interceptor_port base_interceptor num_replicas sender receiver
   = get_interceptor_port base_interceptor num_replicas sender' receiver' ->
   sender = sender' /\ receiver = receiver')
  /\ ((0 <= sender < num_replicas)%Z ->
      (base_interceptor
       <= get_interceptor_port base_interceptor num_replicas sender receiver
       < base_interceptor + num_replicas * num_replicas)%Z).
Proof.
  intros Hr Hr'. unfold get_interceptor_port. cbv zeta. split.
  - intros E.
    apply (Z.div_mod_unique num_replicas sender sender' receiver receiver');
      [now left|now left|lia].
  - intros Hs. nia.
Qed.

Lemma X13_interceptor_ports_do_not_collide_witness :
  (get_interceptor_port 10000 4 1 2 = get_interceptor_port 10000 4 2 1 ->
   1%Z = 2%Z /\ 2%Z = 1%Z)
  /\ (10000 <= get_interceptor_port 10000 4 1 2 < 10000 + 4 * 4)%Z.
Proof.
  destruct (@X13_interceptor_ports_do_not_collide 10000 4 1 2 2 1)%Z as [A B];
    [lia|lia|].
  split; [exact A|apply B; lia].
Defined.

(** Beyond [num_replicas] the ports do collide. *)
Example interceptor_ports_collide :
  get_interceptor_port 10000 4 0 4 = get_interceptor_port 10000 4 1 0.
Proof. reflexivity. Qed.

(** ** Hints and listing order *)

(** X15.  The hints can only narrow the choice of run directories: a
    directory returned with hints is returned without them too; and either
    the hints change nothing, or every directory returned has the hinted
    prefix in its name. *)
Theorem X15_hints_only_narrow h run_id_dir e :
  (forall x, In x (find_run_dirs h run_id_dir e) ->
             In x (find_run_dirs (mkHints None None) run_id_dir e)) /\
  (find_run_dirs h run_id_dir e = find_run_dirs (mkHints None None) run_id_dir e \/
   exists pref,
     expected_run_prefix h = Some pref /\
     forall x, In x (find_run_dirs h run_id_dir e) ->
               startswith pref (path_name (fst x)) = true).
Proof.
  unfold find_run_dirs. cbn [expected_run_prefix TEST_NAME SCHED_TYPE].
  destruct (expected_run_prefix h) as [pref|]; [|split; [auto|now left]].
  destruct (filter _ (filter _ _)) as [|y l] eqn:E; [split; [auto|now left]|].
  rewrite <- E. clear E. split.
  - intros x Hx. apply filter_In in Hx as [Hx L]. apply filter_In in Hx as [Hx _].
    assert (A : In x (filter (fun d => looks_like_run_dir (fst d) (snd d))
                        (sorted (filter (fun c => is_dir (snd c))
                                   (iterdir run_id_dir e))))).
    { apply filter_In. auto. }
    destruct (filter _ (sorted _)); [destruct A|exact A].
  - right. exists pref. split; [reflexivity|].
    intros x Hx. apply filter_In in Hx as [Hx _]. now apply filter_In in Hx as [_ Hx].
Qed.

Lemma str_leb_antisym a : forall b,
  str_leb a b = true -> str_leb b a = true -> a = b.
Proof.
  induction a as [|x a IH]; intros [|y b]; cbn; try discriminate; auto.
  destruct (code x <? code y)%N eqn:E1, (code y <? code x)%N eqn:E2;
    try discriminate.
  - apply N.ltb_lt in E1, E2. lia.
  - intros H1 H2. apply N.ltb_ge in E1, E2.
    assert (Ec : code x = code y) by lia.
    unfold code in Ec. apply (f_equal ascii_of_N) in Ec.
    rewrite !ascii_N_embedding in Ec. subst y. f_equal. auto.
Qed.

Lemma sorted_unique l1 : forall l2,
  StronglySorted name_le l1 -> StronglySorted name_le l2 ->
  Permutation l1 l2 -> NoDup (map (fun x => path_name (fst x)) l1) -> l1 = l2.
Proof.
  induction l1 as [|a l1 IH]; intros l2 S1 S2 P ND.
  - apply Permutation_nil in P. now subst.
  - destruct l2 as [|b l2].
    { apply Permutation_sym, Permutation_nil in P. discriminate. }
    inversion S1 as [|? ? S1' F1]; subst. inversion S2 as [|? ? S2' F2]; subst.
    rewrite Forall_forall in F1, F2.
    inversion ND as [|? ? Na ND']; subst.
    assert (Eab : a = b).
    { assert (Ha : In a (b :: l2)) by (apply (Permutation_in _ P); now left).
      assert (Hb : In b (a :: l1))
        by (apply (Permutation_in _ (Permutation_sym P)); now left).
      destruct Ha as [->|Ha]; [reflexivity|]. destruct Hb as [->|Hb]; [reflexivity|].
      exfalso. apply Na.
      assert (N : path_name (fst a) = path_name (fst b)).
      { apply str_leb_antisym; [apply (F1 b Hb)|apply (F2 a Ha)]. }
      rewrite N. apply in_map_iff. now exists b. }
    subst b. f_equal. apply IH; auto.
    now apply Permutation_cons_inv in P.
Qed.

Lemma Permutation_filter' {A} (f : A -> bool) l l' :
  Permutation l l' -> Permutation (filter f l) (filter f l').
Proof.
  induction 1 as [|x l l' _ IH|x y l|l l' l'' _ IH1 _ IH2]; cbn.
  - constructor.
  - destruct (f x); [now constructor|exact IH].
  - destruct (f x), (f y); try reflexivity. apply perm_swap.
  - now transitivity (filter f l').
Qed.

Lemma Permutation_existsb {A} (f : A -> bool) l l' :
  Permutation l l' -> existsb f l = existsb f l'.
Proof.
  induction 1 as [|x l l' _ IH|x y l|l l' l'' _ IH1 _ IH2]; cbn.
  - reflexivity.
  - now rewrite IH.
  - destruct (f x), (f y); reflexivity.
  - congruence.
Qed.

Lemma Permutation_flat_map' {A B} (f : A -> list B) l l' :
  Permutation l l' -> Permutation (flat_map f l) (flat_map f l').
Proof.
  induction 1 as [|x l l' _ IH|x y l|l l' l'' _ IH1 _ IH2]; cbn.
  - constructor.
  - now apply Permutation_app_head.
  - rewrite !app_assoc. apply Permutation_app_tail, Permutation_app_comm.
  - now transitivity (flat_map f l').
Qed.

Lemma candidates_listing p cs cs' :
  NoDup (map fst cs) -> Permutation cs cs' ->
  sorted (filter (fun c => is_dir (snd c)) (iterdir p (Dir cs')))
  = sorted (filter (fun c => is_dir (snd c)) (iterdir p (Dir cs))).
Proof.
  intros ND P.
  destruct (sorted_spec (filter (fun c => is_dir (snd c)) (iterdir p (Dir cs))))
    as [S1 P1].
  destruct (sorted_spec (filter (fun c => is_dir (snd c)) (iterdir p (Dir cs'))))
    as [S2 P2].
  symmetry. apply sorted_unique; [exact S1|exact S2| |].
  - rewrite P1, P2. apply Permutation_filter'. unfold iterdir.
    now apply Permutation_map.
  - apply (Permutation_NoDup
             (Permutation_sym (Permutation_map (fun x => path_name (fst x)) P1))).
    apply NoDup_map_filter. unfold iterdir. rewrite map_map. cbn [fst].
    erewrite map_ext; [|intros c; apply path_name_child]. exact ND.
Qed.

(** X16.  The order in which the operating system lists the entries of the
    top directory does not matter: for entries of distinct names in any
    order, [find_run_dirs] returns the same paths in the same order, that
    of their names. *)
Theorem X16_listing_order_does_not_matter h run_id_dir cs cs' :
  NoDup (map fst cs) -> Permutation cs cs' ->
  map fst (find_run_dirs h run_id_dir (Dir cs'))
  = map fst (find_run_dirs h run_id_dir (Dir cs)).
Proof.
  intros ND P. unfold find_run_dirs. rewrite (candidates_listing run_id_dir ND P).
  assert (L : looks_like_run_dir run_id_dir (Dir cs')
              = looks_like_run_dir run_id_dir (Dir cs)).
  { unfold looks_like_run_dir. symmetry. apply Permutation_existsb. cbn [rglob].
    apply Permutation_app; [now apply Permutation_map|].
    now apply Permutation_flat_map'. }
  rewrite L.
  destruct (match expected_run_prefix h with Some _ => _ | None => _ end);
    [|reflexivity].
  destruct (filter _ _); [|reflexivity].
  destruct (looks_like_run_dir run_id_dir (Dir cs)); reflexivity.
Qed.

Lemma X16_listing_order_does_not_matter_witness :
  map (fun x => path_name (fst x))
    (find_run_dirs (mkHints None None) ex_root_path
       (Dir [ (py "run_b", ex_run_dir); (py "run_a", ex_run_dir) ]))
  = [py "run_a"; py "run_b"].
Proof.
  assert (ND : NoDup (map fst [ (py "run_a", ex_run_dir); (py "run_b", ex_run_dir) ])).
  { cbn. constructor; [intros [H|[]]; discriminate H|].
    constructor; [intros []|constructor]. }
  assert (P : Permutation [ (py "run_a", ex_run_dir); (py "run_b", ex_run_dir) ]
                          [ (py "run_b", ex_run_dir); (py "run_a", ex_run_dir) ])
    by apply perm_swap.
  pose proof (X16_listing_order_does_not_matter (mkHints None None) ex_root_path ND P)
    as E.
  rewrite <- (map_map fst path_name), E. vm_compute. reflexivity.
Defined.

(** ** The output files after a run *)

Lemma sink_set_names n c s :
  map fst (sink_set n c s)
  = if existsb (str_eqb n) (map fst s) then map fst s else map fst s ++ [n].
Proof.
  induction s as [|[m d] s IH]; cbn [sink_set map fst existsb]; [reflexivity|].
  destruct (str_eqb m n) eqn:E.
  - apply str_eqb_eq in E. subst m. now rewrite str_eqb_refl.
  - rewrite (str_eqb_sym n m), E. cbn [orb map fst]. rewrite IH.
    now destruct (existsb _ _).
Qed.

Lemma sink_set_distinct n c s :
  NoDup (map fst s) -> NoDup (map fst (sink_set n c s)).
Proof.
  intros H. rewrite sink_set_names.
  destruct (existsb (str_eqb n) (map fst s)) eqn:E; [exact H|].
  apply NoDup_app; [exact H|repeat constructor; intros []|].
  intros x Hx [Ex|[]]. subst x.
  assert (X : existsb (str_eqb n) (map fst s) = true).
  { apply existsb_exists. exists n. split; [exact Hx|apply str_eqb_refl]. }
  congruence.
Qed.

Section Distinct.

Variable json_loads : str -> option value.
Variable json_dumps : value -> str.
Variable ev : env.
Variable out_dir : path.
Variable out_cs : list (str * entry).
Variable run_name : str.
Variable level_set : level_filter.

Lemma distinct_open name : preserves sinks_distinct (open_w ev out_dir out_cs name).
Proof.
  intros st H. unfold open_w. destruct (_ || _); [exact H|].
  now apply sink_set_distinct.
Qed.

Lemma distinct_write name chunk :
  preserves sinks_distinct (write ev out_dir name chunk).
Proof.
  intros st H. unfold write. destruct (can_write _ _ _); [|exact H].
  now apply sink_set_distinct.
Qed.

Lemma distinct_get_writers node_id :
  preserves sinks_distinct (get_writers ev out_dir out_cs node_id).
Proof.
  intros st H. unfold get_writers. destruct (existsb _ _); [exact H|].
  revert st H. apply preserves_bind; [apply distinct_open|].
  intros _. apply preserves_bind; [apply distinct_open|].
  intros _ st H. exact H.
Qed.

Lemma distinct_write_record jf tf rec f node_id :
  preserves sinks_distinct
    (write_record json_dumps ev out_dir jf tf rec f run_name node_id).
Proof.
  unfold write_record. apply preserves_bind; [apply distinct_write|].
  intros _. apply distinct_write.
Qed.

Lemma distinct_process_line f node_id line :
  preserves sinks_distinct
    (process_line json_loads json_dumps ev out_dir out_cs run_name level_set
       f node_id line).
Proof.
  unfold process_line. apply preserves_bind; [intros st H; exact H|]. intros _.
  destruct (parse_line json_loads line) as [rec|]; [|intros st H; exact H].
  destruct (level_excluded level_set rec); [intros st H; exact H|].
  apply preserves_bind; [apply distinct_get_writers|]. intros w.
  apply preserves_bind; [apply distinct_write_record|]. intros _.
  apply preserves_bind; [apply distinct_write_record|]. intros _ st H. exact H.
Qed.

Lemma distinct_run_body files :
  sinks_distinct
    (snd (run_body json_loads json_dumps ev out_dir out_cs run_name level_set
            files init_state)).
Proof.
  assert (P : preserves sinks_distinct
                (run_body json_loads json_dumps ev out_dir out_cs run_name
                   level_set files)).
  { unfold run_body. apply preserves_bind; [apply distinct_open|]. intros _.
    apply preserves_bind; [apply distinct_open|]. intros _.
    apply preserves_bind.
    - apply preserves_for_each. intros [[f node_id] e]. unfold process_file.
      apply preserves_catch.
      destruct e as [[|] lines|cs]; try (intros st H; exact H).
      apply preserves_for_each. intros line. apply distinct_process_line.
    - intros _ st H. exact H. }
  apply P. constructor.
Qed.

End Distinct.

Lemma distinct_filter_one_run_dir json_loads json_dumps ev run_dir rd out_subdir level_set :
  sinks_distinct
    (snd (filter_one_run_dir json_loads json_dumps ev run_dir rd out_subdir level_set)).
Proof.
  unfold filter_one_run_dir. destruct (mkdir_ok _ _ _ _).
  - apply distinct_run_body.
  - constructor.
Qed.

Lemma sink_get_In n c s : sink_get n s = Some c -> In (n, c) s.
Proof.
  induction s as [|[m d] s IH]; cbn [sink_get]; [discriminate|].
  destruct (str_eqb m n) eqn:E.
  - apply str_eqb_eq in E. subst m. intros [= ->]. now left.
  - intros H. right. auto.
Qed.

Lemma lookup_commit_sink s : forall cs n c,
  NoDup (map fst s) -> sink_get n s = Some c -> is_dir_in cs n = false ->
  exists r, lookup n (commit s cs) = Some (File r c).
Proof.
  induction s as [|[m d] s IH]; intros cs n c ND H D; [discriminate|].
  cbn [commit fold_left fst snd]. fold (commit s (set_file m d cs)).
  cbn [map fst] in ND. inversion ND as [|? ? Nm ND']; subst.
  cbn [sink_get] in H. destruct (str_eqb m n) eqn:E.
  - apply str_eqb_eq in E. subst m. injection H as ->.
    rewrite lookup_commit_other.
    + rewrite lookup_set_file, str_eqb_refl. unfold is_dir_in in D.
      destruct (lookup n cs) as [[r l|ocs]|]; [now exists r|discriminate|now exists true].
    + intros c0 X. apply Nm. apply in_map_iff. now exists (n, c0).
  - apply IH; [exact ND'|exact H|]. now rewrite is_dir_in_set_file.
Qed.



(** ** A level option that names no level *)

Lemma split_comma_chars l : forall w c,
  In w (split_comma l) -> In c w -> In c l /\ c <> ","%char.
Proof.
  induction l as [|a l IH]; intros w c Hw Hc; cbn [split_comma] in Hw.
  - destruct Hw as [<-|[]]. destruct Hc.
  - destruct (Ascii.eqb a ","%char) eqn:E.
    + destruct Hw as [<-|Hw]; [destruct Hc|].
      destruct (IH w c Hw Hc). split; [now right|assumption].
    + destruct (split_comma l) as [|w0 ws] eqn:S.
      * destruct Hw as [<-|[]]. destruct Hc as [<-|[]].
        split; [now left|]. intros ->. discriminate E.
      * destruct Hw as [<-|Hw].
        -- destruct Hc as [<-|Hc].
           ++ split; [now left|]. intros ->. discriminate E.
           ++ destruct (IH w0 c (or_introl eq_refl) Hc). split; [now right|assumption].
        -- destruct (IH w c (or_intror Hw) Hc). split; [now right|assumption].
Qed.

Lemma drop_while_nil p w : forallb p w = true -> drop_while p w = [].
Proof.
  induction w as [|x w IH]; cbn; [reflexivity|].
  intros H. apply andb_true_iff in H as [Hx Hw]. rewrite Hx. auto.
Qed.

Lemma level_set_without_level levels :
  (forall c, In c levels -> c = ","%char \/ is_space c = true) ->
  level_set_of_arg (Some levels) = None \/ level_set_of_arg (Some levels) = Some [].
Proof.
  intros H. destruct levels as [|a l]; [now left|]. right.
  unfold level_set_of_arg. f_equal.
  replace (filter (fun x => nonempty (strip x)) (split_comma (a :: l))) with (@nil str);
    [reflexivity|].
  symmetry. apply filter_nil_iff. intros w Hw.
  assert (S : forallb is_space w = true).
  { apply forallb_forall. intros c Hc.
    destruct (split_comma_chars _ _ _ Hw Hc) as [Hin Hne].
    destruct (H c Hin); [contradiction|assumption]. }
  unfold strip. now rewrite (drop_while_nil _ _ S).
Qed.

Lemma process_run_dirs_empty_filter json_loads json_dumps ev run_id_dir out_subdir :
  forall run_dirs ts tk reps root,
  process_run_dirs json_loads json_dumps ev run_id_dir out_subdir (Some [])
    run_dirs ts tk reps root
  = process_run_dirs json_loads json_dumps ev run_id_dir out_subdir None
      run_dirs ts tk reps root.
Proof.
  induction run_dirs as [|[q d] L IH]; intros ts tk reps root; [reflexivity|].
  cbn [process_run_dirs].
  change (filter_one_run_dir json_loads json_dumps ev q d out_subdir (Some []))
    with (filter_one_run_dir json_loads json_dumps ev q d out_subdir None).
  destruct (filter_one_run_dir json_loads json_dumps ev q d out_subdir None)
    as [[[s k]|] st]; [apply IH|reflexivity].
Qed.

(** X14.  A [--levels] option that names no level, being made of commas
    and white space only, is no filter: [main] keeps every level, as it
    does without the option, and does not drop every line. *)
Theorem X14_levels_without_a_level_keep_all
    json_loads json_dumps ev h levels out_subdir run_id_dir at_path :
  (forall c, In c levels -> c = ","%char \/ is_space c = true) ->
  main json_loads json_dumps ev h (Some levels) out_subdir run_id_dir at_path
  = main json_loads json_dumps ev h None out_subdir run_id_dir at_path.
Proof.
  intros H. unfold main.
  destruct (level_set_without_level levels H) as [-> | ->]; [reflexivity|].
  destruct at_path as [[r l|cs]|]; try reflexivity.
  apply process_run_dirs_empty_filter.
Qed.

Lemma X14_levels_without_a_level_keep_all_witness :
  main json_loads_basic json_dumps_basic reliable_env no_hints (Some (py " , ,"))
    (py "filtered") ex_root_path (Some ex_root)
  = main json_loads_basic json_dumps_basic reliable_env no_hints None
      (py "filtered") ex_root_path (Some ex_root).
Proof.
  apply X14_levels_without_a_level_keep_all.
  intros c H. vm_compute in H.
  repeat (destruct H as [<-|H]; [(now left) || (now right)|]). destruct H.
Defined.

(** ** Patching a node configuration *)

Lemma dict_get_pop k k' d :
  dict_get k' (dict_pop k d) = if str_eqb k k' then None else dict_get k' d.
Proof.
  induction d as [|[a v] d IH]; cbn [dict_pop dict_get].
  - now destruct (str_eqb k k').
  - destruct (str_eqb a k) eqn:E.
    + rewrite IH. apply str_eqb_eq in E. subst a.
      now destruct (str_eqb k k').
    + cbn [dict_get]. rewrite IH. destruct (str_eqb a k') eqn:E'; [|reflexivity].
      apply str_eqb_eq in E'. subst a. now rewrite (str_eqb_sym k k'), E.
Qed.

Lemma dict_pop_absent k d : dict_get k d = None -> dict_pop k d = d.
Proof.
  induction d as [|[a v] d IH]; cbn [dict_pop dict_get]; [reflexivity|].
  destruct (str_eqb a k); [discriminate|]. intros H. now rewrite IH.
Qed.

Lemma dict_set_same_value k v d : dict_get k d = Some v -> dict_set k v d = d.
Proof.
  induction d as [|[a w] d IH]; cbn [dict_set dict_get]; [discriminate|].
  destruct (str_eqb a k) eqn:E.
  - apply str_eqb_eq in E. subst a. now intros [= ->].
  - intros H. now rewrite IH.
Qed.

Lemma dict_get_set k k' v d :
  dict_get k' (dict_set k v d) = if str_eqb k k' then Some v else dict_get k' d.
Proof.
  destruct (str_eqb k k') eqn:E.
  - apply str_eqb_eq in E. subst. apply dict_get_set_same.
  - apply dict_get_set_other. intros ->. now rewrite str_eqb_refl in E.
Qed.

Lemma patch_seeds_fixed c v seeds :
  dict_get (py "validator_network") c = Some (VDict v) ->
  dict_get (py "seeds") v = Some (VDict seeds) ->
  dict_get (py "seed_addrs") v = None ->
  patch_seeds (VDict c) seeds = Some (VDict c).
Proof.
  intros Hc Hs Ha. unfold patch_seeds, dict_setdefault, get. rewrite Hc. cbv zeta.
  rewrite Hc. rewrite (dict_pop_absent _ _ Ha), (dict_set_same_value _ _ Hs).
  now rewrite (dict_set_same_value _ _ Hc).
Qed.

(** X18.  Patching succeeds exactly when the configuration is a mapping
    whose [validator_network] is absent or a mapping.  Then
    [validator_network] has the seeds under [seeds] and no [seed_addrs];
    its other keys and the other keys of the configuration keep their
    values; and patching the result again changes nothing. *)
Theorem X18_patch_seeds cfg seeds :
  (patch_seeds cfg seeds <> None <->
   exists c, cfg = VDict c /\
     (dict_get (py "validator_network") c = None \/
      exists vnet, dict_get (py "validator_network") c = Some (VDict vnet))) /\
  (forall cfg', patch_seeds cfg seeds = Some cfg' ->
     patch_seeds cfg' seeds = Some cfg' /\
     exists c c' vnet vnet',
       cfg = VDict c /\ cfg' = VDict c' /\
       (dict_get (py "validator_network") c = Some (VDict vnet) \/
        dict_get (py "validator_network") c = None /\ vnet = []) /\
       dict_get (py "validator_network") c' = Some (VDict vnet') /\
       dict_get (py "seeds") vnet' = Some (VDict seeds) /\
       dict_get (py "seed_addrs") vnet' = None /\
       (forall k, k <> py "validator_network" -> dict_get k c' = dict_get k c) /\
       (forall k, k <> py "seeds" -> k <> py "seed_addrs" ->
                  dict_get k vnet' = dict_get k vnet)).
Proof.
  assert (G : forall c,
    let c1 := dict_setdefault (py "validator_network") (VDict []) c in
    (dict_get (py "validator_network") c = None /\
     get (py "validator_network") c1 = VDict [] /\
     dict_get (py "validator_network") c1 = Some (VDict []) /\
     (forall k, k <> py "validator_network" -> dict_get k c1 = dict_get k c))
    \/ (exists v, dict_get (py "validator_network") c = Some v /\ c1 = c /\
                  get (py "validator_network") c1 = v)).
  { intros c. cbv zeta. unfold dict_setdefault, get.
    destruct (dict_get (py "validator_network") c) as [v|] eqn:E.
    - right. exists v. rewrite E. auto.
    - left. rewrite dict_get_set_same. repeat split.
      intros k Hk. now apply dict_get_set_other. }
  split.
  - unfold patch_seeds. destruct cfg as [| b | z | x | s | l | c];
      try (split; [intros H; now contradiction H|intros (c & [=] & _)]).
    cbv zeta. destruct (G c) as [(E & Gv & _)|(v & E & -> & Gv)]; cbv zeta in *.
    + rewrite Gv. split; [|discriminate]. intros _. exists c. auto.
    + rewrite Gv. split.
      * intros H. destruct v; try (now contradiction H).
        exists c. split; [reflexivity|]. right. eauto.
      * intros (c0 & [= <-] & [N|(vnet & N)]); [congruence|].
        rewrite E in N. injection N as ->. discriminate.
  - intros cfg' H. unfold patch_seeds in H.
    destruct cfg as [| b | z | x | s | l | c]; try discriminate.
    cbv zeta in H.
    set (c1 := dict_setdefault (py "validator_network") (VDict []) c) in *.
    assert (V : exists vnet,
              get (py "validator_network") c1 = VDict vnet /\
              dict_get (py "validator_network") c1 = Some (VDict vnet) /\
              (dict_get (py "validator_network") c = Some (VDict vnet) \/
               dict_get (py "validator_network") c = None /\ vnet = []) /\
              (forall k, k <> py "validator_network" -> dict_get k c1 = dict_get k c)).
    { destruct (G c) as [(E & Gv & Gd & Go)|(v & E & Ec & Gv)]; cbv zeta in *;
        fold c1 in Gv.
      - fold c1 in Gd, Go. exists []. repeat split; auto.
      - fold c1 in Ec. rewrite Gv in H. destruct v; try discriminate.
        exists d. rewrite Ec. split; [unfold get; now rewrite E|].
        split; [exact E|]. split; [now left|reflexivity]. }
    destruct V as (vnet & Gv & Gd & Gc & Go). rewrite Gv in H.
    injection H as <-.
    set (vnet' := dict_set (py "seeds") (VDict seeds)
                    (dict_pop (py "seed_addrs") vnet)).
    assert (S1 : dict_get (py "seeds") vnet' = Some (VDict seeds))
      by apply dict_get_set_same.
    assert (S2 : dict_get (py "seed_addrs") vnet' = None).
    { unfold vnet'. rewrite dict_get_set_other by discriminate.
      now rewrite dict_get_pop, str_eqb_refl. }
    split.
    + apply (@patch_seeds_fixed _ vnet' seeds);
        [apply dict_get_set_same|exact S1|exact S2].
    + exists c, (dict_set (py "validator_network") (VDict vnet') c1), vnet, vnet'.
      split; [reflexivity|]. split; [reflexivity|]. split; [exact Gc|].
      split; [apply dict_get_set_same|]. split; [exact S1|]. split; [exact S2|].
      split.
      * intros k Hk. rewrite dict_get_set_other by congruence. now apply Go.
      * intros k K1 K2. unfold vnet'. rewrite dict_get_set_other by congruence.
        rewrite dict_get_pop. destruct (str_eqb (py "seed_addrs") k) eqn:E;
          [|reflexivity].
        apply str_eqb_eq in E. congruence.
Qed.

Example patch_seeds_ex :
  patch_seeds
    (VDict [ (py "base", VDict [(py "role", VStr (py "validator"))]);
             (py "validator_network",
              VDict [ (py "seed_addrs", VDict []);
                      (py "listen_address", VStr (py "/ip4/0.0.0.0/tcp/6180")) ]) ])
    [(py "peer", VDict [(py "role", VStr (py "Validator"))])]
  = Some
      (VDict [ (py "base", VDict [(py "role", VStr (py "validator"))]);
               (py "validator_network",
                VDict [ (py "listen_address", VStr (py "/ip4/0.0.0.0/tcp/6180"));
                        (py "seeds",
                         VDict [(py "peer",
                                 VDict [(py "role", VStr (py "Validator"))])]) ]) ])
  /\ patch_seeds (VDict [(py "validator_network", VNone)]) [] = None.
Proof. split; vm_compute; reflexivity. Qed.

(** ** The seeds of a node *)

Lemma build_seeds_from base n idx info : forall seeds,
  NoDup (map fst seeds ++ map (fun x => fst (snd x)) (others idx info)) ->
  fold_left
    (fun seeds x =>
       let '(j, (account_address, network_public_key)) := x in
       if Z.eqb j idx then seeds
       else dict_set account_address
              (seed_entry base n idx j network_public_key) seeds)
    info seeds
  = seeds ++ map (fun x => (fst (snd x), seed_entry base n idx (fst x) (snd (snd x))))
               (others idx info).
Proof.
  induction info as [|[j [a k]] info IH]; intros seeds ND; cbn [fold_left].
  - cbn. now rewrite app_nil_r.
  - unfold others in *. cbn [filter fst] in *. destruct (Z.eqb j idx); cbn [negb] in *.
    + now apply IH.
    + cbn [map fst snd] in *.
      assert (F : ~ In a (map fst seeds)).
      { intros X. apply NoDup_remove_2 in ND. apply ND. apply in_or_app. now left. }
      rewrite dict_set_fresh by exact F. rewrite IH.
      * now rewrite <- app_assoc.
      * rewrite map_app, <- app_assoc. exact ND.
Qed.

(** X19.  When the other nodes have account addresses that differ from one
    another, the seeds of node [idx] are one entry for each other node, in
    the order of the nodes and under its account address: the address on
    the port of the pair ([idx], that node) with its public key, the key,
    and the role Validator.  The node itself is left out. *)
Theorem X19_seeds_of_a_node base_interceptor num_replicas idx info :
  NoDup (map (fun x => fst (snd x)) (others idx info)) ->
  build_seeds base_interceptor num_replicas idx info
  = map (fun x => (fst (snd x),
                   seed_entry base_interceptor num_replicas idx (fst x) (snd (snd x))))
      (others idx info)
  /\ forall x, In x (others idx info) -> In x info /\ fst x <> idx.
Proof.
  intros ND. split.
  - unfold build_seeds. now rewrite build_seeds_from.
  - intros x Hx. apply filter_In in Hx as [Hin Hx]. split; [exact Hin|].
    intros E. rewrite E, Z.eqb_refl in Hx. discriminate.
Qed.

Lemma X19_seeds_of_a_node_witness :
  map fst
    (build_seeds 10000 4 1
       [ (0%Z, (py "aa", py "k0")); (1%Z, (py "bb", py "k1"));
         (2%Z, (py "cc", py "k2")) ])
  = [py "aa"; py "cc"].
Proof.
  destruct (@X19_seeds_of_a_node 10000 4 1
              [ (0%Z, (py "aa", py "k0")); (1%Z, (py "bb", py "k1"));
                (2%Z, (py "cc", py "k2")) ]) as [E _].
  - cbn. constructor; [intros [H|[]]; discriminate H|].
    constructor; [intros []|constructor].
  - rewrite E. reflexivity.
Defined.

(** Two nodes with one account address: the later one takes the entry. *)
Example seeds_of_a_shared_address :
  build_seeds 10000 4 1 [ (0%Z, (py "aa", py "k0")); (2%Z, (py "aa", py "k2")) ]
  = [ (py "aa", seed_entry 10000 4 1 2 (py "k2")) ].
Proof. reflexivity. Qed.

(** ** Outside the output directory *)

Lemma lookup_set_dir_other n f cs m :
  m <> n -> lookup m (set_dir n f cs) = lookup m cs.
Proof.
  intros N. induction cs as [|[k e] cs IH]; cbn [set_dir lookup].
  - destruct (str_eqb n m) eqn:E; [|reflexivity].
    apply str_eqb_eq in E. congruence.
  - destruct (str_eqb k n) eqn:E; cbn [lookup].
    + destruct (str_eqb k m) eqn:E'; [|reflexivity].
      apply str_eqb_eq in E, E'. congruence.
    + now rewrite IH.
Qed.

Lemma set_dir_names n f cs :
  map fst (set_dir n f cs)
  = if existsb (fun k => str_eqb k n) (map fst cs) then map fst cs
    else map fst cs ++ [n].
Proof.
  induction cs as [|[k e] cs IH]; cbn [set_dir map fst existsb]; [reflexivity|].
  destruct (str_eqb k n); cbn [orb map fst]; [reflexivity|].
  rewrite IH. now destruct (existsb _ _).
Qed.

